(** * Mooncake store: benchmark engine, master entry point and lease model

    A shallow embedding of the parts of the repository that the
    specification talks about:

    - [MooncakeEngine] (bench/mooncake_engine.cpp): the chunking of a value
      into client-buffer slices, the export of slices, [put], [Get];
    - the master's [main] (mooncake_master): thread-pool size and the list
      of registered RPC handlers;
    - [Benchmark::Run] (bench/benchmark.cpp): the split of the operation
      indices over the worker threads;
    - [calculate_percentiles] (batch benchmark);
    - the lease of an object ([GrantLease]), which is described by the
      specification only.

    Unsigned 64-bit values ([size_t], [uint64_t]) are integers of [Z] in
    [0, 2^64) and every arithmetic operation of the source on them is
    written with its reduction modulo [2^64].  A value is a byte string, a
    list of [byte]; a key, also a [std::string], is a [string], the key
    type of the maps. *)

From Stdlib Require Import ZArith QArith Qround List Lia Lqa Bool Strings.Byte.
From Stdlib Require Import Floats.PrimFloat Floats.FloatOps Floats.SpecFloat.
From Stdlib Require Import Numbers.Cyclic.Int63.Uint63.
From stdpp Require Import gmap strings list sorting.

Open Scope Z_scope.

Set Warnings "-inexact-float".

(** ** Machine integers *)

Definition u64_modulus : Z := 2 ^ 64.

(** The value of an integer expression once stored in a [uint64_t]. *)
Definition u64 (x : Z) : Z := x mod u64_modulus.

Definition INT_MAX : Z := 2 ^ 31 - 1.

(** [static_cast<int>(u)] of a 32-bit unsigned value [u]. *)
Definition static_cast_int (u : Z) : Z :=
  let r := u mod 2 ^ 32 in
  if r <=? INT_MAX then r else r - 2 ^ 32.

(** ** Byte strings and client memory *)

(** [std::string::size()]. *)
Definition size_of (s : list byte) : Z := Z.of_nat (length s).

(** The address space the client buffer lives in. *)
Definition Heap : Type := Z -> byte.

(** [memcpy(dst, src, |src|)]. *)
Definition memcpy (h : Heap) (dst : Z) (src : list byte) : Heap :=
  fun a =>
    if decide (dst <= a < dst + size_of src)
    then nth (Z.to_nat (a - dst)) src x00
    else h a.

(** The [n] bytes found at [p], as [std::string::append(p, n)] reads them. *)
Definition read_bytes (h : Heap) (p : Z) (n : Z) : list byte :=
  map (fun i => h (p + Z.of_nat i)) (seq 0 (Z.to_nat n)).

(** [struct Slice { void *ptr; size_t size; }]. *)
Record Slice : Type := mkSlice { ptr : Z; size : Z }.

Definition slice_bytes (h : Heap) (s : Slice) : list byte :=
  read_bytes h (ptr s) (size s).

(** Address [x] lies in the buffer of slice [s]. *)
Definition in_slice (s : Slice) (x : Z) : Prop :=
  ptr s <= x < ptr s + size s.

(** No two slices of the list share an address. *)
Fixpoint slices_disjoint (slices : list Slice) : Prop :=
  match slices with
  | [] => True
  | s :: rest =>
      Forall (fun s' => forall x, in_slice s x -> ~ in_slice s' x) rest /\
      slices_disjoint rest
  end.

Fixpoint sum_sizes (slices : list Slice) : Z :=
  match slices with
  | [] => 0
  | s :: rest => size s + sum_sizes rest
  end.

(** ** The client buffer allocator

    [SimpleAllocator] is declared in allocator.h, which the engine only
    includes; the engine uses two of its operations.  [allocate] returns
    [None] for the null pointer. *)

Class BufferAllocator (A : Type) : Type := {
  allocate : A -> Z -> option Z * A;
  deallocate : A -> Z -> Z -> A
}.

(** What the round trip through client memory needs from an allocator:
    a block that is handed out does not overlap a block that is still
    handed out.  [owned a x] says that address [x] lies in a live block. *)
Definition allocate_fresh {A : Type} `{BufferAllocator A}
    (owned : A -> Z -> Prop) : Prop :=
  forall a n p a',
    allocate a n = (Some p, a') ->
    (forall x, p <= x < p + n -> ~ owned a x) /\
    (forall x, owned a' x <-> (owned a x \/ p <= x < p + n)).

(** Every address of every slice lies in a live block of the allocator. *)
Definition slices_owned {A : Type} (owned : A -> Z -> Prop) (a : A)
    (slices : list Slice) : Prop :=
  Forall (fun s => forall x, in_slice s x -> owned a x) slices.

(** A bump allocator over [[next, limit)]: the simplest allocator that can
    run out of memory.  [deallocate] gives the block back only when it is
    the last one handed out. *)
Record Bump : Type := mkBump { next : Z; limit : Z }.

Definition bump_allocate (b : Bump) (n : Z) : option Z * Bump :=
  if decide (0 <= n /\ next b + n <= limit b)
  then (Some (next b), {| next := next b + n; limit := limit b |})
  else (None, b).

Definition bump_deallocate (b : Bump) (p n : Z) : Bump :=
  if decide (p + n = next b) then {| next := p; limit := limit b |} else b.

#[export] Instance bump_allocator : BufferAllocator Bump :=
  {| allocate := bump_allocate; deallocate := bump_deallocate |}.

(** The bump allocator has handed out the addresses below [next]. *)
Definition bump_owned (b : Bump) (x : Z) : Prop := x < next b.

(** ** The store behind [mooncake::Client] *)

Inductive ErrorCode : Type :=
| OK
| INVALID_PARAMS
| OBJECT_NOT_FOUND
| OBJECT_ALREADY_EXISTS
| REPLICA_IS_NOT_READY
| INVALID_WRITE
| OBJECT_HAS_LEASE
| NO_AVAILABLE_HANDLE
| INTERNAL_ERROR.

#[export] Instance ErrorCode_eq_dec : EqDecision ErrorCode.
Proof. solve_decision. Defined.

Inductive ReplicaStatus : Type := PROCESSING | COMPLETE | FAILED.

#[export] Instance ReplicaStatus_eq_dec : EqDecision ReplicaStatus.
Proof. solve_decision. Defined.

(** A handle is a range of remote memory; the model keeps the bytes the
    range holds next to its size. *)
Record Handle : Type := mkHandle { handle_size : Z; handle_data : list byte }.

Record Replica : Type :=
  mkReplica { handles : list Handle; status : ReplicaStatus }.

Record ObjectMetadata : Type :=
  mkObject { object_size : Z; replicas : list Replica }.

(** The answer of [Client::Query]. *)
Record ObjectInfo : Type := mkObjectInfo { replica_list : list Replica }.

Record ReplicateConfig : Type := mkConfig { replica_num : Z }.

Fixpoint sum_lengths (ls : list Z) : Z :=
  match ls with
  | [] => 0
  | l :: rest => l + sum_lengths rest
  end.

Definition sum_handle_sizes (hs : list Handle) : Z :=
  sum_lengths (map handle_size hs).

Definition all_complete (rs : list Replica) : bool :=
  forallb (fun r => bool_decide (status r = COMPLETE)) rs.

Section Store.

Variable kMaxSliceSize : Z.

(** Modelled from the spec: the master's [PutStart] (section 4.1), which
    is not under src/.  It rejects a zero length, an empty key, a zero
    replica count, a slice longer than [kMaxSliceSize] and slice lengths
    that do not add up with [INVALID_PARAMS], and a key that is present
    with [OBJECT_ALREADY_EXISTS]; otherwise it enters [replica_num]
    replicas in state [PROCESSING], each a sequence of handles matching
    [slice_lengths].  Segments are not modelled: no handle is ever
    unregistered (so no entry is stale) and allocation in a segment
    does not fail ([NO_AVAILABLE_HANDLE] does not arise); leases are
    modelled apart, in [GrantLease]. *)
Definition PutStart (st : gmap string ObjectMetadata) (key : string)
    (value_length : Z) (slice_lengths : list Z) (config : ReplicateConfig)
    : ErrorCode * gmap string ObjectMetadata :=
  if bool_decide (value_length = 0 \/ key = EmptyString \/
                  replica_num config = 0 \/
                  Exists (fun l => kMaxSliceSize < l) slice_lengths \/
                  sum_lengths slice_lengths <> value_length)
  then (INVALID_PARAMS, st)
  else if bool_decide (is_Some (st !! key))
  then (OBJECT_ALREADY_EXISTS, st)
  else
    let fresh := map (fun l => mkHandle l (replicate (Z.to_nat l) x00))
                     slice_lengths in
    (OK, <[key := mkObject value_length
                    (replicate (Z.to_nat (replica_num config))
                               (mkReplica fresh PROCESSING))]> st).

(** Modelled from the spec: the out-of-band transfer of section 2 (the
    client writes its data into the handles [PutStart] described), which
    belongs to the transfer engine, not under src/; handle [i] of every
    replica receives the bytes of slice [i]. *)
Definition transfer_write (datas : list (list byte)) (r : Replica)
    : Replica :=
  mkReplica
    (zip_with (fun h d => mkHandle (handle_size h) d) (handles r) datas)
    (status r).

(** Modelled from the spec: the transfer, for the object under [key]. *)
Definition Transfer (st : gmap string ObjectMetadata) (key : string)
    (datas : list (list byte)) : gmap string ObjectMetadata :=
  alter (fun obj =>
           mkObject (object_size obj)
                    (map (transfer_write datas) (replicas obj)))
        key st.

(** Modelled from the spec: [PutEnd] (section 4.1) marks every replica
    [COMPLETE]; a missing key is [OBJECT_NOT_FOUND]. *)
Definition PutEnd (st : gmap string ObjectMetadata) (key : string)
    : ErrorCode * gmap string ObjectMetadata :=
  match st !! key with
  | None => (OBJECT_NOT_FOUND, st)
  | Some obj =>
      (OK, <[key := mkObject (object_size obj)
                      (map (fun r => mkReplica (handles r) COMPLETE)
                           (replicas obj))]> st)
  end.

(** Modelled from the spec: [GetReplicaList] (section 4.1), without its
    lease and GC bookkeeping. *)
Definition GetReplicaList (st : gmap string ObjectMetadata) (key : string)
    : ErrorCode * ObjectInfo :=
  match st !! key with
  | None => (OBJECT_NOT_FOUND, mkObjectInfo [])
  | Some obj =>
      if all_complete (replicas obj)
      then (OK, mkObjectInfo (replicas obj))
      else (REPLICA_IS_NOT_READY, mkObjectInfo [])
  end.

(** Modelled from the spec: [Client::Put] (client.h is not under src/)
    follows the data flow of section 2: [PutStart] with the slice
    lengths, the transfer of the slices' bytes, [PutEnd]. *)
Definition Client_Put (st : gmap string ObjectMetadata) (h : Heap)
    (key : string) (slices : list Slice) (config : ReplicateConfig)
    : ErrorCode * gmap string ObjectMetadata :=
  let lens := map size slices in
  match PutStart st key (sum_lengths lens) lens config with
  | (OK, st1) =>
      PutEnd (Transfer st1 key (map (slice_bytes h) slices)) key
  | (ec, _) => (ec, st)
  end.

(** Modelled from the spec: [Client::Query] is [GetReplicaList]. *)
Definition Client_Query (st : gmap string ObjectMetadata) (key : string)
    : ErrorCode * ObjectInfo :=
  GetReplicaList st key.

(** Modelled from the spec: the data plane of a read (transfer engine, not
    under src/); handle [i] is copied into slice [i], and the transfer
    fails when handles and slices do not match. *)
Fixpoint transfer_read (hs : list Handle) (ss : list Slice) (h : Heap)
    : option Heap :=
  match hs, ss with
  | [], [] => Some h
  | hd :: hs', s :: ss' =>
      if decide (handle_size hd = size s)
      then transfer_read hs' ss' (memcpy h (ptr s) (handle_data hd))
      else None
  | _, _ => None
  end.

(** Modelled from the spec: [Client::Get] reads the first replica of the
    descriptors it is given into the slices (section 6, Descriptor). *)
Definition Client_Get (h : Heap) (object_info : ObjectInfo)
    (slices : list Slice) : ErrorCode * Heap :=
  match replica_list object_info with
  | [] => (INVALID_PARAMS, h)
  | r :: _ =>
      match transfer_read (handles r) slices h with
      | Some h' => (OK, h')
      | None => (INVALID_PARAMS, h)
      end
  end.

(** No handle of the store is longer than [kMaxSliceSize]. *)
Definition handles_bounded (st : gmap string ObjectMetadata) : Prop :=
  forall key obj,
    st !! key = Some obj ->
    Forall (fun r => Forall (fun h => handle_size h <= kMaxSliceSize)
                            (handles r))
           (replicas obj).

(** Modelled from the spec: the ways the content of the store changes.
    Besides [PutStart], the transfer and [PutEnd], an entry is erased
    ([PutRevoke], [Remove], [RemoveAll], eviction) and replicas are dropped
    from an entry (the sweep of an unmount). *)
Inductive store_step
    : gmap string ObjectMetadata -> gmap string ObjectMetadata -> Prop :=
| step_PutStart st key value_length slice_lengths config ec st' :
    PutStart st key value_length slice_lengths config = (ec, st') ->
    store_step st st'
| step_Transfer st key datas :
    store_step st (Transfer st key datas)
| step_PutEnd st key ec st' :
    PutEnd st key = (ec, st') ->
    store_step st st'
| step_Erase st key :
    store_step st (delete key st)
| step_DropReplicas st key (keep : Replica -> bool) :
    store_step st
      (alter (fun obj =>
                mkObject (object_size obj)
                         (filter (fun r => keep r = true) (replicas obj)))
             key st).

(** The contents a store can have, starting empty. *)
Inductive store_reachable : gmap string ObjectMetadata -> Prop :=
| reachable_empty : store_reachable ∅
| reachable_step st st' :
    store_reachable st -> store_step st st' -> store_reachable st'.

End Store.

(** ** [MooncakeEngine] *)

(** Calls that leave the engine: to its allocator and to the client. *)
Inductive Event : Type :=
| EvAllocate (n : Z) (result : option Z)
| EvDeallocate (p n : Z)
| EvQuery (key : string)
| EvClientGet (key : string)
| EvClientPut (key : string).

(** The events of a successful allocation of a slice and of its release. *)
Definition alloc_event (s : Slice) : Event :=
  EvAllocate (size s) (Some (ptr s)).

Definition dealloc_event (s : Slice) : Event :=
  EvDeallocate (ptr s) (size s).

(** The engine and what it acts on.  [client_] is [None] for the null
    pointer it holds before [Init]; [Some st] stands for the shared client,
    [st] being the state of the store it talks to.  [trace] records the
    calls made so far, oldest first. *)
Record World (A : Type) : Type := mkWorld {
  client_ : option (gmap string ObjectMetadata);
  client_buffer_allocator_ : A;
  heap : Heap;
  trace : list Event
}.

Arguments mkWorld {A} _ _ _ _.
Arguments client_ {A} _.
Arguments client_buffer_allocator_ {A} _.
Arguments heap {A} _.
Arguments trace {A} _.

(** The result of a function that contains an [assert]. *)
Inductive Outcome (T : Type) : Type :=
| Returned (t : T)
| AssertionFailed.

Arguments Returned {T} _.
Arguments AssertionFailed {T}.

Section Engine.

Context {A : Type} `{!BufferAllocator A}.
Variable kMaxSliceSize : Z.

(** [client_buffer_allocator_->allocate(n)] *)
Definition do_allocate (w : World A) (n : Z) : option Z * World A :=
  let '(r, a') := allocate (client_buffer_allocator_ w) n in
  (r, mkWorld (client_ w) a' (heap w) (trace w ++ [EvAllocate n r])).

(** [client_buffer_allocator_->deallocate(slice.ptr, slice.size)] *)
Definition do_deallocate (w : World A) (s : Slice) : World A :=
  mkWorld (client_ w)
          (deallocate (client_buffer_allocator_ w) (ptr s) (size s))
          (heap w)
          (trace w ++ [EvDeallocate (ptr s) (size s)]).

Definition do_memcpy (w : World A) (dst : Z) (src : list byte) : World A :=
  mkWorld (client_ w) (client_buffer_allocator_ w)
          (memcpy (heap w) dst src) (trace w).

(** [for (auto slice : slices) deallocate(slice.ptr, slice.size); return 0;] *)
Definition freeSlices (w : World A) (slices : list Slice) : World A :=
  fold_left do_deallocate slices w.

(** The [while (offset < value.size())] loop of
    [allocateSlices(slices, value)]; one unit of [fuel] per iteration,
    [None] when it is used up.  The result is the return code, the
    vector [slices] and the world. *)
Fixpoint allocateSlices_loop (fuel : nat) (w : World A)
    (slices : list Slice) (value : list byte) (offset : Z)
    : option (Z * list Slice * World A) :=
  match fuel with
  | O => None
  | S fuel' =>
      if decide (offset < size_of value) then
        let chunk_size :=
          Z.min (u64 (size_of value - offset)) kMaxSliceSize in
        match do_allocate w chunk_size with
        | (None, w1) => Some (1, [], freeSlices w1 slices)
        | (Some p, w1) =>
            let w2 :=
              do_memcpy w1 p
                (take (Z.to_nat chunk_size)
                      (drop (Z.to_nat offset) value)) in
            allocateSlices_loop fuel' w2
              (slices ++ [mkSlice p chunk_size]) value
              (u64 (offset + chunk_size))
        end
      else Some (0, slices, w)
  end.

(** [int allocateSlices(std::vector<Slice> &slices, const std::string
    &value)].  Every iteration with a positive [kMaxSliceSize] advances
    [offset], so [value.size()] iterations and the final test suffice. *)
Definition allocateSlices (w : World A) (slices : list Slice)
    (value : list byte) : option (Z * list Slice * World A) :=
  allocateSlices_loop (S (length value)) w slices value 0.

(** The [for (auto &handle : replica.handles())] loop of
    [allocateSlices(slices, object_info, length)]. *)
Fixpoint allocateSlices_handles (w : World A) (slices : list Slice)
    (length : Z) (hs : list Handle)
    : Outcome (Z * list Slice * Z * World A) :=
  match hs with
  | [] => Returned (0, slices, length, w)
  | handle :: hs' =>
      let chunk_size := handle_size handle in
      if decide (chunk_size <= kMaxSliceSize) then
        match do_allocate w chunk_size with
        | (None, w1) => Returned (1, slices, length, w1)
        | (Some p, w1) =>
            allocateSlices_handles w1 (slices ++ [mkSlice p chunk_size])
              (u64 (length + chunk_size)) hs'
        end
      else AssertionFailed
  end.

(** [int allocateSlices(std::vector<Slice> &slices, const ObjectInfo
    &object_info, uint64_t &length)] *)
Definition allocateSlices_object_info (w : World A) (slices : list Slice)
    (object_info : ObjectInfo) : Outcome (Z * list Slice * Z * World A) :=
  match replica_list object_info with
  | [] => Returned (-1, slices, 0, w)
  | replica :: _ => allocateSlices_handles w slices 0 (handles replica)
  end.

(** [std::string exportSlices(const std::vector<Slice> &slices, uint64_t
    length)]; [length] only sizes the reservation. *)
Definition exportSlices (h : Heap) (slices : list Slice) (length : Z)
    : list byte :=
  fold_left (fun result slice => result ++ slice_bytes h slice) slices [].

(** [int put(const std::string &key, const std::string &value)] *)
Definition put (w : World A) (key : string) (value : list byte)
    : option (Z * World A) :=
  match client_ w with
  | None => Some (1, w)
  | Some st =>
      let config := mkConfig 1 in
      match allocateSlices w [] value with
      | None => None
      | Some (ret, slices, w1) =>
          if decide (ret <> 0) then Some (ret, w1)
          else
            let '(error_code, st') :=
              Client_Put kMaxSliceSize st (heap w1) key slices config in
            let w2 :=
              mkWorld (Some st') (client_buffer_allocator_ w1) (heap w1)
                      (trace w1 ++ [EvClientPut key]) in
            let w3 := freeSlices w2 slices in
            if decide (error_code <> OK) then Some (1, w3)
            else Some (0, w3)
      end
  end.

(** [bool Put(const std::string &key, const std::string &value)] *)
Definition Put (w : World A) (key : string) (value : list byte)
    : option (bool * World A) :=
  match put w key value with
  | None => None
  | Some (result, w') => Some (bool_decide (result = 0), w')
  end.

(** [bool Get(const std::string &key, std::string *value)].  [value] is
    [None] for a null pointer and [Some s] for a pointer to a string that
    holds [s]; the second component of the result is the string
    afterwards. *)
Definition Get (w : World A) (key : string) (value : option (list byte))
    : Outcome (bool * option (list byte) * World A) :=
  match value with
  | None => Returned (false, value, w)
  | Some _ =>
      match client_ w with
      | None => Returned (false, value, w)
      | Some st =>
          let '(error_code, object_info) := Client_Query st key in
          let w0 :=
            mkWorld (client_ w) (client_buffer_allocator_ w) (heap w)
                    (trace w ++ [EvQuery key]) in
          if decide (error_code <> OK) then Returned (false, value, w0)
          else
            match allocateSlices_object_info w0 [] object_info with
            | AssertionFailed => AssertionFailed
            | Returned (ret, slices, str_length, w1) =>
                if decide (ret <> 0) then Returned (false, value, w1)
                else
                  let '(error_code', h') :=
                    Client_Get (heap w1) object_info slices in
                  let w2 :=
                    mkWorld (client_ w1) (client_buffer_allocator_ w1) h'
                            (trace w1 ++ [EvClientGet key]) in
                  if decide (error_code' <> OK)
                  then Returned (false, value, freeSlices w2 slices)
                  else
                    let result :=
                      fold_left
                        (fun s slice => s ++ slice_bytes (heap w2) slice)
                        slices [] in
                    Returned (true, Some result, freeSlices w2 slices)
            end
      end
  end.

End Engine.

(** ** The master's entry point *)

(** The operations of the request surface (specification, section 1),
    under the names [WrappedMasterService] gives its member functions;
    [Get] of the specification is [GetReplicaList]. *)
Module Rpc.

Inductive ScalarOp : Type :=
| MountSegment
| ReMountSegment
| UnmountSegment
| PutStart
| PutEnd
| PutRevoke
| GetReplicaList
| ExistKey
| Remove
| RemoveAll
| Ping.

End Rpc.

#[export] Instance ScalarOp_eq_dec : EqDecision Rpc.ScalarOp.
Proof. solve_decision. Defined.

(** An operation or its batch form. *)
Inductive Operation : Type :=
| Scalar (o : Rpc.ScalarOp)
| Batch (o : Rpc.ScalarOp).

#[export] Instance Operation_eq_dec : EqDecision Operation.
Proof. solve_decision. Defined.

(** The request surface as the specification lists it: [MountSegment],
    [ReMountSegment], [UnmountSegment], [PutStart/PutEnd/PutRevoke],
    [Get/ExistKey], [Remove/RemoveAll], [Ping], their batch forms. *)
Definition request_surface_scalar : list Rpc.ScalarOp :=
  [Rpc.MountSegment; Rpc.ReMountSegment; Rpc.UnmountSegment; Rpc.PutStart;
   Rpc.PutEnd; Rpc.PutRevoke; Rpc.GetReplicaList; Rpc.ExistKey; Rpc.Remove;
   Rpc.RemoveAll; Rpc.Ping].

Definition request_surface : list Operation :=
  map Scalar request_surface_scalar ++ map Batch request_surface_scalar.

(** What [main] sets up of a [coro_rpc_server]: the arguments of its
    constructor and the handlers registered with it, in order.  A handler
    is a member function of [WrappedMasterService]; the RPC carries the
    name of the member function. *)
Record coro_rpc_server : Type := mkServer {
  thread_num : Z;
  port : Z;
  handlers : list Operation
}.

(** [server.register_handler<&WrappedMasterService::m>(&service)] *)
Definition register_handler (m : Operation) (server : coro_rpc_server)
    : coro_rpc_server :=
  mkServer (thread_num server) (port server) (handlers server ++ [m]).

(** [main] up to [server.start()].  [hardware_concurrency] is the
    [unsigned] value of [std::thread::hardware_concurrency()]. *)
Definition main (FLAGS_port FLAGS_max_threads hardware_concurrency : Z)
    : coro_rpc_server :=
  let server :=
    mkServer (Z.min FLAGS_max_threads (static_cast_int hardware_concurrency))
             FLAGS_port [] in
  let server := register_handler (Scalar Rpc.ExistKey) server in
  let server := register_handler (Scalar Rpc.GetReplicaList) server in
  let server := register_handler (Scalar Rpc.PutStart) server in
  let server := register_handler (Scalar Rpc.PutEnd) server in
  let server := register_handler (Scalar Rpc.PutRevoke) server in
  let server := register_handler (Scalar Rpc.Remove) server in
  let server := register_handler (Scalar Rpc.RemoveAll) server in
  let server := register_handler (Scalar Rpc.MountSegment) server in
  let server := register_handler (Scalar Rpc.UnmountSegment) server in
  server.

(** ** [Benchmark::Run]: the split of the operations over the threads *)

(** The body of [for (int i = 0; i < num_threads; ++i)]: the pair
    [(start_idx, end_idx)] handed to worker [i].  [int] division and
    remainder truncate towards zero. *)
Definition thread_range (num_operations num_threads i : Z) : Z * Z :=
  let ops_per_thread := Z.quot num_operations num_threads in
  let remainder := Z.rem num_operations num_threads in
  let start_idx := i * ops_per_thread in
  let end_idx := start_idx + ops_per_thread in
  let end_idx :=
    if decide (i = num_threads - 1) then end_idx + remainder else end_idx in
  (start_idx, end_idx).

(** The ranges of the workers, in the order the threads are launched. *)
Definition Run_ranges (num_operations num_threads : Z) : list (Z * Z) :=
  map (thread_range num_operations num_threads) (seqZ 0 num_threads).

Definition range_length (r : Z * Z) : Z := snd r - fst r.

Fixpoint sum_range_lengths (rs : list (Z * Z)) : Z :=
  match rs with
  | [] => 0
  | r :: rest => range_length r + sum_range_lengths rest
  end.

(** ** [calculate_percentiles] *)

(** [std::ceil] of a finite binary64 number, as an integer. *)
Definition ceil_double (x : float) : Z :=
  match Prim2SF x with
  | S754_finite s m e =>
      let m := Z.pos m in
      if 0 <=? e then (if s then - (m * 2 ^ e) else m * 2 ^ e)
      else if s then - (m / 2 ^ (- e))
      else (m + 2 ^ (- e) - 1) / 2 ^ (- e)
  | _ => 0
  end.

(** [std::ceil((size * q) - 1)] as the source computes it: [size] is
    converted to [double], the product and the difference are rounded to
    binary64, and so is the constant [q]. *)
Definition percentile_index_double (size : Z) (q : float) : Z :=
  ceil_double
    (PrimFloat.sub (PrimFloat.mul (PrimFloat.of_uint63 (Uint63.of_Z size)) q)
                   1%float).

(** The same with the product and the difference taken exactly, [q] being
    the decimal fraction written in the source.  The two agree on every
    size checked ([percentile_index_double_agrees]); the properties below
    are stated for this one. *)
Definition percentile_position (size : Z) (q : Q) : Z :=
  Qceiling (inject_Z size * q - 1)%Q.

(** [static_cast<size_t>(std::ceil((size * q) - 1))] *)
Definition percentile_index (size : Z) (q : Q) : nat :=
  Z.to_nat (percentile_position size q).

(** The four indices of [calculate_percentiles], computed in binary64 and
    exactly, are the same for [size]. *)
Definition percentile_indices_agree (size : Z) : bool :=
  (percentile_index_double size 0.50%float
     =? percentile_position size 0.50%Q) &&
  (percentile_index_double size 0.90%float
     =? percentile_position size 0.90%Q) &&
  (percentile_index_double size 0.95%float
     =? percentile_position size 0.95%Q) &&
  (percentile_index_double size 0.99%float
     =? percentile_position size 0.99%Q).

(** [percentile_indices_agree] for each of the sizes [1, ..., n]. *)
Definition percentile_indices_agree_upto (n : Z) : bool :=
  snd (Z.iter n (fun st => (fst st + 1,
                            snd st && percentile_indices_agree (fst st)))
              (1, true)).

Section Percentiles.

(** Latencies: the values of [double] that are numbers, of which the
    function uses the order (in [std::sort]) and the constant [0.0]. *)
Context {T : Type} (le : relation T) `{!forall x y, Decision (le x y)}.
Variable zero : T.

(** The vector after the call, and [p50], [p90], [p95], [p99]. *)
Definition calculate_percentiles (latencies : list T)
    : list T * (T * T * T * T) :=
  match latencies with
  | [] => (latencies, (zero, zero, zero, zero))
  | _ :: _ =>
      let latencies := merge_sort le latencies in
      let size := Z.of_nat (length latencies) in
      (latencies,
       (nth (percentile_index size 0.50%Q) latencies zero,
        nth (percentile_index size 0.90%Q) latencies zero,
        nth (percentile_index size 0.95%Q) latencies zero,
        nth (percentile_index size 0.99%Q) latencies zero))
  end.

End Percentiles.

(** ** Leases *)

(** Modelled from the spec: [GrantLease] (section 4.4), which is not under
    src/: "[lease_timeout] is a monotonic time point. [GrantLease(ttl)]
    sets it to [max(lease_timeout, now + ttl)]".  Time points and
    durations are counted in ticks of the monotonic clock. *)
Record Lease : Type := mkLease { lease_timeout : Z }.

Definition GrantLease (now ttl : Z) (l : Lease) : Lease :=
  mkLease (Z.max (lease_timeout l) (now + ttl)).

(** Modelled from the spec: [IsLeaseExpired(now) = lease_timeout <= now]. *)
Definition IsLeaseExpired (now : Z) (l : Lease) : bool :=
  bool_decide (lease_timeout l <= now).

(** ** The master service (master_service.cpp)

    The operations of [MasterService] on the object metadata, as the source
    has them.  The shards are the array [metadata_shards_]; an operation on
    one key works in the shard [getShardIndex] selects.  The clock is read
    once per operation and passed as [now].  What the source takes from
    headers that are not under src/ is a parameter: the handles
    ([AllocatedBuffer]) with the test for an unregistered one and their
    completion, [getShardIndex], [kMaxSliceSize] and the capacity of the GC
    queue. *)
Module MasterService.

(** [tl::expected<T, ErrorCode>] *)
Inductive expected (T : Type) : Type :=
| Value (t : T)
| Unexpected (e : ErrorCode).

Arguments Value {T} _.
Arguments Unexpected {T} _.

(** [GCTask]: the key and the time from which the task is ready. *)
Record GCTask : Type := mkGCTask { task_key : string; ready_at : Z }.

Section Service.

Context {AllocatedBuffer : Type}.
Variable invalid : AllocatedBuffer -> bool.
Variable complete_handle : AllocatedBuffer -> AllocatedBuffer.
Variable kMaxSliceSize : Z.
Variable getShardIndex : string -> nat.
Variable enable_gc_ : bool.
Variable default_kv_lease_ttl_ : Z.
Variable kGCQueueSize : nat.

(** [Replica]: the handles it owns and its status, as
    [replicas.emplace_back(std::move(handles), ReplicaStatus::PROCESSING)]
    builds it.  A descriptor of a replica is a copy of these. *)
Record Replica : Type :=
  mkReplica { handles : list AllocatedBuffer; status : ReplicaStatus }.

(** Modelled from the spec: [Replica::has_invalid_handle] (types.h is not
    under src/), "iff any handle is [UNREGISTERED]". *)
Definition has_invalid_handle (r : Replica) : bool :=
  existsb invalid (handles r).

(** Modelled from the spec: [Replica::mark_complete] (types.h is not under
    src/); the replica becomes [COMPLETE], and so do its handles, by
    [complete_handle]. *)
Definition mark_complete (r : Replica) : Replica :=
  mkReplica (map complete_handle (handles r)) COMPLETE.

(** [ObjectMetadata] of master_service.h, by its uses: [replicas], [size]
    and the lease. *)
Record ObjectMetadata : Type :=
  mkObjectMetadata { replicas : list Replica; size : Z; lease : Lease }.

(** Modelled from the spec: [ObjectMetadata::HasDiffRepStatus(status)]
    (master_service.h is not under src/) gives the status of the first
    replica that is not in [s], if there is one. *)
Definition HasDiffRepStatus (md : ObjectMetadata) (s : ReplicaStatus)
    : option ReplicaStatus :=
  option_map status
    (List.find (fun r => negb (bool_decide (status r = s))) (replicas md)).

(** [metadata.GrantLease(ttl)] at clock reading [now]. *)
Definition grant (now ttl : Z) (md : ObjectMetadata) : ObjectMetadata :=
  mkObjectMetadata (replicas md) (size md) (GrantLease now ttl (lease md)).

Record State : Type := mkState {
  metadata_shards_ : list (gmap string ObjectMetadata);
  need_eviction_ : bool;
  gc_queue_ : list GCTask
}.

(** [metadata_shards_[getShardIndex(key)].metadata] *)
Definition shard_of (st : State) (key : string)
    : gmap string ObjectMetadata :=
  default ∅ (metadata_shards_ st !! getShardIndex key).

(** [metadata.find(key)] in the shard of [key] *)
Definition find_key (st : State) (key : string) : option ObjectMetadata :=
  shard_of st key !! key.

Definition set_shards (st : State) (shards : list (gmap string ObjectMetadata))
    : State :=
  mkState shards (need_eviction_ st) (gc_queue_ st).

(** Writing through the reference [accessor.Get()], or [it->second]. *)
Definition store_key (st : State) (key : string) (md : ObjectMetadata)
    : State :=
  set_shards st
    (<[getShardIndex key := <[key := md]> (shard_of st key)]>
       (metadata_shards_ st)).

(** [accessor.Erase()] *)
Definition erase_key (st : State) (key : string) : State :=
  set_shards st
    (<[getShardIndex key := delete key (shard_of st key)]>
       (metadata_shards_ st)).

(** The loop of [CleanupStaleHandles]: the replicas with an invalid handle
    are erased from the vector. *)
Fixpoint cleanup_replicas (rs : list Replica) : list Replica :=
  match rs with
  | [] => []
  | r :: rest =>
      if has_invalid_handle r then cleanup_replicas rest
      else r :: cleanup_replicas rest
  end.

(** [bool CleanupStaleHandles(ObjectMetadata &metadata)]: the metadata
    afterwards, and whether no replica remains. *)
Definition CleanupStaleHandles (md : ObjectMetadata) : bool * ObjectMetadata :=
  let rs := cleanup_replicas (replicas md) in
  (bool_decide (rs = []), mkObjectMetadata rs (size md) (lease md)).

(** [MarkForGC(key, delay_ms)]: the task is pushed unless the queue is
    full. *)
Definition MarkForGC (st : State) (now : Z) (key : string) (delay_ms : Z)
    : expected unit * State :=
  if decide (length (gc_queue_ st) < kGCQueueSize)%nat
  then (Value tt,
        mkState (metadata_shards_ st) (need_eviction_ st)
                (gc_queue_ st ++ [mkGCTask key (now + delay_ms)]))
  else (Unexpected INTERNAL_ERROR, st).

(** [ExistKey(key)] *)
Definition ExistKey (st : State) (now : Z) (key : string)
    : expected bool * State :=
  match find_key st key with
  | None => (Value false, st)
  | Some metadata =>
      match HasDiffRepStatus metadata COMPLETE with
      | Some _ => (Unexpected REPLICA_IS_NOT_READY, st)
      | None =>
          (Value true,
           store_key st key (grant now default_kv_lease_ttl_ metadata))
      end
  end.

(** [GetReplicaList(key)] *)
Definition GetReplicaList (st : State) (now : Z) (key : string)
    : expected (list Replica) * State :=
  match find_key st key with
  | None => (Unexpected OBJECT_NOT_FOUND, st)
  | Some metadata =>
      match HasDiffRepStatus metadata COMPLETE with
      | Some _ => (Unexpected REPLICA_IS_NOT_READY, st)
      | None =>
          let replica_list := replicas metadata in
          if enable_gc_
          then (Value replica_list, snd (MarkForGC st now key 1000))
          else (Value replica_list,
                store_key st key (grant now default_kv_lease_ttl_ metadata))
      end
  end.

(** The validation loop of [PutStart]: [None] at the first slice longer
    than [kMaxSliceSize], else the [uint64_t] sum of the lengths. *)
Fixpoint total_slice_length (slice_lengths : list Z) (total_length : Z)
    : option Z :=
  match slice_lengths with
  | [] => Some total_length
  | l :: rest =>
      if decide (l > kMaxSliceSize) then None
      else total_slice_length rest (u64 (total_length + l))
  end.

(** The inner loop of the allocation in [PutStart], for one replica:
    [Allocate j chunk_size] is what [allocation_strategy_->Allocate] gives
    for slice [j].  [None] when a handle is refused. *)
Fixpoint allocate_handles (Allocate : nat -> Z -> option AllocatedBuffer)
    (j : nat) (slice_lengths : list Z) : option (list AllocatedBuffer) :=
  match slice_lengths with
  | [] => Some []
  | chunk_size :: rest =>
      match Allocate j chunk_size with
      | None => None
      | Some handle =>
          match allocate_handles Allocate (S j) rest with
          | None => None
          | Some handles => Some (handle :: handles)
          end
      end
  end.

(** The outer loop, over the replicas [i, i + n). *)
Fixpoint allocate_replicas
    (Allocate : nat -> nat -> Z -> option AllocatedBuffer)
    (i n : nat) (slice_lengths : list Z) : option (list Replica) :=
  match n with
  | O => Some []
  | S n' =>
      match allocate_handles (Allocate i) 0 slice_lengths with
      | None => None
      | Some handles =>
          match allocate_replicas Allocate (S i) n' slice_lengths with
          | None => None
          | Some rs => Some (mkReplica handles PROCESSING :: rs)
          end
      end
  end.

(** [PutStart(key, value_length, slice_lengths, config)].  [Allocate i j
    chunk_size] is the answer of the allocation strategy for slice [j] of
    replica [i].  [metadata.emplace] enters the object only when the key is
    not in the shard. *)
Definition PutStart (st : State) (key : string) (value_length : Z)
    (slice_lengths : list Z) (config : ReplicateConfig)
    (Allocate : nat -> nat -> Z -> option AllocatedBuffer)
    : expected (list Replica) * State :=
  if decide (replica_num config = 0 \/ value_length = 0 \/
             key = EmptyString)
  then (Unexpected INVALID_PARAMS, st)
  else
    match total_slice_length slice_lengths 0 with
    | None => (Unexpected INVALID_PARAMS, st)
    | Some total_length =>
        if decide (total_length <> value_length)
        then (Unexpected INVALID_PARAMS, st)
        else
          let found := find_key st key in
          let '(stale, st1) :=
            match found with
            | None => (true, st)
            | Some metadata =>
                let '(none_left, metadata') := CleanupStaleHandles metadata in
                (none_left, store_key st key metadata')
            end in
          if negb stale then (Unexpected OBJECT_ALREADY_EXISTS, st1)
          else
            match allocate_replicas Allocate 0
                    (Z.to_nat (replica_num config)) slice_lengths with
            | None =>
                (Unexpected NO_AVAILABLE_HANDLE,
                 mkState (metadata_shards_ st1) true (gc_queue_ st1))
            | Some new_replicas =>
                (Value new_replicas,
                 match found with
                 | None =>
                     store_key st1 key
                       (mkObjectMetadata new_replicas value_length
                                         (mkLease 0))
                 | Some _ => st1
                 end)
            end
    end.

(** [PutEnd(key)] *)
Definition PutEnd (st : State) (now : Z) (key : string)
    : expected unit * State :=
  match find_key st key with
  | None => (Unexpected OBJECT_NOT_FOUND, st)
  | Some metadata =>
      let metadata :=
        mkObjectMetadata (map mark_complete (replicas metadata))
                         (size metadata) (lease metadata) in
      (Value tt, store_key st key (grant now 0 metadata))
  end.

(** [PutRevoke(key)] *)
Definition PutRevoke (st : State) (key : string) : expected unit * State :=
  match find_key st key with
  | None => (Unexpected OBJECT_NOT_FOUND, st)
  | Some metadata =>
      match HasDiffRepStatus metadata PROCESSING with
      | Some _ => (Unexpected INVALID_WRITE, st)
      | None => (Value tt, erase_key st key)
      end
  end.

(** [Remove(key)] *)
Definition Remove (st : State) (now : Z) (key : string)
    : expected unit * State :=
  match find_key st key with
  | None => (Unexpected OBJECT_NOT_FOUND, st)
  | Some metadata =>
      if negb (IsLeaseExpired now (lease metadata))
      then (Unexpected OBJECT_HAS_LEASE, st)
      else
        match HasDiffRepStatus metadata COMPLETE with
        | Some _ => (Unexpected REPLICA_IS_NOT_READY, st)
        | None => (Value tt, erase_key st key)
        end
  end.

(** [BatchPutStart(keys, value_lengths, slice_lengths, config)]; [i] is the
    index of the first key of [keys] in the call, [Allocate i] the
    allocation strategy during the [PutStart] of key [i]. *)
Fixpoint BatchPutStart_from (i : nat) (st : State) (keys : list string)
    (value_lengths : list Z) (slice_lengths : list (list Z))
    (config : ReplicateConfig)
    (Allocate : nat -> nat -> nat -> Z -> option AllocatedBuffer)
    : list (expected (list Replica)) * State :=
  match keys with
  | [] => ([], st)
  | key :: rest =>
      let '(result, st1) :=
        match value_lengths !! i, slice_lengths !! i with
        | Some value_length, Some lengths =>
            PutStart st key value_length lengths config (Allocate i)
        | _, _ => (Unexpected INVALID_PARAMS, st)
        end in
      let '(results, st2) :=
        BatchPutStart_from (S i) st1 rest value_lengths slice_lengths config
                           Allocate in
      (result :: results, st2)
  end.

Definition BatchPutStart (st : State) (keys : list string)
    (value_lengths : list Z) (slice_lengths : list (list Z))
    (config : ReplicateConfig)
    (Allocate : nat -> nat -> nat -> Z -> option AllocatedBuffer)
    : list (expected (list Replica)) * State :=
  BatchPutStart_from 0 st keys value_lengths slice_lengths config Allocate.

(** A loop that walks a shard and erases the entries [cond] selects, as in
    [RemoveAll] and [ClearInvalidHandles]:
    [if (cond) { it = erase(it); count++; } else { ++it; }]. *)
Fixpoint erase_loop (cond : ObjectMetadata -> bool)
    (entries : list (string * ObjectMetadata))
    (shard : gmap string ObjectMetadata) (count : Z)
    : gmap string ObjectMetadata * Z :=
  match entries with
  | [] => (shard, count)
  | (key, metadata) :: rest =>
      if cond metadata
      then erase_loop cond rest (delete key shard) (count + 1)
      else erase_loop cond rest shard count
  end.

(** The loop over the shards of [RemoveAll]. *)
Fixpoint RemoveAll_shards (now : Z)
    (shards : list (gmap string ObjectMetadata)) (removed_count : Z)
    : list (gmap string ObjectMetadata) * Z :=
  match shards with
  | [] => ([], removed_count)
  | shard :: rest =>
      let '(shard', removed_count) :=
        erase_loop (fun metadata => IsLeaseExpired now (lease metadata))
                   (map_to_list shard) shard removed_count in
      let '(rest', removed_count) := RemoveAll_shards now rest removed_count in
      (shard' :: rest', removed_count)
  end.

(** [long RemoveAll()] *)
Definition RemoveAll (st : State) (now : Z) : Z * State :=
  let '(shards, removed_count) :=
    RemoveAll_shards now (metadata_shards_ st) 0 in
  (removed_count, set_shards st shards).

(** The test of [ClearInvalidHandles] on one object: some replica has an
    invalid handle, or [CleanupStaleHandles] leaves no replica. *)
Definition to_clear (metadata : ObjectMetadata) : bool :=
  existsb has_invalid_handle (replicas metadata) ||
  fst (CleanupStaleHandles metadata).

(** [void ClearInvalidHandles()].  An object that stays has gone through
    [CleanupStaleHandles]. *)
Definition ClearInvalidHandles (st : State) : State :=
  set_shards st
    (map (fun shard =>
            fmap (fun metadata => snd (CleanupStaleHandles metadata))
                 (fst (erase_loop to_clear (map_to_list shard) shard 0)))
         (metadata_shards_ st)).

(** [size_t GetKeyCount() const] *)
Definition GetKeyCount (st : State) : Z :=
  fold_left (fun total shard => u64 (total + Z.of_nat (base.size shard)))
            (metadata_shards_ st) 0.

(** [GetAllKeys()] *)
Definition GetAllKeys (st : State) : list string :=
  concat (map (fun shard => map fst (map_to_list shard))
              (metadata_shards_ st)).

(** An object [BatchEvict] may evict at [now]: its lease has expired and
    every replica is [COMPLETE]. *)
Definition evictable (now : Z) (metadata : ObjectMetadata) : bool :=
  IsLeaseExpired now (lease metadata) &&
  bool_decide (HasDiffRepStatus metadata COMPLETE = None).

(** What an eviction at [now] may do to a shard: an entry is as before, or
    it has gone and its lease had expired with every replica [COMPLETE]. *)
Definition evicted_from (now : Z) (before after : gmap string ObjectMetadata)
    : Prop :=
  forall key,
    after !! key = before !! key \/
    (after !! key = None /\
     exists metadata,
       before !! key = Some metadata /\ evictable now metadata = true).

(** The eviction loop of one shard:
    [while (it != end && shard_evicted_count < evict_num)]. *)
Fixpoint evict_loop (target_timeout evict_num : Z)
    (entries : list (string * ObjectMetadata))
    (shard : gmap string ObjectMetadata) (shard_evicted_count : Z)
    : gmap string ObjectMetadata * Z :=
  match entries with
  | [] => (shard, shard_evicted_count)
  | (key, metadata) :: rest =>
      if decide (shard_evicted_count < evict_num) then
        if bool_decide (lease_timeout (lease metadata) <= target_timeout) &&
           bool_decide (HasDiffRepStatus metadata COMPLETE = None)
        then evict_loop target_timeout evict_num rest (delete key shard)
                        (shard_evicted_count + 1)
        else evict_loop target_timeout evict_num rest shard
                        shard_evicted_count
      else (shard, shard_evicted_count)
  end.

(** The body of the loop over the shards of [BatchEvict], for one shard.
    [ceil_ratio n] stands for [std::ceil(n * eviction_ratio_)];
    [std::nth_element] puts at position [evict_num - 1] the element a
    sorted vector has there. *)
Definition evict_shard (ceil_ratio : Z -> Z) (now : Z)
    (shard : gmap string ObjectMetadata) (evicted_count object_count : Z)
    : gmap string ObjectMetadata * Z * Z :=
  let object_count := object_count + Z.of_nat (base.size shard) in
  let ideal_evict_num := ceil_ratio object_count - evicted_count in
  if decide (ideal_evict_num <= 0) then (shard, evicted_count, object_count)
  else
    let candidates :=
      map (fun e => lease_timeout (lease (snd e)))
          (filter (fun e => evictable now (snd e) = true)
                  (map_to_list shard)) in
    match candidates with
    | [] => (shard, evicted_count, object_count)
    | _ :: _ =>
        let evict_num :=
          Z.min ideal_evict_num (Z.of_nat (length candidates)) in
        let target_timeout :=
          nth (Z.to_nat (evict_num - 1)) (merge_sort Z.le candidates) 0 in
        let '(shard', shard_evicted_count) :=
          evict_loop target_timeout evict_num (map_to_list shard) shard 0 in
        (shard', evicted_count + shard_evicted_count, object_count)
    end.

(** The loop [for (i = 0; i < metadata_shards_.size(); i++)] of
    [BatchEvict], over the indices [indices]; the shard visited is
    [(start_idx + i) % metadata_shards_.size()]. *)
Fixpoint BatchEvict_loop (ceil_ratio : Z -> Z) (now : Z) (start_idx : nat)
    (indices : list nat) (shards : list (gmap string ObjectMetadata))
    (evicted_count object_count : Z)
    : list (gmap string ObjectMetadata) * Z * Z :=
  match indices with
  | [] => (shards, evicted_count, object_count)
  | i :: rest =>
      let idx := ((start_idx + i) mod length shards)%nat in
      let '(shard', evicted_count, object_count) :=
        evict_shard ceil_ratio now (default ∅ (shards !! idx))
                    evicted_count object_count in
      BatchEvict_loop ceil_ratio now start_idx rest
        (<[idx := shard']> shards) evicted_count object_count
  end.

(** [void BatchEvict(double eviction_ratio)]; [rand_value] is what [rand()]
    returns.  The parameter [eviction_ratio] is not used by the body, which
    reads the member [eviction_ratio_]. *)
Definition BatchEvict (ceil_ratio : Z -> Z) (st : State) (now : Z)
    (rand_value : nat) : State :=
  let n := length (metadata_shards_ st) in
  let start_idx := (rand_value mod n)%nat in
  let '(shards, evicted_count, object_count) :=
    BatchEvict_loop ceil_ratio now start_idx (seq 0 n) (metadata_shards_ st)
                    0 0 in
  if decide (evicted_count > 0)
  then mkState shards false (gc_queue_ st)
  else if decide (object_count = 0)
  then mkState shards false (gc_queue_ st)
  else mkState shards (need_eviction_ st) (gc_queue_ st).

End Service.

End MasterService.

(** ** The client (client.cpp)

    [Client] talks to the master through the gRPC stub [master_stub_] and
    moves bytes with the [TransferEngine].  Both are outside src/: their
    operations are parameters, acting on a state [Env] of everything that
    is not the client; each call made is appended to a log, so that
    what the client asks for, and in which order, can be stated. *)
Module Client.

(** The error codes client.cpp names; [OTHER] stands for the remaining
    codes of types.h, which a response of the master may carry. *)
Inductive ErrorCode : Type :=
| OK
| INTERNAL_ERROR
| INVALID_PARAMS
| OBJECT_NOT_FOUND
| OBJECT_ALREADY_EXISTS
| INVALID_REPLICA
| TRANSFER_FAIL
| RPC_FAIL
| OTHER (code : Z).

#[export] Instance ErrorCode_eq_dec : EqDecision ErrorCode.
Proof. solve_decision. Defined.

(** Modelled from the spec: the statuses of a handle ([BufHandle::status],
    of the protocol file, which is not under src/). *)
Inductive BufStatus : Type :=
| BUF_INIT
| BUF_COMPLETE
| BUF_FAILED
| BUF_UNREGISTERED.

#[export] Instance BufStatus_eq_dec : EqDecision BufStatus.
Proof. solve_decision. Defined.

(** [mooncake_store::BufHandle], by the fields client.cpp reads. *)
Record BufHandle : Type := mkBufHandle {
  segment_name : string;
  buffer : Z;
  buf_size : Z;
  buf_status : BufStatus
}.

(** [mooncake_store::ReplicaInfo] *)
Record ReplicaInfo : Type := mkReplicaInfo {
  replica_handles : list BufHandle;
  replica_status : ReplicaStatus
}.

Inductive OpCode : Type := READ | WRITE.

(** [TransferRequest] *)
Record TransferRequest : Type := mkTransferRequest {
  opcode : OpCode;
  source : Z;
  target_id : Z;
  target_offset : Z;
  length_ : Z
}.

(** [TransferStatusEnum]: client.cpp tells [COMPLETED] and [FAILED] from
    the other values, which [WAITING] stands for. *)
Inductive TransferStatusEnum : Type :=
| WAITING
| COMPLETED
| TRANSFER_FAILED.

#[export] Instance TransferStatusEnum_eq_dec : EqDecision TransferStatusEnum.
Proof. solve_decision. Defined.

(** The calls the client makes, with what they returned. *)
Inductive Call : Type :=
| CallGetReplicaList (key : string)
| CallPutStart (key : string) (value_length : Z) (slice_lengths : list Z)
    (replica_num : Z)
| CallPutEnd (key : string)
| CallPutRevoke (key : string)
| CallOpenSegment (name : string)
| CallAllocateBatchID (batch_size : Z)
| CallSubmitTransfer (batch_id : Z) (tasks : list TransferRequest)
| CallGetTransferStatus (batch_id : Z) (task : nat)
| CallFreeBatchID (batch_id : Z).

(** The calls that go to the transfer engine. *)
Definition engine_call (c : Call) : bool :=
  match c with
  | CallOpenSegment _ | CallAllocateBatchID _ | CallSubmitTransfer _ _
  | CallGetTransferStatus _ _ | CallFreeBatchID _ => true
  | _ => false
  end.

(** The requests of a [submitTransfer]. *)
Definition submitted (c : Call) : option (list TransferRequest) :=
  match c with
  | CallSubmitTransfer _ tasks => Some tasks
  | _ => None
  end.

Section Client.

Context {Env : Type}.

(** The stub: [None] when the gRPC status is not ok, else the status code
    of the response and what the response carries. *)
Variable stub_GetReplicaList :
  Env -> string -> option (ErrorCode * list ReplicaInfo) * Env.
Variable stub_PutStart :
  Env -> string -> Z -> list Z -> Z ->
  option (ErrorCode * list ReplicaInfo) * Env.
Variable stub_PutEnd : Env -> string -> option ErrorCode * Env.
Variable stub_PutRevoke : Env -> string -> option ErrorCode * Env.

(** The transfer engine and the clock; [ERR_INVALID_ARGUMENT] is the value
    [(uint64_t)ERR_INVALID_ARGUMENT]. *)
Variable openSegment : Env -> string -> Z * Env.
Variable ERR_INVALID_ARGUMENT : Z.
Variable allocateBatchID : Env -> Z -> Z * Env.
Variable INVALID_BATCH_ID : Z.
Variable submitTransfer : Env -> Z -> list TransferRequest -> Z * Env.
Variable getTransferStatus :
  Env -> Z -> nat -> Z * TransferStatusEnum * Env.
Variable freeBatchID : Env -> Z -> Env.
Variable getCurrentTimeInNano : Env -> Z * Env.
Variable sleep_for : Env -> Z -> Env.

Record World : Type := mkWorld { env : Env; calls : list Call }.

Definition logged {R : Type} (w : World) (c : Call) (res : R * Env)
    : R * World :=
  (fst res, mkWorld (snd res) (calls w ++ [c])).

(** [RPC_CALL_OR_RETURN]: [RPC_FAIL] when the status is not ok, else the
    status code of the response. *)
Definition RPC_CALL_OR_RETURN {R : Type} (reply : option (ErrorCode * R))
    (response : R) : ErrorCode * R :=
  match reply with
  | None => (RPC_FAIL, response)
  | Some (status_code, r) => (status_code, r)
  end.

(** [CalculateSliceSize] *)
Definition CalculateSliceSize (slices : list Slice) : Z :=
  fold_left (fun slice_size slice => u64 (slice_size + size slice)) slices 0.

(** The loop of [TransferData] that prepares the requests, from index
    [idx] on; [None] when it returns [TRANSFER_FAIL].  [slices[idx]]
    exists, there being no more handles than slices. *)
Fixpoint transfer_tasks (w : World) (handles : list BufHandle)
    (slices : list Slice) (op_code : OpCode)
    : option (list TransferRequest) * World :=
  match handles, slices with
  | [], _ => (Some [], w)
  | handle :: handles', slice :: slices' =>
      if decide (buf_size handle > size slice) then (None, w)
      else
        let '(seg, w1) :=
          logged w (CallOpenSegment (segment_name handle))
                 (openSegment (env w) (segment_name handle)) in
        if decide (seg = ERR_INVALID_ARGUMENT) then (None, w1)
        else
          let request :=
            mkTransferRequest op_code (ptr slice) seg (buffer handle)
                              (buf_size handle) in
          match transfer_tasks w1 handles' slices' op_code with
          | (Some tasks, w2) => (Some (request :: tasks), w2)
          | (None, w2) => (None, w2)
          end
  | _ :: _, [] => (None, w)
  end.

(** The loop over the tasks of one polling round, from task [i], [count]
    tasks to go: [None] when a status cannot be read, which frees the
    batch and returns [TRANSFER_FAIL]; else [has_err] and [all_ready]. *)
Fixpoint status_round (w : World) (batch_id : Z) (i count : nat)
    (has_err all_ready : bool) : option (bool * bool) * World :=
  match count with
  | O => (Some (has_err, all_ready), w)
  | S count' =>
      let '(error_code, status, w1) :=
        logged w (CallGetTransferStatus batch_id i)
               (getTransferStatus (env w) batch_id i) in
      if decide (error_code <> 0)
      then (None,
            mkWorld (freeBatchID (env w1) batch_id)
                    (calls w1 ++ [CallFreeBatchID batch_id]))
      else
        status_round w1 batch_id (S i) count'
          (has_err || bool_decide (status = TRANSFER_FAILED))
          (all_ready && bool_decide (status = COMPLETED))
  end.

Definition kOneSecondInNano : Z := 1000 * 1000 * 1000.

(** [while (try_num < max_try_num)]: [Some true] when the loop is left
    with [all_ready], [Some false] when it is left without, [None] when
    the function returns [TRANSFER_FAIL] from inside the loop.  [fuel]
    bounds the number of rounds. *)
Fixpoint polling (fuel : nat) (w : World) (batch_id : Z) (batch_size : nat)
    (start_ts : Z) (try_num : Z) : option (option bool * World) :=
  match fuel with
  | O => None
  | S fuel' =>
      if decide (try_num < 3) then
        let now := fst (getCurrentTimeInNano (env w)) in
        let w0 := mkWorld (snd (getCurrentTimeInNano (env w))) (calls w) in
        if decide (now - start_ts > 60 * kOneSecondInNano)
        then Some (None, w0)
        else
          match status_round w0 batch_id 0 batch_size false true with
          | (None, w1) => Some (None, w1)
          | (Some (has_err, all_ready), w1) =>
              let try_num' := if has_err then try_num + 1 else try_num in
              let w2 :=
                if has_err then mkWorld (sleep_for (env w1) 10) (calls w1)
                else w1 in
              if all_ready then Some (Some true, w2)
              else polling fuel' w2 batch_id batch_size start_ts try_num'
          end
      else Some (Some false, w)
  end.

(** [TransferData(handles, slices, op_code)]; [None] when [fuel] rounds of
    polling do not end it. *)
Definition TransferData (fuel : nat) (w : World) (handles : list BufHandle)
    (slices : list Slice) (op_code : OpCode) : option (ErrorCode * World) :=
  if decide (length slices < length handles)%nat then Some (TRANSFER_FAIL, w)
  else
    match transfer_tasks w handles slices op_code with
    | (None, w1) => Some (TRANSFER_FAIL, w1)
    | (Some tasks, w1) =>
        let batch_size := length tasks in
        let '(batch_id, w2) :=
          logged w1 (CallAllocateBatchID (Z.of_nat batch_size))
                 (allocateBatchID (env w1) (Z.of_nat batch_size)) in
        if decide (batch_id = INVALID_BATCH_ID) then Some (TRANSFER_FAIL, w2)
        else
          let '(error_code, w3) :=
            logged w2 (CallSubmitTransfer batch_id tasks)
                   (submitTransfer (env w2) batch_id tasks) in
          if decide (error_code <> 0)
          then Some (TRANSFER_FAIL,
                     mkWorld (freeBatchID (env w3) batch_id)
                             (calls w3 ++ [CallFreeBatchID batch_id]))
          else
            let start_ts := fst (getCurrentTimeInNano (env w3)) in
            let w4 :=
              mkWorld (snd (getCurrentTimeInNano (env w3))) (calls w3) in
            match polling fuel w4 batch_id batch_size start_ts 0 with
            | None => None
            | Some (None, w5) => Some (TRANSFER_FAIL, w5)
            | Some (Some false, w5) => Some (TRANSFER_FAIL, w5)
            | Some (Some true, w5) =>
                Some (OK,
                      mkWorld (freeBatchID (env w5) batch_id)
                              (calls w5 ++ [CallFreeBatchID batch_id]))
            end
    end.

(** [TransferWrite] *)
Definition TransferWrite (fuel : nat) (w : World) (handles : list BufHandle)
    (slices : list Slice) : option (ErrorCode * World) :=
  TransferData fuel w handles slices WRITE.

(** [TransferRead] *)
Definition TransferRead (fuel : nat) (w : World) (handles : list BufHandle)
    (slices : list Slice) : option (ErrorCode * World) :=
  let total_size :=
    fold_left (fun total_size handle => u64 (total_size + buf_size handle))
              handles 0 in
  let slices_size := CalculateSliceSize slices in
  if decide (slices_size < total_size) then Some (INVALID_PARAMS, w)
  else TransferData fuel w handles slices READ.

(** [Query(object_key, object_info)]; the [object_info] returned is the
    replica list of the response. *)
Definition Query (w : World) (object_key : string)
    : ErrorCode * list ReplicaInfo * World :=
  let '(reply, w1) :=
    logged w (CallGetReplicaList object_key)
           (stub_GetReplicaList (env w) object_key) in
  let '(err, object_info) := RPC_CALL_OR_RETURN reply [] in
  if decide (err <> OK) then (err, object_info, w1)
  else if decide (object_info = []) then (OBJECT_NOT_FOUND, object_info, w1)
  else (OK, object_info, w1).

(** [Get(object_key, object_info, slices)] *)
Definition Get_object_info (fuel : nat) (w : World)
    (object_info : list ReplicaInfo) (slices : list Slice)
    : option (ErrorCode * World) :=
  match List.find (fun replica =>
                     bool_decide (replica_status replica = COMPLETE))
                  object_info with
  | Some replica =>
      if forallb (fun handle => bool_decide (buf_status handle = BUF_COMPLETE))
                 (replica_handles replica)
      then TransferRead fuel w (replica_handles replica) slices
      else Some (INVALID_PARAMS, w)
  | None => Some (INVALID_REPLICA, w)
  end.

(** [Get(object_key, slices)] *)
Definition Get (fuel : nat) (w : World) (object_key : string)
    (slices : list Slice) : option (ErrorCode * World) :=
  let '(err, object_info, w1) := Query w object_key in
  if decide (err <> OK) then Some (err, w1)
  else Get_object_info fuel w1 object_info slices.

(** The loop of [Put] over the replicas of the response. *)
Fixpoint Put_transfers (fuel : nat) (w : World) (key : string)
    (replica_list : list ReplicaInfo) (slices : list Slice)
    : option (ErrorCode * World) :=
  match replica_list with
  | [] => Some (OK, w)
  | replica :: rest =>
      match TransferWrite fuel w (replica_handles replica) slices with
      | None => None
      | Some (transfer_err, w1) =>
          if decide (transfer_err <> OK) then
            let '(reply, w2) :=
              logged w1 (CallPutRevoke key) (stub_PutRevoke (env w1) key) in
            let err := fst (RPC_CALL_OR_RETURN
                              (option_map (fun c => (c, tt)) reply) tt) in
            if decide (err <> OK) then Some (err, w2)
            else Some (transfer_err, w2)
          else Put_transfers fuel w1 key rest slices
      end
  end.

(** [Put(key, slices, config)] *)
Definition Put (fuel : nat) (w : World) (key : string) (slices : list Slice)
    (config : ReplicateConfig) : option (ErrorCode * World) :=
  let slice_lengths := map size slices in
  let slice_size :=
    fold_left (fun slice_size slice => u64 (slice_size + size slice))
              slices 0 in
  let '(reply, w1) :=
    logged w (CallPutStart key slice_size slice_lengths (replica_num config))
           (stub_PutStart (env w) key slice_size slice_lengths
                          (replica_num config)) in
  let '(err, replica_list) := RPC_CALL_OR_RETURN reply [] in
  if decide (err <> OK)
  then Some (if decide (err = OBJECT_ALREADY_EXISTS) then OK else err, w1)
  else
    match Put_transfers fuel w1 key replica_list slices with
    | None => None
    | Some (err, w2) =>
        if decide (err <> OK) then Some (err, w2)
        else
          let '(reply, w3) :=
            logged w2 (CallPutEnd key) (stub_PutEnd (env w2) key) in
          let err := fst (RPC_CALL_OR_RETURN
                            (option_map (fun c => (c, tt)) reply) tt) in
          Some (err, w3)
    end.

(** [IsExist] *)
Definition IsExist (w : World) (key : string) : ErrorCode * World :=
  let '(err, _, w1) := Query w key in (err, w1).

End Client.

End Client.

(** ** The keys of the benchmarks *)

(** The character of a digit. *)
Definition digit (d : Z) : Ascii.ascii := Ascii.ascii_of_nat (48 + Z.to_nat d).

(** [ss << std::setw(width) << std::setfill('0') << index] for an [index]
    that is not negative and has no more than [width] digits, as an [int]
    has for [width = 10]: the decimal digits, with zeros in front. *)
Fixpoint setw_setfill_0 (width : nat) (index : Z) : list Ascii.ascii :=
  match width with
  | O => []
  | S width' => setw_setfill_0 width' (index / 10) ++ [digit (index mod 10)]
  end.

(** [Benchmark::GenerateKey(index)] *)
Definition GenerateKey (index : Z) : string :=
  String.app "bench_key_" (String.string_of_list_ascii (setw_setfill_0 10 index)).

(** [Benchmark::PrefillData] and [Benchmark::DecodeData] work with any
    [KVEngine] and with a message queue in Redis: the engine and the queue
    are states [E] and [Q] with the operations the loops call. *)
Module Benchmark.

(** What [PrefillData] and [DecodeData] have done: the calls of the engine
    with their results, oldest first, and what they added to
    [completed]. *)
Record Progress (E Q : Type) : Type := mkProgress {
  engine : E;
  message_queue : Q;
  engine_calls : list (string * bool);
  completed : Z
}.

Arguments mkProgress {E Q} _ _ _ _.
Arguments engine {E Q} _.
Arguments message_queue {E Q} _.
Arguments engine_calls {E Q} _.
Arguments completed {E Q} _.

Section Workers.

Context {E Q : Type}.

(** [engine->Put(key, value)] for the value of the run *)
Variable engine_Put : E -> string -> bool * E.

(** [engine->Get(key, &value)]: whether it succeeds and the size of the
    value *)
Variable engine_Get : E -> string -> bool * Z * E.

(** [PushToQueue(key, message_queue)] and [PopFromQueue(&key,
    message_queue)] *)
Variable PushToQueue : Q -> string -> bool * Q.
Variable PopFromQueue : Q -> option string * Q.

(** Whether [assert] is compiled in. *)
Variable asserts : bool.

Variable value_size_bytes : Z.

(** The loop [for (int i = start_idx; i < end_idx; ++i)] of [PrefillData],
    [n] iterations from [i] on. *)
Fixpoint PrefillData_loop (n : nat) (i : Z) (p : Progress E Q)
    : Outcome (Progress E Q) :=
  match n with
  | O => Returned p
  | S n' =>
      let key := GenerateKey i in
      let '(success, engine') := engine_Put (engine p) key in
      if asserts && negb success then AssertionFailed
      else
        let calls := engine_calls p ++ [(key, success)] in
        if success then
          let '(_, queue') := PushToQueue (message_queue p) key in
          PrefillData_loop n' (i + 1)
            (mkProgress engine' queue' calls (completed p + 1))
        else
          PrefillData_loop n' (i + 1)
            (mkProgress engine' (message_queue p) calls (completed p))
  end.

(** [PrefillData(thread_id, start_idx, end_idx, ...)] *)
Definition PrefillData (start_idx end_idx : Z) (p : Progress E Q)
    : Outcome (Progress E Q) :=
  PrefillData_loop (Z.to_nat (end_idx - start_idx)) start_idx p.

(** The loop of [DecodeData], [n] iterations. *)
Fixpoint DecodeData_loop (n : nat) (p : Progress E Q) : Progress E Q :=
  match n with
  | O => p
  | S n' =>
      match PopFromQueue (message_queue p) with
      | (None, queue') =>
          DecodeData_loop n'
            (mkProgress (engine p) queue' (engine_calls p) (completed p))
      | (Some key, queue') =>
          let '(success, size_of_value, engine') :=
            engine_Get (engine p) key in
          let calls := engine_calls p ++ [(key, success)] in
          if decide (size_of_value <> value_size_bytes) then
            DecodeData_loop n' (mkProgress engine' queue' calls (completed p))
          else if success then
            DecodeData_loop n'
              (mkProgress engine' queue' calls (completed p + 1))
          else
            DecodeData_loop n' (mkProgress engine' queue' calls (completed p))
      end
  end.

(** [DecodeData(thread_id, start_idx, end_idx, ...)], up to the completion
    message. *)
Definition DecodeData (start_idx end_idx : Z) (p : Progress E Q)
    : Progress E Q :=
  DecodeData_loop (Z.to_nat (end_idx - start_idx)) p.

End Workers.

End Benchmark.

(** ** The batch benchmark *)

Module BatchBenchmark.

(** [BatchOperationResult]; the latency is a value of a type [L] of its
    own, which the counts do not look into. *)
Record BatchOperationResult (L : Type) : Type := mkResult {
  latency_us : L;
  is_put : bool;
  success : bool;
  batch_size : Z
}.

Arguments mkResult {L} _ _ _ _.
Arguments latency_us {L} _.
Arguments is_put {L} _.
Arguments success {L} _.
Arguments batch_size {L} _.

(** What [print_results] gathers before it prints. *)
Record Aggregate (L : Type) : Type := mkAggregate {
  total_batches : Z;
  successful_batches : Z;
  total_put_batches : Z;
  total_get_batches : Z;
  total_keys_processed : Z;
  all_latencies : list L;
  put_latencies : list L;
  get_latencies : list L
}.

Arguments mkAggregate {L} _ _ _ _ _ _ _ _.
Arguments total_batches {L} _.
Arguments successful_batches {L} _.
Arguments total_put_batches {L} _.
Arguments total_get_batches {L} _.
Arguments total_keys_processed {L} _.
Arguments all_latencies {L} _.
Arguments put_latencies {L} _.
Arguments get_latencies {L} _.

Section Run.

Context {L : Type}.

(** [std::to_string] of an [int] *)
Variable to_string : Z -> string.

(** ["batch_" + std::to_string(batch_idx) + "_key_" +
    std::to_string(key_idx)] *)
Definition key_name (batch_idx key_idx : Z) : string :=
  String.app "batch_"
    (String.app (to_string batch_idx)
       (String.app "_key_" (to_string key_idx))).

(** The vector [all_keys] after the two loops that fill it. *)
Definition all_keys (num_batches batch_size : Z) : list string :=
  concat (map (fun batch_idx =>
                 map (key_name batch_idx) (seqZ 0 batch_size))
              (seqZ 0 num_batches)).

(** The vector [batch_keys] of batch [batch_idx], in both phases: key
    [key_idx] is [all_keys[batch_idx * FLAGS_batch_size + key_idx]];
    [None] if an index is outside the vector. *)
Definition batch_keys (keys : list string) (batch_size batch_idx : Z)
    : option (list string) :=
  mapM (fun key_idx => keys !! Z.to_nat (batch_idx * batch_size + key_idx))
       (seqZ 0 batch_size).

(** The vector [results] after [run_batch_benchmark]: [put batch_idx] and
    [get batch_idx] give the latency measured for the batch and whether
    every result of the batch has a value. *)
Definition run_batch_benchmark (put get : Z -> L * bool)
    (num_batches batch_size : Z) : list (BatchOperationResult L) :=
  map (fun batch_idx =>
         mkResult (fst (put batch_idx)) true (snd (put batch_idx)) batch_size)
      (seqZ 0 num_batches) ++
  map (fun batch_idx =>
         mkResult (fst (get batch_idx)) false (snd (get batch_idx))
                  batch_size)
      (seqZ 0 num_batches).

(** The body of [for (const auto& result : results)] in [print_results];
    the counters are [uint64_t]. *)
Definition aggregate_step (a : Aggregate L) (result : BatchOperationResult L)
    : Aggregate L :=
  let total_batches := u64 (total_batches a + 1) in
  let total_keys_processed :=
    u64 (total_keys_processed a + batch_size result) in
  if success result then
    let successful_batches := u64 (successful_batches a + 1) in
    let all_latencies := all_latencies a ++ [latency_us result] in
    if is_put result then
      mkAggregate total_batches successful_batches
        (u64 (total_put_batches a + 1)) (total_get_batches a)
        total_keys_processed all_latencies
        (put_latencies a ++ [latency_us result]) (get_latencies a)
    else
      mkAggregate total_batches successful_batches
        (total_put_batches a) (u64 (total_get_batches a + 1))
        total_keys_processed all_latencies
        (put_latencies a) (get_latencies a ++ [latency_us result])
  else
    mkAggregate total_batches (successful_batches a) (total_put_batches a)
      (total_get_batches a) total_keys_processed (all_latencies a)
      (put_latencies a) (get_latencies a).

(** [print_results], up to the percentiles. *)
Definition aggregate (results : list (BatchOperationResult L))
    : Aggregate L :=
  fold_left aggregate_step results (mkAggregate 0 0 0 0 0 [] [] []).

End Run.

End BatchBenchmark.

(** ** Sample states *)

(** An engine after [Init]: an empty store, a client buffer of 16 bytes at
    address 4096, nothing called yet. *)
Definition sample_world : World Bump :=
  mkWorld (Some ∅) (mkBump 4096 4112) (fun _ => x00) [].

(** The same with a client buffer of 5 bytes at address 0. *)
Definition small_world : World Bump :=
  mkWorld (Some ∅) (mkBump 0 5) (fun _ => x00) [].

(** An engine before [Init]. *)
Definition fresh_world : World Bump :=
  mkWorld None (mkBump 0 0) (fun _ => x00) [].

Definition sample_value : list byte := [x6d; x6f; x6f; x6e; x63; x61].

(** A master with two shards, the keys sharded by their length.  A handle
    is a number, a negative one standing for a handle whose segment has
    gone; completing a handle leaves its number. *)
Definition sample_invalid (handle : Z) : bool := bool_decide (handle < 0).

Definition sample_getShardIndex (key : string) : nat :=
  (String.length key mod 2)%nat.

Definition sample_master : MasterService.State (AllocatedBuffer := Z) :=
  MasterService.mkState [∅; ∅] false [].

(** An allocation strategy that grants every handle. *)
Definition sample_Allocate (i j : nat) (chunk_size : Z) : option Z :=
  Some (Z.of_nat (10 * i + j)).

(** The sample master with an object "k" whose only replica has lost its
    segment. *)
Definition stale_master : MasterService.State (AllocatedBuffer := Z) :=
  MasterService.store_key sample_getShardIndex sample_master "k"
    (MasterService.mkObjectMetadata
       [MasterService.mkReplica [-1] COMPLETE] 6 (mkLease 10)).

(** The sample master with a complete object "k" of one replica. *)
Definition complete_master : MasterService.State (AllocatedBuffer := Z) :=
  MasterService.store_key sample_getShardIndex sample_master "k"
    (MasterService.mkObjectMetadata
       [MasterService.mkReplica [0; 1] COMPLETE] 6 (mkLease 10)).

(** The sample master with a second complete object, "kk", in the other
    shard. *)
Definition full_master : MasterService.State (AllocatedBuffer := Z) :=
  MasterService.store_key sample_getShardIndex complete_master "kk"
    (MasterService.mkObjectMetadata
       [MasterService.mkReplica [2] COMPLETE] 3 (mkLease 10)).

(** A client whose master grants every [PutStart] with one replica, a
    handle per slice, except for the key "dup", which it holds already;
    whose [GetReplicaList] gives a failed replica before a complete one of
    two handles; and whose engine completes every task at once, the
    clock standing still. *)
Definition sample_stub_PutStart (e : Z) (key : string) (value_length : Z)
    (slice_lengths : list Z) (replica_num : Z)
    : option (Client.ErrorCode * list Client.ReplicaInfo) * Z :=
  (if String.eqb key "dup" then Some (Client.OBJECT_ALREADY_EXISTS, [])
   else Some (Client.OK,
              [Client.mkReplicaInfo
                 (map (fun l => Client.mkBufHandle "segment" 0 l
                                  Client.BUF_INIT) slice_lengths)
                 PROCESSING]),
   e).

Definition sample_stub_GetReplicaList (e : Z) (key : string)
    : option (Client.ErrorCode * list Client.ReplicaInfo) * Z :=
  (Some (Client.OK,
         [Client.mkReplicaInfo [] FAILED;
          Client.mkReplicaInfo
            [Client.mkBufHandle "segment" 0 4 Client.BUF_COMPLETE;
             Client.mkBufHandle "segment" 4 2 Client.BUF_COMPLETE]
            COMPLETE]),
   e).

Definition sample_stub_PutEnd (e : Z) (key : string)
    : option Client.ErrorCode * Z :=
  (Some Client.OK, e).

Definition sample_openSegment (e : Z) (name : string) : Z * Z := (1, e).

Definition sample_allocateBatchID (e : Z) (batch_size : Z) : Z * Z := (7, e).

Definition sample_submitTransfer (e : Z) (batch_id : Z)
    (tasks : list Client.TransferRequest) : Z * Z :=
  (0, e).

Definition sample_getTransferStatus (e : Z) (batch_id : Z) (task : nat)
    : Z * Client.TransferStatusEnum * Z :=
  (0, Client.COMPLETED, e).

(** An engine whose tasks all fail. *)
Definition failing_getTransferStatus (e : Z) (batch_id : Z) (task : nat)
    : Z * Client.TransferStatusEnum * Z :=
  (0, Client.TRANSFER_FAILED, e).

Definition sample_freeBatchID (e : Z) (batch_id : Z) : Z := e.

Definition sample_getCurrentTimeInNano (e : Z) : Z * Z := (0, e).

Definition sample_sleep_for (e : Z) (ms : Z) : Z := e.

Definition sample_client : Client.World (Env := Z) := Client.mkWorld 0 [].

Definition sample_slices : list Slice := [mkSlice 4096 4; mkSlice 4100 2].

(** The sample engine after [put] of the sample value under "k", with only
    five bytes of client buffer left for a [Get]. *)
Definition cramped_world : World Bump :=
  match put 4 sample_world "k" sample_value with
  | Some (_, w) => mkWorld (client_ w) (mkBump 0 5) (heap w) []
  | None => small_world
  end.

(** An engine that accepts every [Put], and a queue held as a list. *)
Definition sample_engine_Put (e : unit) (key : string) : bool * unit :=
  (true, e).

Definition sample_PushToQueue (q : list string) (key : string)
    : bool * list string :=
  (true, q ++ [key]).

Definition sample_progress : Benchmark.Progress unit (list string) :=
  Benchmark.mkProgress tt [] [] 0.

(** [std::to_string] on the numbers 0 to 9. *)
Definition sample_to_string (z : Z) : string :=
  String (digit z) EmptyString.

(** * Properties *)

(** ** Machine integers *)

Lemma u64_small (x : Z) : 0 <= x < u64_modulus -> u64 x = x.
Proof. intros Hx. unfold u64. apply Z.mod_small. exact Hx. Qed.

Lemma static_cast_int_small (u : Z) :
  0 <= u <= INT_MAX -> static_cast_int u = u.
Proof.
  unfold static_cast_int, INT_MAX. intros Hu.
  rewrite Z.mod_small by lia.
  destruct (Z.leb_spec u (2 ^ 31 - 1)); lia.
Qed.

(** ** The master's entry point *)

Lemma handlers_main (p t hw : Z) :
  handlers (main p t hw) =
  map Scalar [Rpc.ExistKey; Rpc.GetReplicaList; Rpc.PutStart; Rpc.PutEnd;
              Rpc.PutRevoke; Rpc.Remove; Rpc.RemoveAll; Rpc.MountSegment;
              Rpc.UnmountSegment].
Proof. reflexivity. Qed.

(** C5, as stated, fails: [Ping] belongs to the request surface of the
    specification and [main] registers no handler for it. *)
Lemma main_misses_surface_operation :
  ~ (forall op, In op request_surface ->
                In op (handlers (main 50051 4 8))).
Proof.
  intros Hall.
  assert (Hin : In (Scalar Rpc.Ping) request_surface).
  { unfold request_surface, request_surface_scalar. simpl. tauto. }
  specialize (Hall _ Hin). rewrite handlers_main in Hall. simpl in Hall.
  intuition discriminate.
Qed.

(** C5, amended: whatever the flags, [main] registers one handler for each
    of [ExistKey], [GetReplicaList], [PutStart], [PutEnd], [PutRevoke],
    [Remove], [RemoveAll], [MountSegment] and [UnmountSegment] (these nine
    and no other, none twice, each an operation of the request surface),
    and none for [ReMountSegment], [Ping] or a batch form. *)
Theorem main_registered_handlers (p t hw : Z) (op : Operation) :
  (In op (handlers (main p t hw)) <->
   exists o, op = Scalar o /\
             In o [Rpc.ExistKey; Rpc.GetReplicaList; Rpc.PutStart;
                   Rpc.PutEnd; Rpc.PutRevoke; Rpc.Remove; Rpc.RemoveAll;
                   Rpc.MountSegment; Rpc.UnmountSegment]) /\
  NoDup (handlers (main p t hw)) /\
  (In op (handlers (main p t hw)) -> In op request_surface) /\
  ~ In (Scalar Rpc.ReMountSegment) (handlers (main p t hw)) /\
  ~ In (Scalar Rpc.Ping) (handlers (main p t hw)) /\
  (forall o, ~ In (Batch o) (handlers (main p t hw))).
Proof.
  rewrite handlers_main. repeat split.
  - rewrite in_map_iff. intros (o & <- & Ho). eauto.
  - intros (o & -> & Ho). apply in_map. exact Ho.
  - apply (bool_decide_unpack _). vm_compute. exact I.
  - unfold request_surface, request_surface_scalar. simpl.
    intuition (subst; tauto).
  - simpl. intuition discriminate.
  - simpl. intuition discriminate.
  - intros o. simpl. intuition discriminate.
Qed.

(** C6: the server is constructed with
    [std::min(FLAGS_max_threads, static_cast<int>(hardware_concurrency()))]
    threads and with [FLAGS_port]; the cast keeps every value up to
    [INT_MAX], so that this is [min(max_threads, hardware_concurrency)]. *)
Theorem main_thread_pool (FLAGS_port FLAGS_max_threads hw : Z) :
  0 <= hw <= INT_MAX ->
  thread_num (main FLAGS_port FLAGS_max_threads hw) =
    Z.min FLAGS_max_threads (static_cast_int hw) /\
  thread_num (main FLAGS_port FLAGS_max_threads hw) =
    Z.min FLAGS_max_threads hw /\
  port (main FLAGS_port FLAGS_max_threads hw) = FLAGS_port.
Proof.
  intros Hhw. split; [reflexivity |]. split; [| reflexivity].
  change (Z.min FLAGS_max_threads (static_cast_int hw) =
          Z.min FLAGS_max_threads hw).
  rewrite static_cast_int_small by exact Hhw. reflexivity.
Qed.

Lemma main_thread_pool_witness :
  thread_num (main 50051 4 16) = 4 /\ port (main 50051 4 16) = 50051.
Proof.
  apply (proj2 (main_thread_pool 50051 4 16 ltac:(unfold INT_MAX; lia))).
Defined.

(** ** Leases *)

(** C7: [GrantLease(ttl)] sets [lease_timeout] to
    [max(lease_timeout, now + ttl)], and over two successive calls, at any
    two readings of the clock and with any two durations, [lease_timeout]
    does not decrease. *)
Theorem GrantLease_monotone (l : Lease) (now ttl now' ttl' : Z) :
  lease_timeout (GrantLease now ttl l) =
    Z.max (lease_timeout l) (now + ttl) /\
  lease_timeout l <= lease_timeout (GrantLease now ttl l) /\
  lease_timeout (GrantLease now ttl l) <=
    lease_timeout (GrantLease now' ttl' (GrantLease now ttl l)).
Proof. unfold GrantLease. simpl. lia. Qed.

(** ** [Benchmark::Run] *)

Lemma Run_ranges_length (n t : Z) :
  length (Run_ranges n t) = Z.to_nat t.
Proof. unfold Run_ranges. rewrite length_map, length_seqZ. reflexivity. Qed.

Lemma Run_ranges_lookup (n t i : Z) :
  0 <= i < t ->
  Run_ranges n t !! Z.to_nat i = Some (thread_range n t i).
Proof.
  intros Hi. unfold Run_ranges.
  change (map (thread_range n t) (seqZ 0 t))
    with (thread_range n t <$> seqZ 0 t).
  rewrite list_lookup_fmap, lookup_seqZ_lt by lia.
  simpl. f_equal. f_equal. lia.
Qed.

Lemma thread_range_inner (n t i : Z) :
  i <> t - 1 ->
  thread_range n t i = (i * Z.quot n t, i * Z.quot n t + Z.quot n t).
Proof.
  intros Hi. unfold thread_range.
  destruct (decide (i = t - 1)); [lia | reflexivity].
Qed.

Lemma thread_range_last (n t : Z) :
  thread_range n t (t - 1) =
  ((t - 1) * Z.quot n t, (t - 1) * Z.quot n t + Z.quot n t + Z.rem n t).
Proof.
  unfold thread_range. destruct (decide (t - 1 = t - 1)); [reflexivity | lia].
Qed.

Lemma sum_range_lengths_app (rs rs' : list (Z * Z)) :
  sum_range_lengths (rs ++ rs') = sum_range_lengths rs + sum_range_lengths rs'.
Proof. induction rs as [| r rs IH]; simpl; [reflexivity | rewrite IH; lia]. Qed.

(** The first [k] workers, none of them the last, take [k] full shares. *)
Lemma sum_range_lengths_inner (n t : Z) (k : nat) :
  Z.of_nat k <= t - 1 ->
  sum_range_lengths (map (thread_range n t) (seqZ 0 (Z.of_nat k))) =
  Z.of_nat k * Z.quot n t.
Proof.
  induction k as [| k IH]; intros Hk; [reflexivity |].
  replace (Z.of_nat (S k)) with (Z.of_nat k + 1) by lia.
  rewrite seqZ_app by lia. rewrite map_app, sum_range_lengths_app.
  rewrite IH by lia. simpl.
  rewrite thread_range_inner by lia. unfold range_length. simpl. lia.
Qed.

Lemma Run_ranges_sum (n t : Z) :
  1 <= t -> sum_range_lengths (Run_ranges n t) = n.
Proof.
  intros Ht. unfold Run_ranges.
  replace t with (Z.of_nat (Z.to_nat (t - 1)) + 1) at 2 by lia.
  rewrite seqZ_app by lia. rewrite map_app, sum_range_lengths_app.
  rewrite sum_range_lengths_inner by lia. simpl.
  replace (0 + Z.of_nat (Z.to_nat (t - 1))) with (t - 1) by lia.
  rewrite thread_range_last. unfold range_length. simpl.
  rewrite Z2Nat.id by lia.
  pose proof (Z.quot_rem' n t). lia.
Qed.

(** C9: for [num_threads >= 1] and [num_operations >= 0], with
    [q = num_operations / num_threads] and
    [r = num_operations mod num_threads], [Run] launches [num_threads]
    workers; worker [i] receives [[i*q, (i+1)*q)], the last one
    [[i*q, (i+1)*q + r)]; the ranges lie in [[0, num_operations]], each ends
    where the next one starts, the first starts at 0 and the last ends at
    [num_operations], two distinct ranges share no index, and the lengths
    add up to [num_operations]. *)
Theorem Run_partitions_operations (num_operations num_threads : Z) :
  1 <= num_threads -> 0 <= num_operations ->
  let q := num_operations / num_threads in
  let r := num_operations mod num_threads in
  let ranges := Run_ranges num_operations num_threads in
  length ranges = Z.to_nat num_threads /\
  (forall i, 0 <= i < num_threads ->
     ranges !! Z.to_nat i =
       Some (i * q,
             (i + 1) * q + (if decide (i = num_threads - 1) then r else 0)) /\
     0 <= i * q <=
       (i + 1) * q + (if decide (i = num_threads - 1) then r else 0) /\
     (i + 1) * q + (if decide (i = num_threads - 1) then r else 0)
       <= num_operations) /\
  (forall i s e s' e', 0 <= i < num_threads - 1 ->
     ranges !! Z.to_nat i = Some (s, e) ->
     ranges !! Z.to_nat (i + 1) = Some (s', e') -> e = s') /\
  (exists e, ranges !! 0%nat = Some (0, e)) /\
  (exists s, ranges !! Z.to_nat (num_threads - 1) = Some (s, num_operations)) /\
  (forall i j s e s' e' x, 0 <= i < j -> j < num_threads ->
     ranges !! Z.to_nat i = Some (s, e) ->
     ranges !! Z.to_nat j = Some (s', e') ->
     ~ (s <= x < e /\ s' <= x < e')) /\
  sum_range_lengths ranges = num_operations.
Proof.
  intros Ht Hn q r ranges.
  assert (Hq : Z.quot num_operations num_threads = q)
    by (apply Z.quot_div_nonneg; lia).
  assert (Hr : Z.rem num_operations num_threads = r)
    by (apply Z.rem_mod_nonneg; lia).
  assert (Hdiv : num_operations = num_threads * q + r)
    by (apply Z.div_mod; lia).
  assert (Hrb : 0 <= r < num_threads) by (apply Z.mod_pos_bound; lia).
  assert (Hq0 : 0 <= q) by (apply Z.div_pos; lia).
  assert (Hlook : forall i, 0 <= i < num_threads ->
            ranges !! Z.to_nat i =
            Some (i * q, (i + 1) * q +
                         (if decide (i = num_threads - 1) then r else 0))).
  { intros i Hi. unfold ranges. rewrite Run_ranges_lookup by lia.
    unfold thread_range. cbv zeta. rewrite Hq, Hr.
    destruct (decide (i = num_threads - 1)); f_equal; f_equal; lia. }
  split; [apply Run_ranges_length |].
  split.
  { intros i Hi. split; [apply Hlook; lia |].
    destruct (decide (i = num_threads - 1)); split; nia. }
  split.
  { intros i s e s' e' Hi Hs Hs'.
    rewrite Hlook in Hs by lia. rewrite Hlook in Hs' by lia.
    destruct (decide (i = num_threads - 1)); [lia |].
    destruct (decide (i + 1 = num_threads - 1));
      injection Hs as Hs He; injection Hs' as Hs' He'; lia. }
  split.
  { specialize (Hlook 0 ltac:(lia)). simpl in Hlook. eauto. }
  split.
  { specialize (Hlook (num_threads - 1) ltac:(lia)).
    destruct (decide (num_threads - 1 = num_threads - 1)); [| lia].
    eexists. rewrite Hlook. do 2 f_equal. lia. }
  split.
  { intros i j s e s' e' x Hij Hj Hs Hs'.
    rewrite Hlook in Hs by lia. rewrite Hlook in Hs' by lia.
    destruct (decide (i = num_threads - 1)); [lia |].
    destruct (decide (j = num_threads - 1));
      injection Hs as Hs He; injection Hs' as Hs' He'; nia. }
  apply Run_ranges_sum. exact Ht.
Qed.

Lemma Run_partitions_operations_witness :
  Run_ranges 10 3 = [(0, 3); (3, 6); (6, 10)] /\
  sum_range_lengths (Run_ranges 10 3) = 10.
Proof.
  split; [reflexivity |].
  apply (Run_partitions_operations 10 3); lia.
Defined.

(** ** Client memory *)

Lemma length_read_bytes (h : Heap) (p n : Z) :
  length (read_bytes h p n) = Z.to_nat n.
Proof. unfold read_bytes. rewrite length_map, length_seq. reflexivity. Qed.

Lemma size_of_read_bytes (h : Heap) (p n : Z) :
  0 <= n -> size_of (read_bytes h p n) = n.
Proof. intros Hn. unfold size_of. rewrite length_read_bytes. lia. Qed.

Lemma read_bytes_ext (h h' : Heap) (p n : Z) :
  (forall x, p <= x < p + n -> h' x = h x) ->
  read_bytes h' p n = read_bytes h p n.
Proof.
  intros Hext. unfold read_bytes. apply map_ext_in.
  intros i Hi. apply in_seq in Hi. apply Hext. lia.
Qed.

(** Reading back what [memcpy] has just written. *)
Lemma read_bytes_memcpy_same (h : Heap) (p : Z) (bs : list byte) :
  read_bytes (memcpy h p bs) p (size_of bs) = bs.
Proof.
  apply list_eq. intros i. unfold read_bytes, size_of.
  change (map ?f ?l) with (f <$> l).
  rewrite list_lookup_fmap, Nat2Z.id.
  destruct (decide (i < length bs)%nat) as [Hi | Hi].
  - rewrite lookup_seq_lt by exact Hi. simpl. unfold memcpy, size_of.
    destruct (decide _) as [_ | Hout]; [| lia].
    replace (Z.to_nat (p + Z.of_nat i - p)) with i by lia.
    rewrite nth_lookup.
    destruct (lookup_lt_is_Some_2 bs i Hi) as [b Hb]. rewrite Hb. reflexivity.
  - rewrite lookup_seq_ge by lia. simpl.
    symmetry. apply lookup_ge_None. lia.
Qed.

(** [memcpy] leaves the bytes outside its destination alone. *)
Lemma read_bytes_memcpy_disjoint (h : Heap) (p : Z) (bs : list byte) (q n : Z) :
  (forall x, q <= x < q + n -> ~ (p <= x < p + size_of bs)) ->
  read_bytes (memcpy h p bs) q n = read_bytes h q n.
Proof.
  intros Hdis. apply read_bytes_ext. intros x Hx. unfold memcpy.
  destruct (decide _) as [Hin | _]; [| reflexivity].
  exfalso. exact (Hdis x Hx Hin).
Qed.

Lemma sum_sizes_app (l l' : list Slice) :
  sum_sizes (l ++ l') = sum_sizes l + sum_sizes l'.
Proof. induction l as [| s l IH]; simpl; [reflexivity | rewrite IH; lia]. Qed.

Lemma sum_lengths_sizes (l : list Slice) :
  sum_lengths (map size l) = sum_sizes l.
Proof. induction l as [| s l IH]; simpl; [reflexivity | rewrite IH; lia]. Qed.

(** Appending slice after slice builds the concatenation. *)
Lemma fold_left_append (h : Heap) (slices : list Slice) (acc : list byte) :
  fold_left (fun result slice => result ++ slice_bytes h slice) slices acc =
  acc ++ concat (map (slice_bytes h) slices).
Proof.
  revert acc. induction slices as [| s slices IH]; intros acc; simpl.
  - rewrite app_nil_r. reflexivity.
  - rewrite IH, <- app_assoc. reflexivity.
Qed.

Lemma exportSlices_concat (h : Heap) (slices : list Slice) (len : Z) :
  exportSlices h slices len = concat (map (slice_bytes h) slices).
Proof. unfold exportSlices. apply fold_left_append. Qed.

(** ** [MooncakeEngine::allocateSlices(slices, value)] *)

Section EngineProperties.

Context {A : Type} `{!BufferAllocator A}.
Variable kMaxSliceSize : Z.

Lemma do_allocate_spec (w : World A) (n : Z) (r : option Z) (w1 : World A) :
  do_allocate w n = (r, w1) ->
  allocate (client_buffer_allocator_ w) n =
    (r, client_buffer_allocator_ w1) /\
  client_ w1 = client_ w /\ heap w1 = heap w /\
  trace w1 = trace w ++ [EvAllocate n r].
Proof.
  unfold do_allocate. destruct (allocate _ n) as [r' a'].
  intros [= <- <-]. simpl. auto.
Qed.

Lemma freeSlices_spec (slices : list Slice) (w : World A) :
  client_ (freeSlices w slices) = client_ w /\
  heap (freeSlices w slices) = heap w /\
  trace (freeSlices w slices) = trace w ++ map dealloc_event slices /\
  client_buffer_allocator_ (freeSlices w slices) =
    fold_left (fun a s => deallocate a (ptr s) (size s)) slices
              (client_buffer_allocator_ w).
Proof.
  unfold freeSlices. revert w.
  induction slices as [| s slices IH]; intros w; simpl.
  - rewrite app_nil_r. auto.
  - destruct (IH (do_deallocate w s)) as (Hc & Hh & Ht & Ha).
    rewrite Hc, Hh, Ht, Ha. simpl. rewrite <- app_assoc. auto.
Qed.

(** The chunk taken at [offset]: [std::min(value.size() - offset,
    kMaxSliceSize)] is positive, stays inside the value, and neither the
    difference nor the new offset wraps. *)
Lemma chunk_size_bounds (value : list byte) (offset : Z) :
  0 < kMaxSliceSize -> size_of value < u64_modulus ->
  0 <= offset < size_of value ->
  let chunk_size := Z.min (u64 (size_of value - offset)) kMaxSliceSize in
  0 < chunk_size <= kMaxSliceSize /\
  chunk_size <= size_of value - offset /\
  u64 (offset + chunk_size) = offset + chunk_size.
Proof.
  intros Hk Hsz Hoff. cbv zeta.
  rewrite (u64_small (size_of value - offset)) by lia.
  split; [lia |]. split; [lia |]. apply u64_small. lia.
Qed.

(** The loop as a proof rule: an invariant [I] kept by an iteration
    that allocates, and a postcondition [Post] reached from [I] by the
    two exits. *)
Lemma allocateSlices_loop_rule (value : list byte)
    (I : World A -> list Slice -> Z -> Prop)
    (Post : Z * list Slice * World A -> Prop) :
  (forall w slices offset,
      I w slices offset -> ~ offset < size_of value ->
      Post (0, slices, w)) ->
  (forall w slices offset w1,
      I w slices offset -> offset < size_of value ->
      do_allocate w (Z.min (u64 (size_of value - offset)) kMaxSliceSize)
        = (None, w1) ->
      Post (1, [], freeSlices w1 slices)) ->
  (forall w slices offset p w1,
      I w slices offset -> offset < size_of value ->
      let chunk_size :=
        Z.min (u64 (size_of value - offset)) kMaxSliceSize in
      do_allocate w chunk_size = (Some p, w1) ->
      I (do_memcpy w1 p
           (take (Z.to_nat chunk_size) (drop (Z.to_nat offset) value)))
        (slices ++ [mkSlice p chunk_size])
        (u64 (offset + chunk_size))) ->
  forall fuel w slices offset res,
    I w slices offset ->
    allocateSlices_loop kMaxSliceSize fuel w slices value offset = Some res ->
    Post res.
Proof.
  intros Hexit Hfail Hstep.
  induction fuel as [| fuel IH]; intros w slices offset res HI; simpl;
    [discriminate |].
  destruct (decide (offset < size_of value)) as [Hlt | Hge].
  - destruct (do_allocate w _) as [[p |] w1] eqn:Halloc.
    + intros Hres. eapply IH; [| exact Hres].
      eapply Hstep; eassumption.
    + intros [= <-]. eapply Hfail; eassumption.
  - intros [= <-]. eapply Hexit; eassumption.
Qed.

(** The loop ends: with a positive [kMaxSliceSize] every iteration moves
    [offset] forward. *)
Lemma allocateSlices_loop_terminates (value : list byte) (fuel : nat) :
  0 < kMaxSliceSize -> size_of value < u64_modulus ->
  forall (w : World A) slices offset,
    0 <= offset <= size_of value ->
    size_of value - offset < Z.of_nat fuel ->
    is_Some (allocateSlices_loop kMaxSliceSize fuel w slices value offset).
Proof.
  intros Hk Hsz. induction fuel as [| fuel IH];
    intros w slices offset Hoff Hfuel; [lia |]. simpl.
  destruct (decide (offset < size_of value)) as [Hlt | Hge]; [| eauto].
  destruct (chunk_size_bounds value offset Hk Hsz ltac:(lia))
    as (Hc & Hc' & Hnext).
  destruct (do_allocate w _) as [[p |] w1]; [| eauto].
  apply IH; rewrite Hnext; lia.
Qed.

Lemma allocateSlices_terminates (w : World A) (slices : list Slice)
    (value : list byte) :
  0 < kMaxSliceSize -> size_of value < u64_modulus ->
  is_Some (allocateSlices kMaxSliceSize w slices value).
Proof.
  intros Hk Hsz. unfold allocateSlices.
  apply allocateSlices_loop_terminates; unfold size_of in *; lia.
Qed.

(** What a call that starts from an empty vector leaves behind, whatever
    the allocator and whatever [kMaxSliceSize]: either code 0, the slices
    it allocated, none longer than [kMaxSliceSize], and one allocation
    per slice in the trace; or code 1, an empty vector, and a trace in
    which the refused allocation is followed by the release of every
    slice allocated before it. *)
Lemma allocateSlices_trace (w : World A) (value : list byte)
    (ret : Z) (slices : list Slice) (w' : World A) :
  allocateSlices kMaxSliceSize w [] value = Some (ret, slices, w') ->
  client_ w' = client_ w /\
  ((ret = 0 /\
    Forall (fun s => size s <= kMaxSliceSize) slices /\
    trace w' = trace w ++ map alloc_event slices) \/
   (ret = 1 /\ slices = [] /\
    exists allocated n,
      trace w' = trace w ++ map alloc_event allocated ++
                 [EvAllocate n None] ++ map dealloc_event allocated)).
Proof.
  unfold allocateSlices.
  apply (allocateSlices_loop_rule value
    (fun w1 slices1 _ =>
       client_ w1 = client_ w /\
       Forall (fun s => size s <= kMaxSliceSize) slices1 /\
       trace w1 = trace w ++ map alloc_event slices1)
    (fun res =>
       client_ res.2 = client_ w /\
       ((res.1.1 = 0 /\
         Forall (fun s => size s <= kMaxSliceSize) res.1.2 /\
         trace res.2 = trace w ++ map alloc_event res.1.2) \/
        (res.1.1 = 1 /\ res.1.2 = [] /\
         exists allocated n,
           trace res.2 = trace w ++ map alloc_event allocated ++
                         [EvAllocate n None] ++
                         map dealloc_event allocated)))).
  - intros w1 slices1 offset (Hc & Hall & Htr) _. simpl. auto.
  - intros w1 slices1 offset w2 (Hc & Hall & Htr) _ Halloc. simpl.
    apply do_allocate_spec in Halloc as (_ & Hc2 & _ & Htr2).
    destruct (freeSlices_spec slices1 w2) as (Hc3 & _ & Htr3 & _).
    split; [congruence |]. right. split; [reflexivity |].
    split; [reflexivity |].
    exists slices1, (Z.min (u64 (size_of value - offset)) kMaxSliceSize).
    rewrite Htr3, Htr2, Htr. rewrite <- !app_assoc. reflexivity.
  - intros w1 slices1 offset p w2 (Hc & Hall & Htr) _ chunk_size Halloc.
    apply do_allocate_spec in Halloc as (_ & Hc2 & _ & Htr2).
    simpl. split; [congruence |]. split.
    + apply Forall_app. split; [exact Hall |].
      constructor; [| constructor]. simpl. unfold chunk_size. lia.
    + rewrite Htr2, Htr, map_app, <- app_assoc. reflexivity.
  - simpl. rewrite app_nil_r. auto.
Qed.

(** With a positive [kMaxSliceSize] and a value whose size is a
    [size_t], a call that returns 0 has cut the whole value into
    non-empty slices. *)
Lemma allocateSlices_sizes (w : World A) (value : list byte)
    (slices : list Slice) (w' : World A) :
  0 < kMaxSliceSize -> size_of value < u64_modulus ->
  allocateSlices kMaxSliceSize w [] value = Some (0, slices, w') ->
  sum_sizes slices = size_of value /\
  Forall (fun s => 0 < size s) slices.
Proof.
  intros Hk Hsz Hres. unfold allocateSlices in Hres.
  enough (Hpost : 0 = 1 \/
                  (sum_sizes slices = size_of value /\
                   Forall (fun s => 0 < size s) slices))
    by (destruct Hpost as [Habs | Hpost]; [discriminate | exact Hpost]).
  revert Hres.
  apply (allocateSlices_loop_rule value
    (fun _ slices1 offset =>
       0 <= offset <= size_of value /\ sum_sizes slices1 = offset /\
       Forall (fun s => 0 < size s) slices1)
    (fun res =>
       res.1.1 = 1 \/
       (sum_sizes res.1.2 = size_of value /\
        Forall (fun s => 0 < size s) res.1.2))).
  - intros w1 slices1 offset (Hoff & Hsum & Hpos) Hge. simpl.
    right. split; [lia | exact Hpos].
  - intros w1 slices1 offset w2 _ _ _. simpl. left. reflexivity.
  - intros w1 slices1 offset p w2 (Hoff & Hsum & Hpos) Hlt chunk_size _.
    destruct (chunk_size_bounds value offset Hk Hsz ltac:(lia))
      as (Hc & Hc' & Hnext).
    fold chunk_size in Hc, Hc', Hnext. rewrite Hnext.
    split; [lia |]. split.
    + rewrite sum_sizes_app. simpl. lia.
    + apply Forall_app. split; [exact Hpos |].
      constructor; [simpl; lia | constructor].
  - simpl. split; [unfold size_of; lia |]. split; [reflexivity | constructor].
Qed.

End EngineProperties.

(** ** The store *)

Section StoreProperties.

Variable kMaxSliceSize : Z.

Lemma zip_with_written (h : Heap) (slices : list Slice) :
  zip_with (fun hd d => mkHandle (handle_size hd) d)
    (map (fun l => mkHandle l (replicate (Z.to_nat l) x00))
         (map size slices))
    (map (slice_bytes h) slices) =
  map (fun s => mkHandle (size s) (slice_bytes h s)) slices.
Proof.
  induction slices as [| s slices IH]; simpl; [reflexivity |].
  rewrite IH. reflexivity.
Qed.

(** What a successful [Client::Put] has checked and stored. *)
Lemma Client_Put_OK (st st' : gmap string ObjectMetadata) (h : Heap)
    (key : string) (slices : list Slice) (config : ReplicateConfig) :
  Client_Put kMaxSliceSize st h key slices config = (OK, st') ->
  sum_sizes slices <> 0 /\ replica_num config <> 0 /\
  Forall (fun s => size s <= kMaxSliceSize) slices /\
  st' = <[key := mkObject (sum_sizes slices)
                   (replicate (Z.to_nat (replica_num config))
                      (mkReplica
                         (map (fun s => mkHandle (size s) (slice_bytes h s))
                              slices)
                         COMPLETE))]> st.
Proof.
  unfold Client_Put, PutStart.
  destruct (bool_decide _) eqn:Hbad; [discriminate |].
  apply bool_decide_eq_false in Hbad.
  destruct (bool_decide (is_Some (st !! key))); [discriminate |].
  unfold Transfer, PutEnd. rewrite alter_insert_eq, lookup_insert_eq.
  rewrite insert_insert_eq. simpl. intros [= <-].
  rewrite sum_lengths_sizes in *.
  split; [tauto |]. split; [tauto |]. split.
  - apply Forall_forall. intros s Hs.
    destruct (decide (size s <= kMaxSliceSize)) as [| Hgt]; [assumption |].
    exfalso. apply Hbad. do 3 right. left.
    apply Exists_exists. exists (size s). split; [| lia].
    apply list_elem_of_fmap. eauto.
  - do 2 f_equal.
    change (map ?f (replicate ?n ?x)) with (f <$> replicate n x).
    rewrite !fmap_replicate. f_equal. unfold transfer_write. simpl.
    rewrite zip_with_written. reflexivity.
Qed.

Lemma handles_bounded_empty : handles_bounded kMaxSliceSize ∅.
Proof. intros key obj Hobj. rewrite lookup_empty in Hobj. discriminate. Qed.

Lemma handles_bounded_step (st st' : gmap string ObjectMetadata) :
  store_step kMaxSliceSize st st' ->
  handles_bounded kMaxSliceSize st -> handles_bounded kMaxSliceSize st'.
Proof.
  intros Hstep Hb.
  destruct Hstep as [st key len lens config ec st' Hput | st key datas
                    | st key ec st' Hend | st key | st key keep].
  - unfold PutStart in Hput.
    destruct (bool_decide _) eqn:Hbad; [injection Hput as _ <-; exact Hb |].
    apply bool_decide_eq_false in Hbad.
    destruct (bool_decide (is_Some (st !! key)));
      injection Hput as _ <-; [exact Hb |].
    intros k obj Hobj. apply lookup_insert_Some in Hobj as [[_ <-] | [_ Hobj]];
      [| exact (Hb k obj Hobj)].
    simpl. apply Forall_replicate. simpl. apply Forall_forall.
    intros hd Hhd. apply list_elem_of_fmap in Hhd as (l & -> & Hl). simpl.
    destruct (decide (l <= kMaxSliceSize)) as [| Hgt]; [assumption |].
    exfalso. apply Hbad. do 3 right. left.
    apply Exists_exists. exists l. split; [exact Hl | lia].
  - intros k obj Hobj. unfold Transfer in Hobj.
    destruct (decide (key = k)) as [-> | Hne].
    + rewrite lookup_alter_eq in Hobj.
      destruct (st !! k) as [obj0 |] eqn:Hk; [| discriminate].
      injection Hobj as <-. simpl. specialize (Hb k obj0 Hk).
      apply Forall_fmap. eapply Forall_impl; [exact Hb |].
      intros r Hr. simpl. clear -Hr. revert datas.
      induction Hr as [| hd hs Hhd Hhs IH]; intros [| d datas]; simpl;
        try constructor; auto.
    + rewrite lookup_alter_ne in Hobj by exact Hne. exact (Hb k obj Hobj).
  - unfold PutEnd in Hend.
    destruct (st !! key) as [obj0 |] eqn:Hk; injection Hend as _ <-;
      [| exact Hb].
    intros k obj Hobj. apply lookup_insert_Some in Hobj as [[-> <-] | [_ Hobj]];
      [| exact (Hb k obj Hobj)].
    simpl. specialize (Hb k obj0 Hk). apply Forall_fmap.
    eapply Forall_impl; [exact Hb |]. intros r Hr. exact Hr.
  - intros k obj Hobj. apply lookup_delete_Some in Hobj as [_ Hobj].
    exact (Hb k obj Hobj).
  - intros k obj Hobj. destruct (decide (key = k)) as [-> | Hne].
    + rewrite lookup_alter_eq in Hobj.
      destruct (st !! k) as [obj0 |] eqn:Hk; [| discriminate].
      injection Hobj as <-. simpl. specialize (Hb k obj0 Hk).
      rewrite Forall_forall in Hb. apply Forall_forall. intros r Hr.
      apply list_elem_of_filter in Hr as [_ Hr]. exact (Hb r Hr).
    + rewrite lookup_alter_ne in Hobj by exact Hne. exact (Hb k obj Hobj).
Qed.

Lemma store_reachable_bounded (st : gmap string ObjectMetadata) :
  store_reachable kMaxSliceSize st -> handles_bounded kMaxSliceSize st.
Proof.
  induction 1 as [| st st' _ IH Hstep];
    [apply handles_bounded_empty | exact (handles_bounded_step _ _ Hstep IH)].
Qed.

(** The store a successful [Client::Put] leaves is reached in three
    steps. *)
Lemma Client_Put_reachable (st st' : gmap string ObjectMetadata) (h : Heap)
    (key : string) (slices : list Slice) (config : ReplicateConfig)
    (ec : ErrorCode) :
  Client_Put kMaxSliceSize st h key slices config = (ec, st') ->
  store_reachable kMaxSliceSize st -> store_reachable kMaxSliceSize st'.
Proof.
  unfold Client_Put. intros Hput Hst.
  destruct (PutStart _ _ _ _ _ _) as [ec1 st1] eqn:Hstart.
  assert (H1 : store_reachable kMaxSliceSize st1)
    by (eapply reachable_step;
        [exact Hst | eapply step_PutStart; exact Hstart]).
  destruct ec1; try (injection Hput as _ <-; exact Hst).
  eapply reachable_step; [| eapply step_PutEnd; exact Hput].
  eapply reachable_step; [exact H1 | apply step_Transfer].
Qed.

End StoreProperties.

(** ** [MooncakeEngine]: what the specification says of it *)

Section EngineTheorems.

Context {A : Type} `{!BufferAllocator A}.
Variable kMaxSliceSize : Z.

Lemma sum_handle_sizes_written (h : Heap) (slices : list Slice) :
  sum_handle_sizes
    (map (fun s => mkHandle (size s) (slice_bytes h s)) slices) =
  sum_sizes slices.
Proof.
  unfold sum_handle_sizes.
  induction slices as [| s slices IH]; simpl; [reflexivity |].
  rewrite IH. reflexivity.
Qed.

(** [put] returns 0 only after [allocateSlices] returned 0 and
    [Client::Put] returned [OK]. *)
Lemma put_OK (w w' : World A) (key : string) (value : list byte) :
  put kMaxSliceSize w key value = Some (0, w') ->
  exists st slices w1 st',
    client_ w = Some st /\
    allocateSlices kMaxSliceSize w [] value = Some (0, slices, w1) /\
    Client_Put kMaxSliceSize st (heap w1) key slices (mkConfig 1)
      = (OK, st') /\
    client_ w' = Some st' /\
    heap w' = heap w1.
Proof.
  unfold put. destruct (client_ w) as [st |] eqn:Hc; [| discriminate].
  destruct (allocateSlices _ w [] value) as [[[ret slices] w1] |] eqn:Ha;
    [| discriminate].
  destruct (decide (ret <> 0)) as [Hret | Hret]; [congruence |].
  assert (ret = 0) as -> by lia.
  destruct (Client_Put _ _ _ _ _ _) as [ec st'] eqn:Hput.
  destruct (decide (ec <> OK)) as [Hec | Hec]; [discriminate |].
  assert (ec = OK) as ->
    by (destruct (decide (ec = OK)); [assumption | contradiction]).
  intros [= <-].
  destruct (freeSlices_spec slices
              (mkWorld (Some st') (client_buffer_allocator_ w1) (heap w1)
                       (trace w1 ++ [EvClientPut key])))
    as (Hc' & Hh' & _).
  exists st, slices, w1, st'. auto.
Qed.


(** C3: when [allocateSlices(slices, value)] returns a nonzero code, the
    vector is empty, and the calls it made to the allocator are: one
    successful allocation per slice, the allocation that was refused,
    and the release of every one of these slices, in order.  [put] then
    returns that code at once: it calls nothing else and the store is as
    it was. *)
Theorem allocateSlices_failure_frees_all (w : World A) (value : list byte)
    (ret : Z) (slices : list Slice) (w' : World A) :
  allocateSlices kMaxSliceSize w [] value = Some (ret, slices, w') ->
  ret <> 0 ->
  slices = [] /\
  (exists allocated n,
      trace w' = trace w ++ map alloc_event allocated ++
                 [EvAllocate n None] ++ map dealloc_event allocated) /\
  (forall key st,
      client_ w = Some st ->
      put kMaxSliceSize w key value = Some (ret, w') /\
      client_ w' = Some st).
Proof.
  intros Hres Hret.
  destruct (allocateSlices_trace _ _ _ _ _ _ Hres)
    as (Hc & [(-> & _) | (_ & -> & Htr)]); [congruence |].
  split; [reflexivity |]. split; [exact Htr |].
  intros key st Hst. unfold put. rewrite Hst, Hres.
  destruct (decide (ret <> 0)) as [_ | Hz]; [| contradiction].
  split; [reflexivity | congruence].
Qed.

Lemma allocateSlices_handles_no_assert (hs : list Handle) :
  Forall (fun h => handle_size h <= kMaxSliceSize) hs ->
  forall (w : World A) slices len,
    allocateSlices_handles kMaxSliceSize w slices len hs <> AssertionFailed.
Proof.
  induction 1 as [| hd hs Hhd _ IH]; intros w slices len; simpl;
    [discriminate |].
  destruct (decide (handle_size hd <= kMaxSliceSize)) as [_ | Hgt];
    [| contradiction].
  destruct (do_allocate w _) as [[p |] w1]; [apply IH | discriminate].
Qed.

Lemma Get_no_assert (st : gmap string ObjectMetadata) (w : World A)
    (key : string) (value : option (list byte)) :
  handles_bounded kMaxSliceSize st -> client_ w = Some st ->
  Get kMaxSliceSize w key value <> AssertionFailed.
Proof.
  intros Hb Hc. unfold Get. destruct value as [old |]; [| discriminate].
  rewrite Hc. unfold Client_Query, GetReplicaList.
  destruct (st !! key) as [obj |] eqn:Hk; simpl; [| discriminate].
  destruct (all_complete (replicas obj)); simpl; [| discriminate].
  unfold allocateSlices_object_info. simpl.
  specialize (Hb key obj Hk).
  destruct (replicas obj) as [| r rs]; simpl; [discriminate |].
  apply Forall_cons in Hb as [Hr _].
  pose proof (allocateSlices_handles_no_assert (handles r) Hr
                (mkWorld (client_ w) (client_buffer_allocator_ w) (heap w)
                         (trace w ++ [EvQuery key])) [] 0) as Hna.
  rewrite Hc in *.
  destruct (allocateSlices_handles _ _ _ _ _)
    as [[[[ret slices] len] w1] |]; [| congruence].
  destruct (decide (ret <> 0)); [discriminate |].
  destruct (Client_Get _ _ _) as [ec h'].
  destruct (decide (ec <> OK)); discriminate.
Qed.


(** C8: with a null [value], or with a null [client_] (before [Init]),
    [Get] returns false and leaves everything as it was: the trace has
    no new call, so no [Query] or [Get] was sent to the store and nothing
    was asked of the allocator, whose state is the same. *)
Theorem Get_null_returns_false (w : World A) (key : string)
    (value : option (list byte)) :
  value = None \/ client_ w = None ->
  Get kMaxSliceSize w key value = Returned (false, value, w).
Proof.
  intros [-> | Hc]; [reflexivity |].
  unfold Get. destruct value as [old |]; [| reflexivity].
  rewrite Hc. reflexivity.
Qed.

End EngineTheorems.

(** ** The round trip through client memory *)

Lemma slices_disjoint_snoc (slices : list Slice) (s : Slice) :
  slices_disjoint slices ->
  Forall (fun s' => forall x, in_slice s' x -> ~ in_slice s x) slices ->
  slices_disjoint (slices ++ [s]).
Proof.
  induction slices as [| s0 slices IH]; simpl; intros Hd Hs.
  - split; [constructor | exact I].
  - destruct Hd as [Hd0 Hd]. apply Forall_cons in Hs as [Hs0 Hs].
    split; [| exact (IH Hd Hs)].
    apply Forall_app. split; [exact Hd0 |].
    constructor; [exact Hs0 | constructor].
Qed.

(** A transfer into disjoint slices that match the handles succeeds, and
    afterwards every slice holds the bytes of its handle. *)
Lemma transfer_read_spec (hs : list Handle) :
  Forall (fun hd => size_of (handle_data hd) = handle_size hd) hs ->
  forall (ss : list Slice) (h : Heap),
    map handle_size hs = map size ss ->
    slices_disjoint ss ->
    exists h',
      transfer_read hs ss h = Some h' /\
      map (slice_bytes h') ss = map handle_data hs /\
      (forall x, Forall (fun s => ~ in_slice s x) ss -> h' x = h x).
Proof.
  induction 1 as [| hd hs Hhd _ IH]; intros [| s ss] h Hsz Hd;
    try discriminate.
  - exists h. simpl. auto.
  - simpl in Hsz. injection Hsz as Hsz0 Hsz. destruct Hd as [Hd0 Hd].
    simpl. destruct (decide (handle_size hd = size s)) as [_ | Hne];
      [| contradiction].
    destruct (IH ss (memcpy h (ptr s) (handle_data hd)) Hsz Hd)
      as (h' & Hread & Hbytes & Hout).
    exists h'. split; [exact Hread |]. split.
    + f_equal; [| exact Hbytes]. unfold slice_bytes.
      rewrite (read_bytes_ext (memcpy h (ptr s) (handle_data hd)) h').
      * rewrite <- Hsz0, <- Hhd. apply read_bytes_memcpy_same.
      * intros x Hx. apply Hout. eapply Forall_impl; [exact Hd0 |].
        intros s' Hs'. apply Hs'. exact Hx.
    + intros x Hx. apply Forall_cons in Hx as [Hx0 Hx].
      rewrite (Hout x Hx). unfold memcpy.
      destruct (decide _) as [Hin | _]; [| reflexivity].
      exfalso. apply Hx0. unfold in_slice. lia.
Qed.

Section RoundTrip.

Context {A : Type} `{!BufferAllocator A}.
Variable kMaxSliceSize : Z.
Variable owned : A -> Z -> Prop.

(** A block just handed out is owned and overlaps no slice that was
    owned before. *)
Lemma do_allocate_fresh (w w1 : World A) (n p : Z) (slices : list Slice) :
  allocate_fresh owned ->
  do_allocate w n = (Some p, w1) ->
  slices_owned owned (client_buffer_allocator_ w) slices ->
  slices_owned owned (client_buffer_allocator_ w1)
               (slices ++ [mkSlice p n]) /\
  Forall (fun s' => forall x, in_slice s' x -> ~ in_slice (mkSlice p n) x)
         slices.
Proof.
  intros Hfresh Halloc Hown.
  apply do_allocate_spec in Halloc as (Halloc & _).
  destruct (Hfresh _ _ _ _ Halloc) as [Hnew Hiff].
  unfold slices_owned in *. split.
  - apply Forall_app. split.
    + eapply Forall_impl; [exact Hown |]. intros s Hs x Hx.
      apply Hiff. left. exact (Hs x Hx).
    + constructor; [| constructor]. intros x Hx.
      apply Hiff. right. exact Hx.
  - eapply Forall_impl; [exact Hown |]. intros s Hs x Hx Hin.
    exact (Hnew x Hin (Hs x Hx)).
Qed.

(** After a call that returned 0, the slices hold the value, chunk after
    chunk. *)
Lemma allocateSlices_bytes (w : World A) (value : list byte)
    (slices : list Slice) (w' : World A) :
  allocate_fresh owned ->
  0 < kMaxSliceSize -> size_of value < u64_modulus ->
  allocateSlices kMaxSliceSize w [] value = Some (0, slices, w') ->
  concat (map (slice_bytes (heap w')) slices) = value.
Proof.
  intros Hfresh Hk Hsz Hres. unfold allocateSlices in Hres.
  enough (Hpost : 0 = 1 \/
                  concat (map (slice_bytes (heap w')) slices) = value)
    by (destruct Hpost as [Habs | Hpost]; [discriminate | exact Hpost]).
  revert Hres.
  apply (allocateSlices_loop_rule kMaxSliceSize value
    (fun w1 slices1 offset =>
       0 <= offset <= size_of value /\
       slices_owned owned (client_buffer_allocator_ w1) slices1 /\
       concat (map (slice_bytes (heap w1)) slices1) =
         take (Z.to_nat offset) value)
    (fun res =>
       res.1.1 = 1 \/
       concat (map (slice_bytes (heap res.2)) res.1.2) = value)).
  - intros w1 slices1 offset (Hoff & _ & Hbytes) Hge. simpl. right.
    rewrite Hbytes. apply take_ge. unfold size_of in *. lia.
  - intros. simpl. left. reflexivity.
  - intros w1 slices1 offset p w2 (Hoff & Hown & Hbytes) Hlt chunk_size
           Halloc.
    destruct (chunk_size_bounds kMaxSliceSize value offset Hk Hsz
                ltac:(lia)) as (Hc & Hc' & Hnext).
    fold chunk_size in Hc, Hc', Hnext. rewrite Hnext.
    destruct (do_allocate_fresh _ _ _ _ _ Hfresh Halloc Hown)
      as [Hown' Hdis].
    apply do_allocate_spec in Halloc as (_ & _ & Hheap & _).
    set (bytes := take (Z.to_nat chunk_size) (drop (Z.to_nat offset) value)).
    assert (Hlen : size_of bytes = chunk_size).
    { unfold bytes, size_of in *. rewrite length_take_le; [lia |].
      rewrite length_drop. lia. }
    split; [lia |]. split; [exact Hown' |]. simpl. rewrite Hheap.
    rewrite map_app, concat_app. simpl. rewrite app_nil_r.
    replace (Z.to_nat (offset + chunk_size))
      with (Z.to_nat offset + Z.to_nat chunk_size)%nat by lia.
    rewrite <- take_take_drop. fold bytes. f_equal.
    + rewrite <- Hbytes. f_equal. apply map_ext_in. intros s Hs.
      unfold slice_bytes. apply read_bytes_memcpy_disjoint.
      rewrite Forall_forall in Hdis. intros x Hx Hin.
      apply (Hdis s (proj2 (list_elem_of_In _ _) Hs) x Hx).
      unfold in_slice. simpl. lia.
    + unfold slice_bytes. simpl. rewrite <- Hlen.
      apply read_bytes_memcpy_same.
  - simpl. split; [unfold size_of; lia |]. split; [constructor | reflexivity].
Qed.

(** The loop of the read path, over handles within [kMaxSliceSize]: it
    returns; with code 0 it has added one slice per handle, of the
    handle's size, and no two slices overlap; with code 1 its last call
    was an allocation that was refused. *)
Lemma allocateSlices_handles_spec (hs : list Handle) :
  allocate_fresh owned ->
  Forall (fun hd => handle_size hd <= kMaxSliceSize) hs ->
  forall (w : World A) slices len,
    slices_owned owned (client_buffer_allocator_ w) slices ->
    slices_disjoint slices ->
    exists ret out len' w',
      allocateSlices_handles kMaxSliceSize w slices len hs =
        Returned (ret, out, len', w') /\
      heap w' = heap w /\ client_ w' = client_ w /\
      ((ret = 0 /\
        (exists new, out = slices ++ new /\
                     map size new = map handle_size hs) /\
        slices_disjoint out /\
        trace w' = trace w ++ map alloc_event (drop (length slices) out)) \/
       (ret = 1 /\
        exists allocated n,
          trace w' = trace w ++ map alloc_event allocated ++
                     [EvAllocate n None])).
Proof.
  intros Hfresh. induction 1 as [| hd hs Hhd _ IH];
    intros w slices len Hown Hd; simpl.
  - exists 0, slices, len, w. split; [reflexivity |].
    split; [reflexivity |]. split; [reflexivity |]. left.
    split; [reflexivity |]. split; [exists []; rewrite app_nil_r; auto |].
    split; [exact Hd |]. rewrite drop_ge by lia. simpl.
    rewrite app_nil_r. reflexivity.
  - destruct (decide (handle_size hd <= kMaxSliceSize)) as [_ | Hgt];
      [| contradiction].
    destruct (do_allocate w (handle_size hd)) as [[p |] w1] eqn:Halloc.
    + destruct (do_allocate_fresh _ _ _ _ _ Hfresh Halloc Hown)
        as [Hown' Hdis].
      apply do_allocate_spec in Halloc as (_ & Hc1 & Hh1 & Ht1).
      destruct (IH w1 (slices ++ [mkSlice p (handle_size hd)])
                   (u64 (len + handle_size hd)) Hown'
                   (slices_disjoint_snoc _ _ Hd Hdis))
        as (ret & out & len' & w' & Hres & Hh & Hc & Hcases).
      exists ret, out, len', w'. split; [exact Hres |].
      split; [congruence |]. split; [congruence |].
      destruct Hcases as [(-> & (new & -> & Hsz) & Hdo & Htr)
                         | (-> & allocated & n & Htr)].
      * left. split; [reflexivity |]. split.
        { exists (mkSlice p (handle_size hd) :: new).
          rewrite <- app_assoc. simpl. split; [reflexivity |].
          f_equal. exact Hsz. }
        split; [exact Hdo |].
        rewrite drop_app_length in Htr.
        rewrite <- (app_assoc slices), drop_app_length.
        rewrite Htr, Ht1, <- app_assoc. reflexivity.
      * right. split; [reflexivity |].
        exists (mkSlice p (handle_size hd) :: allocated), n.
        rewrite Htr, Ht1, <- app_assoc. reflexivity.
    + apply do_allocate_spec in Halloc as (_ & Hc1 & Hh1 & Ht1).
      exists 1, slices, len, w1. split; [reflexivity |].
      split; [exact Hh1 |]. split; [exact Hc1 |]. right.
      split; [reflexivity |]. exists [], (handle_size hd). exact Ht1.
Qed.

(** [Get] of an object with one complete replica whose handles are
    within [kMaxSliceSize] and hold as many bytes as their size says:
    it returns the bytes of the handles, in order, unless the allocator
    refuses a buffer. *)
Lemma Get_stored (w : World A) (st : gmap string ObjectMetadata)
    (key : string) (old : list byte) (sz : Z) (hs : list Handle) :
  allocate_fresh owned ->
  client_ w = Some st ->
  st !! key = Some (mkObject sz [mkReplica hs COMPLETE]) ->
  Forall (fun hd => handle_size hd <= kMaxSliceSize) hs ->
  Forall (fun hd => size_of (handle_data hd) = handle_size hd) hs ->
  exists b v w2,
    Get kMaxSliceSize w key (Some old) = Returned (b, v, w2) /\
    ((b = true /\ v = Some (concat (map handle_data hs))) \/
     (b = false /\ v = Some old /\
      exists allocated n,
        trace w2 = trace w ++ [EvQuery key] ++ map alloc_event allocated ++
                   [EvAllocate n None])).
Proof.
  intros Hfresh Hc Hk Hbound Hwf. unfold Get. rewrite Hc.
  unfold Client_Query, GetReplicaList. rewrite Hk. simpl.
  unfold allocateSlices_object_info. simpl.
  set (w0 := mkWorld (Some st) (client_buffer_allocator_ w) (heap w)
                     (trace w ++ [EvQuery key])).
  destruct (allocateSlices_handles_spec hs Hfresh Hbound w0 [] 0)
    as (ret & out & len' & w1 & Hres & Hh & Hc1 & Hcases);
    [constructor | exact I |].
  rewrite Hres.
  destruct Hcases as [(-> & (new & -> & Hsz) & Hdis & _)
                     | (-> & allocated & n & Htr)].
  - simpl in Hdis |- *.
    destruct (transfer_read_spec hs Hwf new (heap w1) (eq_sym Hsz) Hdis)
      as (h' & Hread & Hbytes & _).
    unfold Client_Get. simpl. rewrite Hread. simpl.
    do 3 eexists. split; [reflexivity |]. left. split; [reflexivity |].
    rewrite fold_left_append, Hbytes. reflexivity.
  - simpl. do 3 eexists. split; [reflexivity |]. right.
    split; [reflexivity |]. split; [reflexivity |].
    exists allocated, n. rewrite Htr. unfold w0. simpl.
    rewrite <- app_assoc. reflexivity.
Qed.


End RoundTrip.

(** ** [calculate_percentiles] *)

(** Rounding to binary64 does not change any of the four indices for a
    vector of up to 20000 latencies. *)
Lemma percentile_index_double_agrees :
  percentile_indices_agree_upto 20000 = true.
Proof. vm_compute. reflexivity. Qed.

(** For a fraction [q] in [(0, 1]] and a vector that is not empty, the
    index [ceil(size * q - 1)] is one of the vector. *)
Lemma percentile_index_bounds (size : Z) (q : Q) :
  1 <= size -> (0 < q)%Q -> (q <= 1)%Q ->
  0 <= percentile_position size q < size.
Proof.
  intros Hs Hq0 Hq1. unfold percentile_position.
  assert (Hs' : (0 < inject_Z size)%Q) by (rewrite <- (Zlt_Qlt 0); lia).
  assert (Hpos : (0 < inject_Z size * q)%Q)
    by (apply Qmult_lt_0_compat; assumption).
  assert (Hle : (inject_Z size * q <= inject_Z size * 1)%Q)
    by (apply Qmult_le_l; assumption).
  assert (Hlo : (inject_Z (-1) < inject_Z size * q - 1)%Q).
  { change (inject_Z (-1)) with (-1 # 1)%Q.
    revert Hpos. generalize (inject_Z size * q)%Q. intros y Hy. lra. }
  assert (Hhi : (inject_Z size * q - 1 <= inject_Z (size - 1))%Q).
  { unfold Z.sub. rewrite inject_Z_plus.
    change (inject_Z (- (1))) with (-1 # 1)%Q.
    revert Hle. generalize (inject_Z size * q)%Q, (inject_Z size).
    intros y z Hle. lra. }
  split.
  - pose proof (Qle_ceiling (inject_Z size * q - 1)) as Hc.
    assert (Hlt : (inject_Z (-1) <
                   inject_Z (Qceiling (inject_Z size * q - 1)))%Q)
      by (eapply Qlt_le_trans; eassumption).
    rewrite <- Zlt_Qlt in Hlt. lia.
  - apply Qceiling_resp_le in Hhi. rewrite Qceiling_Z in Hhi. lia.
Qed.

Lemma percentile_index_lt (size : Z) (q : Q) :
  1 <= size -> (0 < q)%Q -> (q <= 1)%Q ->
  Z.of_nat (percentile_index size q) < size.
Proof.
  intros Hs Hq0 Hq1. unfold percentile_index.
  pose proof (percentile_index_bounds size q Hs Hq0 Hq1). lia.
Qed.

(** A larger fraction gives an index that is not smaller. *)
Lemma percentile_index_mono (size : Z) (q q' : Q) :
  1 <= size -> (q <= q')%Q ->
  (percentile_index size q <= percentile_index size q')%nat.
Proof.
  intros Hs Hqq'. unfold percentile_index, percentile_position.
  assert (Hs' : (0 < inject_Z size)%Q) by (rewrite <- (Zlt_Qlt 0); lia).
  assert (Hle : (inject_Z size * q <= inject_Z size * q')%Q)
    by (apply Qmult_le_l; assumption).
  assert (Hc : Qceiling (inject_Z size * q - 1) <=
               Qceiling (inject_Z size * q' - 1)).
  { apply Qceiling_resp_le. revert Hle.
    generalize (inject_Z size * q)%Q, (inject_Z size * q')%Q.
    intros y y' Hle. lra. }
  lia.
Qed.

Section PercentileProperties.

Context {T : Type} (le : relation T) `{!forall x y, Decision (le x y)}.
Variable zero : T.

(** In a sorted vector a later element is not smaller. *)
Lemma StronglySorted_nth (l : list T) :
  Total le -> StronglySorted le l ->
  forall i j, (i <= j < length l)%nat -> le (nth i l zero) (nth j l zero).
Proof.
  intros Htot. induction 1 as [| x l _ IH Hx]; intros i j Hij;
    [simpl in Hij; lia |].
  destruct i as [| i], j as [| j]; simpl in *; try lia.
  - destruct (Htot x x); assumption.
  - rewrite Forall_forall in Hx. apply Hx.
    apply list_elem_of_In, nth_In. lia.
  - apply IH. lia.
Qed.


End PercentileProperties.

(** ** The properties at sample states *)

Lemma bump_allocate_fresh : allocate_fresh bump_owned.
Proof.
  intros a n p a'. simpl. unfold bump_allocate, bump_owned.
  destruct (decide _) as [[Hn Hfit] | _]; [| discriminate].
  intros [= <- <-]. simpl. split; intros x; lia.
Qed.


Example allocateSlices_sample :
  option_map (fun res => (res.1.1, res.1.2))
             (allocateSlices 4 sample_world [] sample_value) =
  Some (0, [mkSlice 4096 4; mkSlice 4100 2]).
Proof. vm_compute. reflexivity. Qed.

Example put_sample :
  option_map (fun res => (res.1, trace res.2))
             (put 4 sample_world "k" sample_value) =
  Some (0, [EvAllocate 4 (Some 4096); EvAllocate 2 (Some 4100);
            EvClientPut "k"; EvDeallocate 4096 4; EvDeallocate 4100 2]).
Proof. vm_compute. reflexivity. Qed.


(** With five bytes of client buffer the second chunk is refused, and the
    first one is given back. *)
Lemma allocateSlices_failure_frees_all_witness :
  exists w',
    allocateSlices 4 small_world [] sample_value = Some (1, [], w') /\
    client_buffer_allocator_ w' = mkBump 0 5 /\
    exists allocated n,
      trace w' = trace small_world ++ map alloc_event allocated ++
                 [EvAllocate n None] ++ map dealloc_event allocated.
Proof.
  pose (w' := match allocateSlices 4 small_world [] sample_value with
              | Some (_, _, w) => w
              | None => small_world
              end).
  assert (Hres : allocateSlices 4 small_world [] sample_value
                 = Some (1, [], w')) by (vm_compute; reflexivity).
  assert (Hret : 1 <> 0) by lia.
  exists w'. split; [exact Hres |]. split; [vm_compute; reflexivity |].
  exact (proj1 (proj2 (allocateSlices_failure_frees_all 4 small_world
                         sample_value 1 [] w' Hres Hret))).
Defined.

Example allocateSlices_small_trace :
  option_map (fun res => trace res.2)
             (allocateSlices 4 small_world [] sample_value) =
  Some [EvAllocate 4 (Some 0); EvAllocate 2 None; EvDeallocate 0 4].
Proof. vm_compute. reflexivity. Qed.


(** [Get] with a null [value], and [Get] before [Init]. *)
Lemma Get_null_returns_false_witness :
  Get 4 sample_world "k" None = Returned (false, None, sample_world) /\
  Get 4 fresh_world "k" (Some []) = Returned (false, Some [], fresh_world).
Proof.
  split.
  - apply (Get_null_returns_false 4 sample_world "k" None).
    left. reflexivity.
  - apply (Get_null_returns_false 4 fresh_world "k" (Some [])).
    right. reflexivity.
Defined.


(** ** The master service *)

Section MasterServiceProperties.

Import MasterService.

Local Set Default Proof Using "Type".

Context {AllocatedBuffer : Type}.
Variable invalid : AllocatedBuffer -> bool.
Variable complete_handle : AllocatedBuffer -> AllocatedBuffer.
Variable kMaxSliceSize : Z.
Variable getShardIndex : string -> nat.
Variable enable_gc_ : bool.
Variable default_kv_lease_ttl_ : Z.
Variable kGCQueueSize : nat.

Local Abbreviation State := (@MasterService.State AllocatedBuffer).
Local Abbreviation ObjectMetadata := (@MasterService.ObjectMetadata AllocatedBuffer).
Local Abbreviation Replica := (@MasterService.Replica AllocatedBuffer).
Local Abbreviation shard_of := (MasterService.shard_of getShardIndex).
Local Abbreviation find_key := (MasterService.find_key getShardIndex).
Local Abbreviation store_key := (MasterService.store_key getShardIndex).
Local Abbreviation erase_key := (MasterService.erase_key getShardIndex).
Local Abbreviation has_invalid_handle := (MasterService.has_invalid_handle invalid).
Local Abbreviation cleanup_replicas := (MasterService.cleanup_replicas invalid).
Local Abbreviation CleanupStaleHandles :=
  (MasterService.CleanupStaleHandles invalid).
Local Abbreviation mark_complete := (MasterService.mark_complete complete_handle).
Local Abbreviation total_slice_length :=
  (MasterService.total_slice_length kMaxSliceSize).
Local Abbreviation PutStart :=
  (MasterService.PutStart invalid kMaxSliceSize getShardIndex).
Local Abbreviation PutEnd := (MasterService.PutEnd complete_handle getShardIndex).
Local Abbreviation PutRevoke := (MasterService.PutRevoke getShardIndex).
Local Abbreviation Remove := (MasterService.Remove getShardIndex).
Local Abbreviation ExistKey :=
  (MasterService.ExistKey getShardIndex default_kv_lease_ttl_).
Local Abbreviation GetReplicaList :=
  (MasterService.GetReplicaList getShardIndex enable_gc_
     default_kv_lease_ttl_ kGCQueueSize).

Lemma shard_of_set (st : State) (key key' : string)
    (shard : gmap string ObjectMetadata) :
  (getShardIndex key < length (metadata_shards_ st))%nat ->
  shard_of (set_shards st (<[getShardIndex key := shard]>
                             (metadata_shards_ st))) key' =
  if decide (getShardIndex key' = getShardIndex key) then shard
  else shard_of st key'.
Proof.
  intros Hlt. unfold MasterService.shard_of. simpl.
  destruct (decide (getShardIndex key' = getShardIndex key)) as [-> | Hne].
  - rewrite list_lookup_insert_eq by exact Hlt. reflexivity.
  - rewrite list_lookup_insert_ne by congruence. reflexivity.
Qed.

Lemma find_store_key (st : State) (key key' : string) (md : ObjectMetadata) :
  (getShardIndex key < length (metadata_shards_ st))%nat ->
  find_key (store_key st key md) key' =
  if decide (key' = key) then Some md else find_key st key'.
Proof.
  intros Hlt. unfold MasterService.find_key, MasterService.store_key.
  rewrite shard_of_set by exact Hlt.
  destruct (decide (key' = key)) as [-> | Hne].
  - destruct (decide _) as [_ | Habs]; [| congruence].
    apply lookup_insert_eq.
  - destruct (decide _) as [Heq | _]; [| reflexivity].
    rewrite lookup_insert_ne by congruence.
    unfold MasterService.shard_of. rewrite Heq. reflexivity.
Qed.

Lemma find_erase_key (st : State) (key key' : string) :
  (getShardIndex key < length (metadata_shards_ st))%nat ->
  find_key (erase_key st key) key' =
  if decide (key' = key) then None else find_key st key'.
Proof.
  intros Hlt. unfold MasterService.find_key, MasterService.erase_key.
  rewrite shard_of_set by exact Hlt.
  destruct (decide (key' = key)) as [-> | Hne].
  - destruct (decide _) as [_ | Habs]; [| congruence].
    apply lookup_delete_eq.
  - destruct (decide _) as [Heq | _]; [| reflexivity].
    rewrite lookup_delete_ne by congruence.
    unfold MasterService.shard_of. rewrite Heq. reflexivity.
Qed.

Lemma find_key_Some_lt (st : State) (key : string) (md : ObjectMetadata) :
  find_key st key = Some md ->
  (getShardIndex key < length (metadata_shards_ st))%nat.
Proof.
  unfold MasterService.find_key, MasterService.shard_of. intros Hfind.
  apply lookup_lt_is_Some.
  destruct (metadata_shards_ st !! getShardIndex key); [eauto |].
  simpl in Hfind. rewrite lookup_empty in Hfind. discriminate.
Qed.

Lemma length_store_key (st : State) (key : string) (md : ObjectMetadata) :
  length (metadata_shards_ (store_key st key md)) =
  length (metadata_shards_ st).
Proof. unfold MasterService.store_key. simpl. apply length_insert. Qed.

Lemma length_erase_key (st : State) (key : string) :
  length (metadata_shards_ (erase_key st key)) =
  length (metadata_shards_ st).
Proof. unfold MasterService.erase_key. simpl. apply length_insert. Qed.

(** [HasDiffRepStatus] finds nothing exactly when every replica has the
    status. *)
Lemma HasDiffRepStatus_None (md : ObjectMetadata) (s : ReplicaStatus) :
  HasDiffRepStatus md s = None <->
  Forall (fun r => status r = s) (replicas md).
Proof.
  unfold HasDiffRepStatus.
  induction (replicas md) as [| r rs IH]; simpl.
  - split; [constructor | reflexivity].
  - destruct (bool_decide (status r = s)) eqn:Hs; simpl.
    + apply bool_decide_eq_true in Hs. rewrite IH. split.
      * intros Hall. constructor; assumption.
      * intros Hall. apply Forall_cons in Hall as [_ Hall]. exact Hall.
    + apply bool_decide_eq_false in Hs. split; [discriminate |].
      intros Hall. apply Forall_cons in Hall as [Habs _]. contradiction.
Qed.

(** The validation loop adds modulo [2^64]. *)
Lemma total_slice_length_spec (slice_lengths : list Z) (total : Z) :
  total_slice_length slice_lengths total =
  if decide (Exists (fun l => l > kMaxSliceSize) slice_lengths) then None
  else Some (if decide (slice_lengths = []) then total
             else u64 (total + sum_lengths slice_lengths)).
Proof.
  revert total. induction slice_lengths as [| l rest IH]; intros total.
  - reflexivity.
  - cbn [MasterService.total_slice_length sum_lengths].
    destruct (decide (l > kMaxSliceSize)) as [Hgt | Hle].
    + rewrite decide_True by (left; exact Hgt). reflexivity.
    + rewrite IH. destruct (decide (Exists _ rest)) as [Hex | Hno].
      * rewrite decide_True by (right; exact Hex). reflexivity.
      * rewrite (decide_False (P := Exists _ (l :: rest)))
          by (intros Hex; apply Exists_cons in Hex as [? | ?]; contradiction).
        rewrite (decide_False (P := l :: rest = [])) by discriminate.
        f_equal. destruct (decide (rest = [])) as [-> | Hne]; simpl.
        { rewrite Z.add_0_r. reflexivity. }
        unfold u64. rewrite Zplus_mod_idemp_l. f_equal. lia.
Qed.

Lemma cleanup_replicas_filter (rs : list Replica) :
  cleanup_replicas rs =
  List.filter (fun r => negb (has_invalid_handle r)) rs.
Proof.
  induction rs as [| r rs IH]; simpl; [reflexivity |].
  destruct (MasterService.has_invalid_handle invalid r); simpl;
    rewrite IH; reflexivity.
Qed.

Lemma allocate_handles_Some (Allocate : nat -> Z -> option AllocatedBuffer)
    (slice_lengths : list Z) :
  forall (j : nat) (hs : list AllocatedBuffer),
  allocate_handles Allocate j slice_lengths = Some hs ->
  length hs = length slice_lengths /\
  forall (k : nat) (l : Z), slice_lengths !! k = Some l ->
    exists h, Allocate (j + k)%nat l = Some h /\ hs !! k = Some h.
Proof.
  induction slice_lengths as [| l0 rest IH]; intros j hs Hal; simpl in Hal.
  - injection Hal as <-. split; [reflexivity |]. intros k l Hk. discriminate.
  - destruct (Allocate j l0) as [h0 |] eqn:Hh0; [| discriminate].
    destruct (allocate_handles Allocate (S j) rest) as [hs' |] eqn:Hrest;
      [| discriminate].
    injection Hal as <-. destruct (IH _ _ Hrest) as [Hlen Hall].
    split; [simpl; congruence |].
    intros [| k] l Hk; simpl in Hk.
    + injection Hk as <-. exists h0. rewrite Nat.add_0_r. split; [exact Hh0 |].
      reflexivity.
    + destruct (Hall k l Hk) as (h & Hh & Hlk). exists h.
      replace (j + S k)%nat with (S j + k)%nat by lia. split; assumption.
Qed.

Lemma allocate_handles_None (Allocate : nat -> Z -> option AllocatedBuffer)
    (slice_lengths : list Z) :
  forall (j : nat),
  allocate_handles Allocate j slice_lengths = None ->
  exists (k : nat) (l : Z),
    slice_lengths !! k = Some l /\ Allocate (j + k)%nat l = None.
Proof.
  induction slice_lengths as [| l0 rest IH]; intros j Hal; simpl in Hal.
  - discriminate.
  - destruct (Allocate j l0) as [h0 |] eqn:Hh0.
    + destruct (allocate_handles Allocate (S j) rest) as [hs' |] eqn:Hrest;
        [discriminate |].
      destruct (IH _ Hrest) as (k & l & Hk & Hnone).
      exists (S k), l. split; [exact Hk |].
      replace (j + S k)%nat with (S j + k)%nat by lia. exact Hnone.
    + exists 0%nat, l0. rewrite Nat.add_0_r. split; [reflexivity | exact Hh0].
Qed.

Lemma allocate_replicas_Some
    (Allocate : nat -> nat -> Z -> option AllocatedBuffer)
    (slice_lengths : list Z) :
  forall (n i : nat) (rs : list Replica),
  allocate_replicas Allocate i n slice_lengths = Some rs ->
  length rs = n /\
  forall (k : nat) (r : Replica), rs !! k = Some r ->
    status r = PROCESSING /\
    length (handles r) = length slice_lengths /\
    forall (j : nat) (l : Z), slice_lengths !! j = Some l ->
      exists h, Allocate (i + k)%nat j l = Some h /\ handles r !! j = Some h.
Proof.
  induction n as [| n IH]; intros i rs Hal; simpl in Hal.
  - injection Hal as <-. split; [reflexivity |]. intros k r Hk. discriminate.
  - destruct (allocate_handles (Allocate i) 0 slice_lengths) as [hs |] eqn:Hhs;
      [| discriminate].
    destruct (allocate_replicas Allocate (S i) n slice_lengths)
      as [rs' |] eqn:Hrest; [| discriminate].
    injection Hal as <-. destruct (IH _ _ Hrest) as [Hlen Hall].
    split; [simpl; congruence |].
    intros [| k] r Hk; simpl in Hk.
    + injection Hk as <-. simpl.
      destruct (allocate_handles_Some _ _ _ _ Hhs) as [Hl Hh].
      rewrite Nat.add_0_r. repeat split; [exact Hl | exact Hh].
    + replace (i + S k)%nat with (S i + k)%nat by lia. exact (Hall k r Hk).
Qed.

Lemma allocate_replicas_None
    (Allocate : nat -> nat -> Z -> option AllocatedBuffer)
    (slice_lengths : list Z) :
  forall (n i : nat),
  allocate_replicas Allocate i n slice_lengths = None ->
  exists (k j : nat) (l : Z),
    (k < n)%nat /\ slice_lengths !! j = Some l /\
    Allocate (i + k)%nat j l = None.
Proof.
  induction n as [| n IH]; intros i Hal; simpl in Hal.
  - discriminate.
  - destruct (allocate_handles (Allocate i) 0 slice_lengths) as [hs |] eqn:Hhs.
    + destruct (allocate_replicas Allocate (S i) n slice_lengths)
        as [rs' |] eqn:Hrest; [discriminate |].
      destruct (IH _ Hrest) as (k & j & l & Hk & Hj & Hnone).
      exists (S k), j, l. split; [lia |]. split; [exact Hj |].
      replace (i + S k)%nat with (S i + k)%nat by lia. exact Hnone.
    + destruct (allocate_handles_None _ _ _ Hhs) as (j & l & Hj & Hnone).
      exists 0%nat, j, l. rewrite Nat.add_0_r. split; [lia |].
      split; assumption.
Qed.

(** The requests [PutStart] accepts. *)
Lemma PutStart_valid (st : State) (key : string) (value_length : Z)
    (slice_lengths : list Z) (config : ReplicateConfig)
    (Allocate : nat -> nat -> Z -> option AllocatedBuffer) :
  replica_num config <> 0 -> value_length <> 0 -> key <> EmptyString ->
  Forall (fun l => l <= kMaxSliceSize) slice_lengths ->
  u64 (sum_lengths slice_lengths) = value_length ->
  PutStart st key value_length slice_lengths config Allocate =
  let found := find_key st key in
  let '(stale, st1) :=
    match found with
    | None => (true, st)
    | Some metadata =>
        let '(none_left, metadata') := CleanupStaleHandles metadata in
        (none_left, store_key st key metadata')
    end in
  if negb stale then (Unexpected OBJECT_ALREADY_EXISTS, st1)
  else
    match allocate_replicas Allocate 0
            (Z.to_nat (replica_num config)) slice_lengths with
    | None =>
        (Unexpected NO_AVAILABLE_HANDLE,
         mkState (metadata_shards_ st1) true (gc_queue_ st1))
    | Some new_replicas =>
        (Value new_replicas,
         match found with
         | None =>
             store_key st1 key
               (mkObjectMetadata new_replicas value_length (mkLease 0))
         | Some _ => st1
         end)
    end.
Proof.
  intros Hn Hv Hk Hall Hsum. unfold MasterService.PutStart.
  destruct (decide _) as [[? | [? | ?]] | _]; [contradiction.. |].
  rewrite total_slice_length_spec.
  destruct (decide (Exists _ _)) as [Hex | _].
  { exfalso. apply Exists_exists in Hex as (l & Hin & Hgt).
    rewrite Forall_forall in Hall. specialize (Hall l Hin). lia. }
  destruct (decide (_ <> value_length)) as [Hne | _]; [| reflexivity].
  exfalso. apply Hne. destruct (decide (slice_lengths = [])) as [-> | _].
  - rewrite <- Hsum. reflexivity.
  - exact Hsum.
Qed.

(** What a [PutStart] that answers with replicas has done. *)
Lemma PutStart_Value (st st1 : State) (key : string) (value_length : Z)
    (slice_lengths : list Z) (config : ReplicateConfig)
    (Allocate : nat -> nat -> Z -> option AllocatedBuffer)
    (rs : list Replica) :
  PutStart st key value_length slice_lengths config Allocate
    = (Value rs, st1) ->
  replica_num config <> 0 /\ value_length <> 0 /\ key <> EmptyString /\
  Forall (fun l => l <= kMaxSliceSize) slice_lengths /\
  u64 (sum_lengths slice_lengths) = value_length /\
  allocate_replicas Allocate 0 (Z.to_nat (replica_num config)) slice_lengths
    = Some rs /\
  match find_key st key with
  | None =>
      st1 = store_key st key (mkObjectMetadata rs value_length (mkLease 0))
  | Some metadata =>
      cleanup_replicas (replicas metadata) = [] /\
      st1 = store_key st key
              (mkObjectMetadata [] (size metadata) (lease metadata))
  end.
Proof.
  clear kGCQueueSize.
  unfold MasterService.PutStart.
  destruct (decide _) as [_ | Hparams]; [discriminate |].
  rewrite total_slice_length_spec.
  destruct (decide (Exists _ _)) as [_ | Hno]; [discriminate |].
  destruct (decide (_ <> value_length)) as [_ | Hsum]; [discriminate |].
  assert (Hvalid : replica_num config <> 0 /\ value_length <> 0 /\
                   key <> EmptyString) by (repeat split; intros ?; tauto).
  assert (Hall : Forall (fun l => l <= kMaxSliceSize) slice_lengths).
  { apply Forall_forall. intros l Hin.
    destruct (decide (l <= kMaxSliceSize)) as [? | Hgt]; [assumption |].
    exfalso. apply Hno. apply Exists_exists. exists l. split; [exact Hin |].
    lia. }
  assert (Hsum' : u64 (sum_lengths slice_lengths) = value_length).
  { apply dec_stable in Hsum.
    destruct (decide (slice_lengths = [])) as [-> | _]; [| exact Hsum].
    rewrite <- Hsum. reflexivity. }
  destruct Hvalid as (Hn & Hv & Hk).
  destruct (find_key st key) as [metadata |] eqn:Hfind.
  - unfold MasterService.CleanupStaleHandles.
    destruct (bool_decide (cleanup_replicas (replicas metadata) = []))
      eqn:Hstale; simpl; [| discriminate].
    apply bool_decide_eq_true in Hstale.
    destruct (allocate_replicas _ _ _ _) as [new_replicas |];
      [| discriminate].
    intros Heq. injection Heq as <- <-. rewrite Hstale.
    repeat split; assumption.
  - simpl.
    destruct (allocate_replicas _ _ _ _) as [new_replicas |];
      [| discriminate].
    intros Heq. injection Heq as <- <-. repeat split; assumption.
Qed.

Lemma allocate_replicas_statuses
    (Allocate : nat -> nat -> Z -> option AllocatedBuffer)
    (slice_lengths : list Z) (n i : nat) (rs : list Replica) :
  allocate_replicas Allocate i n slice_lengths = Some rs ->
  Forall (fun r => status r = PROCESSING) rs.
Proof.
  intros Hal. apply Forall_lookup. intros k r Hk.
  apply (allocate_replicas_Some _ _ _ _ _ Hal) in Hk. tauto.
Qed.

Lemma HasDiffRepStatus_Some (md : ObjectMetadata) (s s' : ReplicaStatus) :
  replicas md <> [] -> s' <> s ->
  Forall (fun r => status r = s') (replicas md) ->
  HasDiffRepStatus md s = Some s'.
Proof.
  unfold HasDiffRepStatus. destruct (replicas md) as [| r rs]; [congruence |].
  intros _ Hne Hall. apply Forall_cons in Hall as [Hr _]. simpl.
  rewrite bool_decide_eq_false_2 by congruence. simpl. congruence.
Qed.

Lemma store_key_store_key (st : State) (key : string)
    (md md' : ObjectMetadata) :
  (getShardIndex key < length (metadata_shards_ st))%nat ->
  store_key (store_key st key md) key md' = store_key st key md'.
Proof.
  intros Hlt.
  unfold MasterService.store_key, MasterService.set_shards,
    MasterService.shard_of. simpl.
  rewrite list_lookup_insert_eq by exact Hlt. simpl.
  rewrite list_insert_insert_eq, insert_insert_eq. reflexivity.
Qed.

Lemma erase_store_key (st : State) (key : string) (md : ObjectMetadata) :
  (getShardIndex key < length (metadata_shards_ st))%nat ->
  find_key st key = None ->
  erase_key (store_key st key md) key = st.
Proof.
  intros Hlt Hnone.
  unfold MasterService.find_key in Hnone.
  unfold MasterService.erase_key, MasterService.store_key,
    MasterService.set_shards. simpl.
  unfold MasterService.shard_of at 1. simpl.
  rewrite list_lookup_insert_eq by exact Hlt. simpl.
  rewrite list_insert_insert_eq, delete_insert_id by exact Hnone.
  unfold MasterService.shard_of.
  destruct (lookup_lt_is_Some_2 _ _ Hlt) as [shard Hshard].
  rewrite Hshard. simpl. rewrite list_insert_id by exact Hshard.
  destruct st; reflexivity.
Qed.

(** X1: [PutStart] answers [INVALID_PARAMS] exactly when [replica_num] is
    0, [value_length] is 0, the key is empty, a slice is longer than
    [kMaxSliceSize], or the slice lengths, added as [uint64_t], do not give
    [value_length]; the master state is then as before. *)
Theorem MasterService_PutStart_invalid_params (st : State) (key : string)
    (value_length : Z) (slice_lengths : list Z) (config : ReplicateConfig)
    (Allocate : nat -> nat -> Z -> option AllocatedBuffer) :
  let res := PutStart st key value_length slice_lengths config Allocate in
  (fst res = Unexpected INVALID_PARAMS <->
   replica_num config = 0 \/ value_length = 0 \/ key = EmptyString \/
   Exists (fun l => l > kMaxSliceSize) slice_lengths \/
   u64 (sum_lengths slice_lengths) <> value_length) /\
  (fst res = Unexpected INVALID_PARAMS -> snd res = st).
Proof.
  clear kGCQueueSize.
  cbv zeta.
  destruct (decide (replica_num config = 0 \/ value_length = 0 \/
                    key = EmptyString)) as [Hbad | Hok].
  { unfold MasterService.PutStart. rewrite decide_True by exact Hbad. simpl.
    split; [| reflexivity]. split; [tauto | reflexivity]. }
  destruct (decide (Exists (fun l => l > kMaxSliceSize) slice_lengths))
    as [Hex | Hno].
  { unfold MasterService.PutStart. rewrite decide_False by exact Hok.
    rewrite total_slice_length_spec, decide_True by exact Hex. simpl.
    split; [| reflexivity]. split; [tauto | reflexivity]. }
  destruct (decide (u64 (sum_lengths slice_lengths) = value_length))
    as [Hsum | Hsum].
  - rewrite PutStart_valid; try tauto.
    2:{ apply Forall_forall. intros l Hin.
        destruct (decide (l <= kMaxSliceSize)); [assumption |].
        exfalso. apply Hno. apply Exists_exists. exists l. split; [| lia].
        exact Hin. }
    cbv zeta.
    destruct (find_key st key) as [metadata |].
    + destruct (CleanupStaleHandles metadata) as [[|] metadata']; simpl;
        [destruct (allocate_replicas _ _ _ _) |]; simpl;
        (split; [split; [discriminate | tauto] | discriminate]).
    + simpl. destruct (allocate_replicas _ _ _ _); simpl;
        (split; [split; [discriminate | tauto] | discriminate]).
  - unfold MasterService.PutStart. rewrite decide_False by exact Hok.
    rewrite total_slice_length_spec, decide_False by exact Hno.
    rewrite decide_True.
    + simpl. split; [| reflexivity]. split; [tauto | reflexivity].
    + destruct (decide (slice_lengths = [])) as [-> | _]; [| exact Hsum].
      intros Heq. apply Hsum. rewrite <- Heq. reflexivity.
Qed.

(** X2: [PutStart] of an acceptable request for a key that has no entry.
    Either every handle is granted: the answer has [replica_num] replicas,
    all [PROCESSING], each with one handle per slice, the one the
    allocation strategy gave for that slice; the key's entry holds these
    replicas with size [value_length] and lease timeout 0; the other keys
    and [need_eviction_] are as before.  Or a handle is refused: the answer
    is [NO_AVAILABLE_HANDLE], [need_eviction_] is set, and no entry is
    made. *)
Theorem MasterService_PutStart_new_key (st : State) (key : string)
    (value_length : Z) (slice_lengths : list Z) (config : ReplicateConfig)
    (Allocate : nat -> nat -> Z -> option AllocatedBuffer) :
  replica_num config <> 0 -> value_length <> 0 -> key <> EmptyString ->
  Forall (fun l => l <= kMaxSliceSize) slice_lengths ->
  u64 (sum_lengths slice_lengths) = value_length ->
  (getShardIndex key < length (metadata_shards_ st))%nat ->
  find_key st key = None ->
  let res := PutStart st key value_length slice_lengths config Allocate in
  match fst res with
  | Value rs =>
      length rs = Z.to_nat (replica_num config) /\
      (forall (i : nat) (r : Replica), rs !! i = Some r ->
         status r = PROCESSING /\
         length (handles r) = length slice_lengths /\
         forall (j : nat) (l : Z), slice_lengths !! j = Some l ->
           exists h, Allocate i j l = Some h /\ handles r !! j = Some h) /\
      find_key (snd res) key =
        Some (mkObjectMetadata rs value_length (mkLease 0)) /\
      (forall key', key' <> key ->
         find_key (snd res) key' = find_key st key') /\
      need_eviction_ (snd res) = need_eviction_ st
  | Unexpected e =>
      e = NO_AVAILABLE_HANDLE /\
      need_eviction_ (snd res) = true /\
      metadata_shards_ (snd res) = metadata_shards_ st /\
      exists (i j : nat) (l : Z),
        (i < Z.to_nat (replica_num config))%nat /\
        slice_lengths !! j = Some l /\ Allocate i j l = None
  end.
Proof.
  intros Hn Hv Hk Hall Hsum Hlt Hnone. cbv zeta.
  rewrite PutStart_valid by assumption. cbv zeta. rewrite Hnone. simpl.
  destruct (allocate_replicas Allocate 0 (Z.to_nat (replica_num config))
              slice_lengths) as [rs |] eqn:Hal; simpl.
  - destruct (allocate_replicas_Some _ _ _ _ _ Hal) as [Hlen Hrs].
    split; [exact Hlen |]. split; [exact Hrs |].
    split; [rewrite find_store_key, decide_True by auto; reflexivity |].
    split; [| reflexivity].
    intros key' Hne. rewrite find_store_key, decide_False by auto.
    reflexivity.
  - repeat split.
    destruct (allocate_replicas_None _ _ _ _ Hal) as (i & j & l & H).
    exists i, j, l. exact H.
Qed.

(** X3: [PutStart] of an acceptable request for a key that has an entry
    never puts the new replicas into it.  The entry keeps its size and its
    lease and loses the replicas with an invalid handle; the other keys are
    as before.  The answer is [OBJECT_ALREADY_EXISTS] exactly when a
    replica without invalid handle remains.  Otherwise the request goes on
    to the allocation and, when that succeeds, answers with the new
    replicas, while the entry stays without replicas: [emplace] does not
    replace an entry. *)
Theorem MasterService_PutStart_existing_key (st : State) (key : string)
    (value_length : Z) (slice_lengths : list Z) (config : ReplicateConfig)
    (Allocate : nat -> nat -> Z -> option AllocatedBuffer)
    (metadata : ObjectMetadata) :
  replica_num config <> 0 -> value_length <> 0 -> key <> EmptyString ->
  Forall (fun l => l <= kMaxSliceSize) slice_lengths ->
  u64 (sum_lengths slice_lengths) = value_length ->
  find_key st key = Some metadata ->
  let res := PutStart st key value_length slice_lengths config Allocate in
  find_key (snd res) key =
    Some (mkObjectMetadata
            (List.filter (fun r => negb (has_invalid_handle r))
                         (replicas metadata))
            (size metadata) (lease metadata)) /\
  (forall key', key' <> key -> find_key (snd res) key' = find_key st key') /\
  (fst res = Unexpected OBJECT_ALREADY_EXISTS <->
   exists r, In r (replicas metadata) /\ has_invalid_handle r = false) /\
  (forall rs, fst res = Value rs ->
     length rs = Z.to_nat (replica_num config) /\
     find_key (snd res) key =
       Some (mkObjectMetadata [] (size metadata) (lease metadata))).
Proof.
  intros Hn Hv Hk Hall Hsum Hfind. cbv zeta.
  pose proof (find_key_Some_lt _ _ _ Hfind) as Hlt.
  rewrite PutStart_valid by assumption. cbv zeta. rewrite Hfind.
  unfold MasterService.CleanupStaleHandles.
  rewrite cleanup_replicas_filter.
  set (kept := List.filter _ (replicas metadata)).
  assert (Hkept : kept = [] <->
                  ~ exists r, In r (replicas metadata) /\
                              has_invalid_handle r = false).
  { split.
    - intros Hnil (r & Hin & Hvalid).
      assert (Hr : In r kept)
        by (apply filter_In; split; [exact Hin | rewrite Hvalid; reflexivity]).
      rewrite Hnil in Hr. exact Hr.
    - intros Hnone. destruct kept as [| r rest] eqn:Hk'; [reflexivity |].
      exfalso. apply Hnone. exists r.
      assert (Hr : In r kept) by (rewrite Hk'; left; reflexivity).
      apply filter_In in Hr as [Hin Hvalid]. split; [exact Hin |].
      destruct (MasterService.has_invalid_handle invalid r);
        [discriminate | reflexivity]. }
  set (metadata' := mkObjectMetadata kept (size metadata) (lease metadata)).
  assert (Hsame : find_key (store_key st key metadata') key = Some metadata')
    by (rewrite find_store_key, decide_True by auto; reflexivity).
  assert (Hother : forall key', key' <> key ->
            find_key (store_key st key metadata') key' = find_key st key')
    by (intros key' Hne; rewrite find_store_key, decide_False by auto;
        reflexivity).
  destruct (bool_decide (kept = [])) eqn:Hstale; simpl.
  - apply bool_decide_eq_true in Hstale.
    assert (Hno : ~ (exists r, In r (replicas metadata) /\
                               has_invalid_handle r = false))
      by (apply Hkept; exact Hstale).
    destruct (allocate_replicas _ _ _ _) as [rs |] eqn:Hal; simpl.
    + split; [exact Hsame |]. split; [exact Hother |].
      split; [split; [discriminate | tauto] |].
      intros rs' Heq. injection Heq as <-.
      split; [exact (proj1 (allocate_replicas_Some _ _ _ _ _ Hal)) |].
      rewrite Hsame. unfold metadata'. rewrite Hstale. reflexivity.
    + split; [exact Hsame |]. split; [exact Hother |].
      split; [split; [discriminate | tauto] | discriminate].
  - apply bool_decide_eq_false in Hstale.
    split; [exact Hsame |]. split; [exact Hother |].
    split; [| discriminate].
    split; [intros _ | reflexivity].
    destruct (decide (kept = [])) as [Hnil | _]; [contradiction |].
    destruct kept as [| r rest] eqn:Hk'; [congruence |].
    exists r.
    assert (Hr : In r (List.filter (fun r => negb (has_invalid_handle r))
                                   (replicas metadata)))
      by (fold kept; rewrite Hk'; left; reflexivity).
    apply filter_In in Hr as [Hin Hvalid]. split; [exact Hin |].
    destruct (MasterService.has_invalid_handle invalid r);
      [discriminate | reflexivity].
Qed.

Lemma Forall_status_mark_complete (rs : list Replica) :
  Forall (fun r => status r = COMPLETE) (map mark_complete rs).
Proof.
  induction rs as [| r rs IH]; simpl; constructor; [reflexivity | exact IH].
Qed.

(** X4: the life of a new object.  After a [PutStart] that made the entry,
    [GetReplicaList] and [ExistKey] answer [REPLICA_IS_NOT_READY] and
    [Remove] refuses, at any time; [PutEnd] succeeds, and from then on
    [GetReplicaList] gives the replicas of [PutStart], completed,
    [ExistKey] gives true and [PutRevoke] answers [INVALID_WRITE]. *)
Theorem MasterService_put_lifecycle (st st1 : State) (key : string)
    (value_length : Z) (slice_lengths : list Z) (config : ReplicateConfig)
    (Allocate : nat -> nat -> Z -> option AllocatedBuffer)
    (rs : list Replica) (now now1 now2 : Z) :
  (getShardIndex key < length (metadata_shards_ st))%nat ->
  0 <= replica_num config ->
  find_key st key = None ->
  PutStart st key value_length slice_lengths config Allocate
    = (Value rs, st1) ->
  GetReplicaList st1 now key = (Unexpected REPLICA_IS_NOT_READY, st1) /\
  ExistKey st1 now key = (Unexpected REPLICA_IS_NOT_READY, st1) /\
  (exists e, Remove st1 now key = (Unexpected e, st1)) /\
  exists st2,
    PutEnd st1 now1 key = (Value tt, st2) /\
    fst (GetReplicaList st2 now2 key) = Value (map mark_complete rs) /\
    fst (ExistKey st2 now2 key) = Value true /\
    PutRevoke st2 key = (Unexpected INVALID_WRITE, st2).
Proof.
  intros Hlt Hpos Hnone Hput.
  destruct (PutStart_Value _ _ _ _ _ _ _ _ Hput)
    as (Hn & _ & _ & _ & _ & Hal & Hst1).
  rewrite Hnone in Hst1.
  assert (Hrs : rs <> []).
  { destruct (allocate_replicas_Some _ _ _ _ _ Hal) as [Hlen _].
    intros ->. simpl in Hlen. lia. }
  assert (Hproc : Forall (fun r => status r = PROCESSING) rs)
    by exact (allocate_replicas_statuses _ _ _ _ _ Hal).
  set (md := mkObjectMetadata rs value_length (mkLease 0)) in *.
  assert (Hfind1 : find_key st1 key = Some md)
    by (rewrite Hst1, find_store_key, decide_True by auto; reflexivity).
  assert (Hdiff : HasDiffRepStatus md COMPLETE = Some PROCESSING)
    by (apply HasDiffRepStatus_Some; [exact Hrs | discriminate | exact Hproc]).
  split.
  { unfold MasterService.GetReplicaList. rewrite Hfind1, Hdiff. reflexivity. }
  split.
  { unfold MasterService.ExistKey. rewrite Hfind1, Hdiff. reflexivity. }
  split.
  { unfold MasterService.Remove. rewrite Hfind1, Hdiff.
    destruct (negb _); eexists; reflexivity. }
  unfold MasterService.PutEnd. rewrite Hfind1. eexists. split; [reflexivity |].
  set (md2 := grant now1 0 _).
  assert (Hlt1 : (getShardIndex key < length (metadata_shards_ st1))%nat)
    by (rewrite Hst1, length_store_key; exact Hlt).
  assert (Hfind2 : find_key (store_key st1 key md2) key = Some md2)
    by (rewrite find_store_key, decide_True by auto; reflexivity).
  assert (Hrep2 : replicas md2 = map mark_complete rs) by reflexivity.
  assert (Hcomplete : HasDiffRepStatus md2 COMPLETE = None).
  { apply HasDiffRepStatus_None. rewrite Hrep2.
    apply Forall_status_mark_complete. }
  split.
  { unfold MasterService.GetReplicaList. rewrite Hfind2, Hcomplete.
    destruct enable_gc_; reflexivity. }
  split.
  { unfold MasterService.ExistKey. rewrite Hfind2, Hcomplete. reflexivity. }
  unfold MasterService.PutRevoke. rewrite Hfind2.
  rewrite (HasDiffRepStatus_Some md2 PROCESSING COMPLETE).
  - reflexivity.
  - rewrite Hrep2. destruct rs; [congruence | discriminate].
  - discriminate.
  - rewrite Hrep2. apply Forall_status_mark_complete.
Qed.

(** X5: [PutRevoke] right after the [PutStart] that made the entry
    succeeds and gives back the master state from before the [PutStart]:
    shards, [need_eviction_] and GC queue. *)
Theorem MasterService_PutRevoke_undoes_PutStart (st st1 : State)
    (key : string) (value_length : Z) (slice_lengths : list Z)
    (config : ReplicateConfig)
    (Allocate : nat -> nat -> Z -> option AllocatedBuffer)
    (rs : list Replica) :
  (getShardIndex key < length (metadata_shards_ st))%nat ->
  find_key st key = None ->
  PutStart st key value_length slice_lengths config Allocate
    = (Value rs, st1) ->
  PutRevoke st1 key = (Value tt, st).
Proof.
  intros Hlt Hnone Hput.
  destruct (PutStart_Value _ _ _ _ _ _ _ _ Hput)
    as (_ & _ & _ & _ & _ & Hal & Hst1).
  rewrite Hnone in Hst1.
  unfold MasterService.PutRevoke.
  rewrite Hst1, find_store_key, decide_True by auto.
  rewrite (proj2 (HasDiffRepStatus_None _ PROCESSING))
    by exact (allocate_replicas_statuses _ _ _ _ _ Hal).
  rewrite erase_store_key by assumption. reflexivity.
Qed.

(** X6: [Remove] succeeds exactly when the key has an entry whose lease
    has expired and whose replicas are all [COMPLETE]; the lease is looked
    at before the replicas.  On success the key has no entry and the other
    keys are as before; on any error the master state is as before. *)
Theorem MasterService_Remove_spec (st : State) (now : Z) (key : string) :
  let res := Remove st now key in
  (fst res = Value tt <->
   exists metadata,
     find_key st key = Some metadata /\
     lease_timeout (lease metadata) <= now /\
     Forall (fun r => status r = COMPLETE) (replicas metadata)) /\
  (fst res = Value tt ->
   find_key (snd res) key = None /\
   forall key', key' <> key -> find_key (snd res) key' = find_key st key') /\
  (forall e, fst res = Unexpected e ->
     snd res = st /\
     (e = OBJECT_NOT_FOUND <-> find_key st key = None) /\
     (e = OBJECT_HAS_LEASE <->
      exists metadata, find_key st key = Some metadata /\
                       now < lease_timeout (lease metadata))).
Proof.
  cbv zeta. unfold MasterService.Remove.
  destruct (find_key st key) as [metadata |] eqn:Hfind.
  2:{ simpl. split; [split; [discriminate | intros (? & ? & _); discriminate] |].
      split; [discriminate |]. intros e He. injection He as <-.
      split; [reflexivity |]. split; [tauto |].
      split; [discriminate | intros (? & ? & _); discriminate]. }
  pose proof (find_key_Some_lt _ _ _ Hfind) as Hlt.
  unfold IsLeaseExpired.
  destruct (decide (lease_timeout (lease metadata) <= now)) as [Hexp | Hlive].
  - rewrite bool_decide_eq_true_2 by exact Hexp. simpl.
    destruct (HasDiffRepStatus metadata COMPLETE) as [s |] eqn:Hdiff; simpl.
    + split.
      { split; [discriminate |]. intros (md & Heq & _ & Hall).
        injection Heq as <-. apply HasDiffRepStatus_None in Hall. congruence. }
      split; [discriminate |]. intros e He. injection He as <-.
      split; [reflexivity |]. split; [split; discriminate |].
      split; [discriminate |]. intros (md & Heq & Hlive).
      injection Heq as <-. lia.
    + split.
      { split; [| reflexivity]. intros _. exists metadata.
        split; [reflexivity |]. split; [exact Hexp |].
        apply HasDiffRepStatus_None. exact Hdiff. }
      split; [| discriminate]. intros _.
      split; [rewrite find_erase_key, decide_True by auto; reflexivity |].
      intros key' Hne. rewrite find_erase_key, decide_False by auto.
      reflexivity.
  - rewrite bool_decide_eq_false_2 by exact Hlive. simpl.
    split.
    { split; [discriminate |]. intros (md & Heq & Hexp & _).
      injection Heq as <-. contradiction. }
    split; [discriminate |]. intros e He. injection He as <-.
    split; [reflexivity |]. split; [split; discriminate |].
    split; [| reflexivity]. intros _. exists metadata.
    split; [reflexivity | lia].
Qed.

(** *** Sweeps over the shards *)

Lemma erase_loop_lookup (cond : ObjectMetadata -> bool)
    (entries : list (string * ObjectMetadata)) :
  forall (shard : gmap string ObjectMetadata) (count : Z) (key : string),
  fst (erase_loop cond entries shard count) !! key =
  if existsb (fun e => bool_decide (fst e = key) && cond (snd e)) entries
  then None else shard !! key.
Proof.
  induction entries as [| [k md] rest IH]; intros shard count key; simpl.
  - reflexivity.
  - destruct (cond md) eqn:Hcond; rewrite IH.
    + destruct (existsb _ rest); [rewrite orb_true_r; reflexivity |].
      rewrite orb_false_r, andb_true_r.
      destruct (decide (k = key)) as [-> | Hne].
      * rewrite bool_decide_eq_true_2 by reflexivity. apply lookup_delete_eq.
      * rewrite bool_decide_eq_false_2 by exact Hne.
        apply lookup_delete_ne. exact Hne.
    + rewrite andb_false_r. reflexivity.
Qed.

Lemma erase_loop_map_to_list (cond : ObjectMetadata -> bool)
    (shard : gmap string ObjectMetadata) (count : Z) (key : string) :
  fst (erase_loop cond (map_to_list shard) shard count) !! key =
  match shard !! key with
  | Some metadata => if cond metadata then None else Some metadata
  | None => None
  end.
Proof.
  rewrite erase_loop_lookup.
  destruct (existsb _ _) eqn:Hex.
  - apply existsb_exists in Hex as ([k md] & Hin & Hc). simpl in Hc.
    apply andb_true_iff in Hc as [Hk Hc]. apply bool_decide_eq_true in Hk.
    subst k. apply list_elem_of_In, elem_of_map_to_list in Hin.
    rewrite Hin, Hc. reflexivity.
  - destruct (shard !! key) as [md |] eqn:Hlook; [| reflexivity].
    destruct (cond md) eqn:Hc; [| reflexivity].
    exfalso. apply not_true_iff_false in Hex. apply Hex.
    apply existsb_exists. exists (key, md). split.
    + apply list_elem_of_In, elem_of_map_to_list. exact Hlook.
    + simpl. rewrite bool_decide_eq_true_2 by reflexivity. exact Hc.
Qed.

(** The count grows by the number of entries that leave the shard. *)
Lemma erase_loop_count (cond : ObjectMetadata -> bool)
    (entries : list (string * ObjectMetadata)) :
  forall (shard : gmap string ObjectMetadata) (count : Z),
  NoDup (entries.*1) ->
  (forall e, e ∈ entries -> is_Some (shard !! fst e)) ->
  snd (erase_loop cond entries shard count) - count =
  Z.of_nat (base.size shard) -
  Z.of_nat (base.size (fst (erase_loop cond entries shard count))).
Proof.
  induction entries as [| [k md] rest IH]; intros shard count Hnd Hin.
  - simpl. lia.
  - rewrite fmap_cons in Hnd. apply NoDup_cons in Hnd as [Hk Hnd].
    cbn [MasterService.erase_loop]. simpl in Hk.
    destruct (cond md).
    + destruct (Hin (k, md)) as [x Hx]; [left |]. simpl in Hx.
      assert (Hrest : forall e, e ∈ rest ->
                is_Some (delete k shard !! fst e)).
      { intros e He. rewrite lookup_delete_ne.
        { apply Hin. right. exact He. }
        intros Heq. apply Hk. rewrite Heq.
        apply list_elem_of_fmap. exists e. split; [reflexivity | exact He]. }
      pose proof (IH (delete k shard) (count + 1) Hnd Hrest) as Hcount.
      rewrite map_size_delete_Some in Hcount by eauto.
      assert (base.size shard <> 0)%nat
        by (apply map_size_ne_0_lookup_2 with k; eauto).
      lia.
    + apply IH; [exact Hnd |]. intros e He. apply Hin. right. exact He.
Qed.

Lemma erase_loop_count_map_to_list (cond : ObjectMetadata -> bool)
    (shard : gmap string ObjectMetadata) (count : Z) :
  snd (erase_loop cond (map_to_list shard) shard count) =
  count + Z.of_nat (base.size shard) -
  Z.of_nat (base.size (fst (erase_loop cond (map_to_list shard) shard count))).
Proof.
  pose proof (erase_loop_count cond (map_to_list shard) shard count
                (NoDup_fst_map_to_list shard)) as H.
  assert (Hsize : snd (erase_loop cond (map_to_list shard) shard count)
                  - count =
                  Z.of_nat (base.size shard) -
                  Z.of_nat (base.size (fst (erase_loop cond
                              (map_to_list shard) shard count)))); [| lia].
  apply H. intros [k md] He. apply elem_of_map_to_list in He. simpl. eauto.
Qed.

(** The number of keys [GetAllKeys] lists. *)
Lemma length_GetAllKeys_cons (shard : gmap string ObjectMetadata)
    (shards : list (gmap string ObjectMetadata)) (b : bool)
    (q : list GCTask) :
  length (GetAllKeys (mkState (shard :: shards) b q)) =
  (base.size shard + length (GetAllKeys (mkState shards b q)))%nat.
Proof.
  unfold GetAllKeys. simpl.
  rewrite length_app, length_map, length_map_to_list. reflexivity.
Qed.

Lemma RemoveAll_shards_spec (now : Z)
    (shards : list (gmap string ObjectMetadata)) :
  forall (removed_count : Z) (b : bool) (q : list GCTask),
  let res := RemoveAll_shards now shards removed_count in
  length (fst res) = length shards /\
  (forall (i : nat) (key : string),
     default ∅ (fst res !! i) !! key =
     match default ∅ (shards !! i) !! key with
     | Some metadata =>
         if IsLeaseExpired now (lease metadata) then None else Some metadata
     | None => None
     end) /\
  snd res = removed_count +
            Z.of_nat (length (GetAllKeys (mkState shards b q))) -
            Z.of_nat (length (GetAllKeys (mkState (fst res) b q))).
Proof.
  induction shards as [| shard rest IH]; intros c b q; cbv zeta.
  - simpl. split; [reflexivity |]. split; [| unfold GetAllKeys; simpl; lia].
    intros i key. rewrite lookup_empty. reflexivity.
  - cbn [MasterService.RemoveAll_shards].
    destruct (erase_loop _ (map_to_list shard) shard c)
      as [shard' c1] eqn:Hloop.
    specialize (IH c1 b q). cbv zeta in IH.
    destruct (RemoveAll_shards now rest c1) as [rest' c2] eqn:Hrest.
    simpl in IH. destruct IH as (Hlen & Hlook & Hcount). simpl.
    split; [congruence |]. split.
    + intros [| i] key; simpl; [| apply Hlook].
      change shard' with (fst (shard', c1)). rewrite <- Hloop.
      apply erase_loop_map_to_list.
    + rewrite !length_GetAllKeys_cons, Hcount.
      pose proof (erase_loop_count_map_to_list
                    (fun metadata => IsLeaseExpired now (lease metadata))
                    shard c) as Hc.
      rewrite Hloop in Hc. simpl in Hc. lia.
Qed.

Lemma RemoveAll_find_key (st : State) (now : Z) (key : string) :
  find_key (snd (RemoveAll st now)) key =
  match find_key st key with
  | Some metadata =>
      if bool_decide (lease_timeout (lease metadata) <= now) then None
      else Some metadata
  | None => None
  end.
Proof.
  unfold MasterService.RemoveAll.
  pose proof (RemoveAll_shards_spec now (metadata_shards_ st) 0
                (need_eviction_ st) (gc_queue_ st)) as H.
  cbv zeta in H.
  destruct (RemoveAll_shards now (metadata_shards_ st) 0) as [shards n].
  simpl in *. destruct H as (_ & Hlook & _). apply Hlook.
Qed.

(** X8: [RemoveAll] erases exactly the entries whose lease has expired,
    whatever the status of their replicas, keeps the others as they are,
    and returns the number of keys that have gone. *)
Theorem MasterService_RemoveAll_spec (st : State) (now : Z) :
  let res := RemoveAll st now in
  (forall key,
     find_key (snd res) key =
     match find_key st key with
     | Some metadata =>
         if bool_decide (lease_timeout (lease metadata) <= now) then None
         else Some metadata
     | None => None
     end) /\
  fst res = Z.of_nat (length (GetAllKeys st)) -
            Z.of_nat (length (GetAllKeys (snd res))) /\
  length (metadata_shards_ (snd res)) = length (metadata_shards_ st) /\
  need_eviction_ (snd res) = need_eviction_ st /\
  gc_queue_ (snd res) = gc_queue_ st.
Proof.
  cbv zeta. split; [apply RemoveAll_find_key |].
  unfold MasterService.RemoveAll.
  pose proof (RemoveAll_shards_spec now (metadata_shards_ st) 0
                (need_eviction_ st) (gc_queue_ st)) as H.
  cbv zeta in H.
  destruct (RemoveAll_shards now (metadata_shards_ st) 0) as [shards n].
  simpl in *. destruct H as (Hlen & _ & Hcount).
  split; [| auto].
  rewrite Hcount. unfold MasterService.set_shards.
  destruct st; simpl. lia.
Qed.

Lemma cleanup_replicas_id (rs : list Replica) :
  existsb has_invalid_handle rs = false -> cleanup_replicas rs = rs.
Proof.
  induction rs as [| r rs IH]; simpl; [reflexivity |].
  intros H. apply orb_false_iff in H as [Hr Hrs]. rewrite Hr, IH by exact Hrs.
  reflexivity.
Qed.

(** X10: the sweep [ClearInvalidHandles] erases exactly the objects in
    which some replica has an invalid handle, and the objects without
    replicas; an object with a valid replica next to an invalid one goes
    as a whole.  The objects that stay are unchanged. *)
Theorem MasterService_ClearInvalidHandles_spec (st : State) (key : string) :
  find_key (ClearInvalidHandles invalid st) key =
  match find_key st key with
  | Some metadata =>
      if existsb has_invalid_handle (replicas metadata) ||
         bool_decide (replicas metadata = [])
      then None else Some metadata
  | None => None
  end.
Proof.
  unfold MasterService.find_key, MasterService.shard_of,
    MasterService.ClearInvalidHandles. simpl.
  rewrite list_lookup_fmap.
  destruct (metadata_shards_ st !! getShardIndex key) as [shard |]; simpl.
  2:{ rewrite lookup_empty. reflexivity. }
  rewrite lookup_fmap, erase_loop_map_to_list.
  destruct (shard !! key) as [metadata |]; [| reflexivity].
  unfold MasterService.to_clear, MasterService.CleanupStaleHandles. simpl.
  destruct (existsb _ (replicas metadata)) eqn:Hinv; simpl; [reflexivity |].
  rewrite cleanup_replicas_id by exact Hinv.
  destruct (bool_decide (replicas metadata = [])); simpl; [reflexivity |].
  rewrite cleanup_replicas_id by exact Hinv.
  destruct metadata; reflexivity.
Qed.

(** *** Eviction *)

Lemma evicted_from_refl (now : Z) (shard : gmap string ObjectMetadata) :
  evicted_from now shard shard.
Proof. intros key. left. reflexivity. Qed.

Lemma evicted_from_trans (now : Z) (m0 m1 m2 : gmap string ObjectMetadata) :
  evicted_from now m0 m1 -> evicted_from now m1 m2 -> evicted_from now m0 m2.
Proof.
  intros H01 H12 key.
  destruct (H12 key) as [Heq | (Hnone & md & Hmd & Hev)].
  - rewrite Heq. apply H01.
  - right. split; [exact Hnone |]. exists md. split; [| exact Hev].
    destruct (H01 key) as [Heq | (Hnone' & _)]; congruence.
Qed.

Lemma evict_loop_spec (now target_timeout evict_num : Z)
    (shard0 : gmap string ObjectMetadata)
    (entries : list (string * ObjectMetadata)) :
  target_timeout <= now ->
  (forall e, e ∈ entries -> shard0 !! fst e = Some (snd e)) ->
  forall (shard : gmap string ObjectMetadata) (count : Z),
  evicted_from now shard0 shard ->
  let res := evict_loop target_timeout evict_num entries shard count in
  evicted_from now shard0 (fst res) /\
  count <= snd res /\
  (snd res = count -> fst res = shard).
Proof.
  intros Htarget. induction entries as [| [k md] rest IH];
    intros Hentries shard count Hinv; cbv zeta.
  - simpl. split; [exact Hinv |]. split; [lia | reflexivity].
  - cbn [MasterService.evict_loop].
    assert (Hrest : forall e, e ∈ rest -> shard0 !! fst e = Some (snd e))
      by (intros e He; apply Hentries; right; exact He).
    destruct (decide (count < evict_num)) as [_ | _];
      [| simpl; split; [exact Hinv |]; split; [lia | reflexivity]].
    destruct (bool_decide (lease_timeout (lease md) <= target_timeout) &&
              bool_decide (HasDiffRepStatus md COMPLETE = None)) eqn:Hc.
    + apply andb_true_iff in Hc as [Ht Hs].
      apply bool_decide_eq_true in Ht.
      assert (Hstep : evicted_from now shard0 (delete k shard)).
      { intros key. destruct (decide (key = k)) as [-> | Hne].
        - right. split; [apply lookup_delete_eq |]. exists md.
          split; [exact (Hentries (k, md) ltac:(left)) |].
          unfold evictable, IsLeaseExpired.
          rewrite bool_decide_eq_true_2 by lia. exact Hs.
        - rewrite lookup_delete_ne by congruence. apply Hinv. }
      specialize (IH Hrest (delete k shard) (count + 1) Hstep).
      cbv zeta in IH. destruct IH as (H1 & H2 & _).
      split; [exact H1 |]. split; [lia |]. intros Heq. lia.
    + exact (IH Hrest shard count Hinv).
Qed.

Lemma nth_merge_sort_bound (now : Z) (candidates : list Z) (n : nat) :
  Forall (fun t => t <= now) candidates ->
  (n < length candidates)%nat ->
  nth n (merge_sort Z.le candidates) 0 <= now.
Proof.
  intros Hall Hn.
  assert (Hperm : merge_sort Z.le candidates ≡ₚ candidates)
    by apply merge_sort_Permutation.
  rewrite <- Hperm in Hall.
  assert (Hlen : (n < length (merge_sort Z.le candidates))%nat)
    by (rewrite Hperm; exact Hn).
  destruct (lookup_lt_is_Some_2 _ _ Hlen) as [t Ht].
  rewrite (nth_lookup_Some _ _ _ _ Ht).
  exact (proj1 (Forall_lookup _ _) Hall n t Ht).
Qed.

Lemma evict_shard_spec (ceil_ratio : Z -> Z) (now : Z)
    (shard : gmap string ObjectMetadata) (evicted_count object_count : Z) :
  let res := evict_shard ceil_ratio now shard evicted_count object_count in
  evicted_from now shard (fst (fst res)) /\
  evicted_count <= snd (fst res) /\
  (snd (fst res) = evicted_count -> fst (fst res) = shard).
Proof.
  cbv zeta. unfold MasterService.evict_shard.
  set (ideal := ceil_ratio _ - evicted_count).
  destruct (decide (ideal <= 0)) as [_ | Hideal].
  { simpl. split; [apply evicted_from_refl |]. split; [lia | reflexivity]. }
  set (selected := filter (fun e => evictable now (snd e) = true)
                          (map_to_list shard)).
  set (candidates := map _ selected).
  assert (Hcand : Forall (fun t => t <= now) candidates).
  { apply Forall_forall. intros t Ht.
    apply list_elem_of_fmap in Ht as (e & -> & He).
    apply list_elem_of_filter in He as [Hev _].
    unfold evictable, IsLeaseExpired in Hev.
    apply andb_true_iff in Hev as [Hexp _].
    apply bool_decide_eq_true in Hexp. exact Hexp. }
  destruct candidates as [| c0 cs] eqn:Hcs.
  { simpl. split; [apply evicted_from_refl |]. split; [lia | reflexivity]. }
  rewrite <- Hcs in *.
  set (evict_num := Z.min ideal (Z.of_nat (length candidates))).
  set (target := nth _ _ 0).
  assert (Htarget : target <= now).
  { apply nth_merge_sort_bound; [exact Hcand |].
    assert (0 < length candidates)%nat by (rewrite Hcs; simpl; lia).
    unfold evict_num. lia. }
  pose proof (evict_loop_spec now target evict_num shard (map_to_list shard)
                Htarget) as Hloop.
  specialize (Hloop ltac:(intros [k md] He;
                          apply elem_of_map_to_list in He; exact He)
                    shard 0 (evicted_from_refl now shard)).
  cbv zeta in Hloop.
  destruct (evict_loop target evict_num (map_to_list shard) shard 0)
    as [shard' n]. simpl in *. destruct Hloop as (H1 & H2 & H3).
  split; [exact H1 |]. split; [lia |]. intros Heq. apply H3. lia.
Qed.

Lemma BatchEvict_loop_spec (ceil_ratio : Z -> Z) (now : Z) (start_idx : nat)
    (indices : list nat) :
  forall (shards : list (gmap string ObjectMetadata))
         (evicted_count object_count : Z),
  let res := BatchEvict_loop ceil_ratio now start_idx indices shards
               evicted_count object_count in
  length (fst (fst res)) = length shards /\
  (forall i, evicted_from now (default ∅ (shards !! i))
                          (default ∅ (fst (fst res) !! i))) /\
  evicted_count <= snd (fst res) /\
  (snd (fst res) = evicted_count -> fst (fst res) = shards).
Proof.
  induction indices as [| i rest IH]; intros shards ec oc; cbv zeta.
  - simpl. split; [reflexivity |].
    split; [intros i; apply evicted_from_refl |]. split; [lia | reflexivity].
  - cbn [MasterService.BatchEvict_loop].
    set (idx := ((start_idx + i) mod length shards)%nat).
    pose proof (evict_shard_spec ceil_ratio now (default ∅ (shards !! idx))
                  ec oc) as Hshard. cbv zeta in Hshard.
    destruct (evict_shard ceil_ratio now (default ∅ (shards !! idx)) ec oc)
      as [[shard' ec1] oc1]. simpl in Hshard.
    destruct Hshard as (Hev & Hle & Hsame).
    specialize (IH (<[idx := shard']> shards) ec1 oc1). cbv zeta in IH.
    destruct (BatchEvict_loop ceil_ratio now start_idx rest
                (<[idx := shard']> shards) ec1 oc1) as [[shards' ec2] oc2].
    simpl in *. destruct IH as (Hlen & Hall & Hle2 & Hsame2).
    rewrite length_insert in Hlen.
    split; [exact Hlen |]. split; [| split; [lia |]].
    + intros j. apply evicted_from_trans with
        (default ∅ (<[idx := shard']> shards !! j)); [| apply Hall].
      destruct (decide (j = idx)) as [-> | Hne].
      * destruct (decide (idx < length shards)%nat) as [Hlt | Hge].
        { rewrite list_lookup_insert_eq by exact Hlt. exact Hev. }
        rewrite list_insert_ge by lia. apply evicted_from_refl.
      * rewrite list_lookup_insert_ne by congruence. apply evicted_from_refl.
    + intros Heq. assert (ec1 = ec) by lia. subst ec1.
      rewrite Hsame2 by lia. rewrite Hsame by reflexivity.
      destruct (shards !! idx) as [shard |] eqn:Hlook; simpl.
      * apply list_insert_id. exact Hlook.
      * apply list_insert_ge. apply lookup_ge_None. exact Hlook.
Qed.

Lemma BatchEvict_shards (ceil_ratio : Z -> Z) (st : State) (now : Z)
    (rand_value : nat) :
  let st' := BatchEvict ceil_ratio st now rand_value in
  length (metadata_shards_ st') = length (metadata_shards_ st) /\
  (forall i, evicted_from now (default ∅ (metadata_shards_ st !! i))
                          (default ∅ (metadata_shards_ st' !! i))) /\
  (need_eviction_ st' = true ->
   need_eviction_ st = true /\ metadata_shards_ st' = metadata_shards_ st) /\
  gc_queue_ st' = gc_queue_ st.
Proof.
  cbv zeta. unfold MasterService.BatchEvict.
  pose proof (BatchEvict_loop_spec ceil_ratio now
                (rand_value mod length (metadata_shards_ st))
                (seq 0 (length (metadata_shards_ st)))
                (metadata_shards_ st) 0 0) as H.
  cbv zeta in H.
  destruct (BatchEvict_loop _ _ _ _ _ _ _) as [[shards ec] oc].
  simpl in H. destruct H as (Hlen & Hall & Hle & Hsame).
  destruct (decide (ec > 0)) as [Hpos | Hzero]; simpl.
  - split; [exact Hlen |]. split; [exact Hall |].
    split; [discriminate | reflexivity].
  - destruct (decide (oc = 0)); simpl.
    + split; [exact Hlen |]. split; [exact Hall |].
      split; [discriminate | reflexivity].
    + split; [exact Hlen |]. split; [exact Hall |].
      split; [| reflexivity]. intros Hflag. split; [exact Hflag |].
      apply Hsame. lia.
Qed.

Lemma BatchEvict_find_key (ceil_ratio : Z -> Z) (st : State) (now : Z)
    (rand_value : nat) (key : string) :
  let st' := BatchEvict ceil_ratio st now rand_value in
  find_key st' key = find_key st key \/
  (find_key st' key = None /\
   exists metadata,
     find_key st key = Some metadata /\
     lease_timeout (lease metadata) <= now /\
     Forall (fun r => status r = COMPLETE) (replicas metadata)).
Proof.
  cbv zeta.
  destruct (BatchEvict_shards ceil_ratio st now rand_value)
    as (_ & Hall & _).
  unfold MasterService.find_key, MasterService.shard_of.
  destruct (Hall (getShardIndex key) key)
    as [Heq | (Hnone & md & Hmd & Hev)]; [left; exact Heq | right].
  split; [exact Hnone |]. exists md. split; [exact Hmd |].
  unfold evictable, IsLeaseExpired in Hev.
  apply andb_true_iff in Hev as [Hexp Hst].
  apply bool_decide_eq_true in Hexp. apply bool_decide_eq_true in Hst.
  split; [exact Hexp |]. apply HasDiffRepStatus_None. exact Hst.
Qed.

(** X9: [BatchEvict] only ever erases objects whose lease has expired at
    the time of the call and whose replicas are all [COMPLETE]; every
    other entry is as before.  It never sets [need_eviction_], and leaves
    it set only when it has erased nothing; the GC queue is as before. *)
Theorem MasterService_BatchEvict_safe (ceil_ratio : Z -> Z) (st : State)
    (now : Z) (rand_value : nat) :
  let st' := BatchEvict ceil_ratio st now rand_value in
  (forall key,
     find_key st' key = find_key st key \/
     (find_key st' key = None /\
      exists metadata,
        find_key st key = Some metadata /\
        lease_timeout (lease metadata) <= now /\
        Forall (fun r => status r = COMPLETE) (replicas metadata))) /\
  length (metadata_shards_ st') = length (metadata_shards_ st) /\
  (need_eviction_ st' = true ->
   need_eviction_ st = true /\ metadata_shards_ st' = metadata_shards_ st) /\
  gc_queue_ st' = gc_queue_ st.
Proof.
  cbv zeta.
  destruct (BatchEvict_shards ceil_ratio st now rand_value)
    as (Hlen & _ & Hflag & Hq).
  split; [intros key; apply BatchEvict_find_key |].
  split; [exact Hlen |]. split; [exact Hflag | exact Hq].
Qed.

(** X7: a lease protects an object.  After [ExistKey] has answered true,
    or [GetReplicaList] (without GC) has answered with the replicas, at
    time [now], the object stays for [default_kv_lease_ttl_]: at any
    earlier time [Remove] answers [OBJECT_HAS_LEASE], and neither
    [RemoveAll] nor [BatchEvict] erases the key. *)
Theorem MasterService_lease_protects (ceil_ratio : Z -> Z) (st st1 : State)
    (now now' : Z) (key : string) (rand_value : nat) :
  now' < now + default_kv_lease_ttl_ ->
  ExistKey st now key = (Value true, st1) \/
  (exists rs,
     MasterService.GetReplicaList getShardIndex false default_kv_lease_ttl_
       kGCQueueSize st now key = (Value rs, st1)) ->
  exists metadata,
    find_key st1 key = Some metadata /\
    Remove st1 now' key = (Unexpected OBJECT_HAS_LEASE, st1) /\
    find_key (snd (RemoveAll st1 now')) key = Some metadata /\
    find_key (BatchEvict ceil_ratio st1 now' rand_value) key = Some metadata.
Proof.
  intros Hnow Hop.
  assert (Hst1 : exists md, find_key st key = Some md /\
            st1 = store_key st key (grant now default_kv_lease_ttl_ md)).
  { destruct Hop as [Hex | [rs Hget]].
    - unfold MasterService.ExistKey in Hex.
      destruct (find_key st key) as [md |]; [| discriminate].
      destruct (HasDiffRepStatus md COMPLETE); [discriminate |].
      injection Hex as <-. eauto.
    - unfold MasterService.GetReplicaList in Hget.
      destruct (find_key st key) as [md |]; [| discriminate].
      destruct (HasDiffRepStatus md COMPLETE); [discriminate |].
      injection Hget as _ <-. eauto. }
  destruct Hst1 as (md & Hmd & ->).
  pose proof (find_key_Some_lt _ _ _ Hmd) as Hlt.
  set (md1 := grant now default_kv_lease_ttl_ md).
  assert (Hfind : find_key (store_key st key md1) key = Some md1)
    by (rewrite find_store_key, decide_True by auto; reflexivity).
  assert (Hlive : now' < lease_timeout (lease md1))
    by (unfold md1, grant, GrantLease; simpl; lia).
  exists md1. split; [exact Hfind |]. split; [| split].
  - unfold MasterService.Remove. rewrite Hfind. unfold IsLeaseExpired.
    rewrite bool_decide_eq_false_2 by lia. reflexivity.
  - rewrite RemoveAll_find_key, Hfind.
    rewrite bool_decide_eq_false_2 by lia. reflexivity.
  - destruct (BatchEvict_find_key ceil_ratio (store_key st key md1) now'
                rand_value key) as [Heq | (_ & md' & Hmd' & Hexp & _)].
    + rewrite Heq. exact Hfind.
    + rewrite Hfind in Hmd'. injection Hmd' as <-. lia.
Qed.

Lemma BatchPutStart_from_spec (keys : list string) (value_lengths : list Z)
    (slice_lengths : list (list Z)) (config : ReplicateConfig)
    (Allocate : nat -> nat -> nat -> Z -> option AllocatedBuffer) :
  forall (i0 : nat) (st : State),
  let res := BatchPutStart_from invalid kMaxSliceSize getShardIndex i0 st
               keys value_lengths slice_lengths config Allocate in
  length (fst res) = length keys /\
  forall (i : nat) (key : string), keys !! i = Some key ->
    let before :=
      snd (BatchPutStart_from invalid kMaxSliceSize getShardIndex i0 st
             (take i keys) value_lengths slice_lengths config Allocate) in
    fst res !! i =
    Some (match value_lengths !! (i0 + i)%nat,
                slice_lengths !! (i0 + i)%nat with
          | Some value_length, Some lengths =>
              fst (PutStart before key value_length lengths config
                     (Allocate (i0 + i)%nat))
          | _, _ => Unexpected INVALID_PARAMS
          end).
Proof.
  induction keys as [| key0 rest IH]; intros i0 st; cbv zeta.
  - simpl. split; [reflexivity |]. intros i key Hk. discriminate.
  - cbn [MasterService.BatchPutStart_from].
    set (first := match value_lengths !! i0, slice_lengths !! i0 with
                  | Some value_length, Some lengths =>
                      PutStart st key0 value_length lengths config
                        (Allocate i0)
                  | _, _ => (Unexpected INVALID_PARAMS, st)
                  end).
    destruct first as [result st1] eqn:Hfirst.
    specialize (IH (S i0) st1). cbv zeta in IH.
    destruct (BatchPutStart_from _ _ _ (S i0) st1 rest _ _ _ _)
      as [results st2] eqn:Hrest.
    simpl in IH. destruct IH as [Hlen Hslots]. simpl.
    split; [congruence |].
    intros [| i] key Hk; simpl in Hk.
    + injection Hk as <-. simpl. rewrite Nat.add_0_r. f_equal.
      unfold first in Hfirst.
      destruct (value_lengths !! i0), (slice_lengths !! i0);
        try (injection Hfirst as <- _; reflexivity).
      rewrite Hfirst. reflexivity.
    + simpl. cbn [MasterService.BatchPutStart_from].
      fold first. rewrite Hfirst.
      specialize (Hslots i key Hk).
      replace (i0 + S i)%nat with (S i0 + i)%nat by lia.
      destruct (BatchPutStart_from _ _ _ (S i0) st1 (take i rest) _ _ _ _)
        as [results' st'] eqn:Hpre.
      simpl in *. exact Hslots.
Qed.

(** X11: [BatchPutStart] answers with one result per key, in order.  The
    result for key [i] is [INVALID_PARAMS] when [value_lengths] or
    [slice_lengths] has no element [i]; otherwise it is the result of
    [PutStart] for that key on the master state the keys before it have
    left, a failed key holding up none of the later ones. *)
Theorem MasterService_BatchPutStart_spec (st : State) (keys : list string)
    (value_lengths : list Z) (slice_lengths : list (list Z))
    (config : ReplicateConfig)
    (Allocate : nat -> nat -> nat -> Z -> option AllocatedBuffer) :
  let BatchPutStart :=
    MasterService.BatchPutStart invalid kMaxSliceSize getShardIndex in
  let res := BatchPutStart st keys value_lengths slice_lengths config
               Allocate in
  length (fst res) = length keys /\
  forall (i : nat) (key : string), keys !! i = Some key ->
    let before := snd (BatchPutStart st (take i keys) value_lengths
                         slice_lengths config Allocate) in
    fst res !! i =
    Some (match value_lengths !! i, slice_lengths !! i with
          | Some value_length, Some lengths =>
              fst (PutStart before key value_length lengths config
                     (Allocate i))
          | _, _ => Unexpected INVALID_PARAMS
          end).
Proof.
  cbv zeta. unfold MasterService.BatchPutStart.
  exact (BatchPutStart_from_spec keys value_lengths slice_lengths config
           Allocate 0 st).
Qed.

(** *** How much an eviction takes *)

Lemma length_GetAllKeys (st : State) :
  length (GetAllKeys st) = sum_list_with base.size (metadata_shards_ st).
Proof.
  unfold GetAllKeys. induction (metadata_shards_ st) as [| shard shards IH];
    simpl; [reflexivity |].
  rewrite length_app, length_map, length_map_to_list, IH. reflexivity.
Qed.

Lemma sum_list_with_insert {X : Type} (f : X -> nat) (l : list X) (i : nat)
    (x y : X) :
  l !! i = Some y ->
  (sum_list_with f (<[i := x]> l) + f y = sum_list_with f l + f x)%nat.
Proof.
  intros Hi.
  rewrite insert_take_drop by (eapply lookup_lt_Some; exact Hi).
  rewrite <- (take_drop_middle l i y Hi) at 3.
  rewrite !sum_list_with_app. simpl. lia.
Qed.

(** The sizes of distinct shards add up to no more than all the keys. *)
Lemma sum_list_with_lookups (shards : list (gmap string ObjectMetadata))
    (visited : list nat) :
  NoDup visited ->
  Forall (fun j => j < length shards)%nat visited ->
  (sum_list_with (fun j => base.size (default ∅ (shards !! j))) visited
   <= sum_list_with base.size shards)%nat.
Proof.
  intros Hnd Hlt.
  assert (Hsub : visited ⊆+ seq 0 (length shards)).
  { apply NoDup_submseteq; [exact Hnd |]. intros j Hj.
    rewrite Forall_forall in Hlt. apply elem_of_seq.
    specialize (Hlt j Hj). lia. }
  apply submseteq_Permutation in Hsub as [rest Hperm].
  assert (Hall : sum_list_with base.size shards =
                 sum_list_with (fun j => base.size (default ∅ (shards !! j)))
                               (seq 0 (length shards))).
  { clear. induction shards as [| shard shards IH] using rev_ind;
      [reflexivity |].
    rewrite length_app. simpl. rewrite Nat.add_1_r, seq_S.
    rewrite !sum_list_with_app. simpl.
    rewrite lookup_app_r by lia. rewrite Nat.sub_diag. simpl.
    rewrite IH. f_equal.
    assert (Hext : forall l : list nat,
              Forall (fun j => j < length shards)%nat l ->
              sum_list_with (fun j => base.size (default ∅ (shards !! j))) l =
              sum_list_with (fun j => base.size
                               (default ∅ ((shards ++ [shard]) !! j))) l).
    { induction 1 as [| j l Hj _ IHl]; simpl; [reflexivity |].
      rewrite lookup_app_l by exact Hj. rewrite IHl. reflexivity. }
    apply Hext. apply Forall_forall. intros j Hj.
    apply elem_of_seq in Hj. lia. }
  rewrite Hall, Hperm, sum_list_with_app. lia.
Qed.

Lemma evict_loop_count (target_timeout evict_num : Z)
    (entries : list (string * ObjectMetadata)) :
  forall (shard : gmap string ObjectMetadata) (count : Z),
  NoDup (entries.*1) ->
  (forall e, e ∈ entries -> is_Some (shard !! fst e)) ->
  count <= evict_num ->
  let res := evict_loop target_timeout evict_num entries shard count in
  snd res - count =
    Z.of_nat (base.size shard) - Z.of_nat (base.size (fst res)) /\
  snd res <= evict_num.
Proof.
  induction entries as [| [k md] rest IH]; intros shard count Hnd Hin Hle;
    cbv zeta.
  - simpl. lia.
  - rewrite fmap_cons in Hnd. apply NoDup_cons in Hnd as [Hk Hnd].
    cbn [MasterService.evict_loop]. simpl in Hk.
    destruct (decide (count < evict_num)) as [Hlt | _]; [| simpl; lia].
    destruct (_ && _).
    + destruct (Hin (k, md)) as [x Hx]; [left |]. simpl in Hx.
      assert (Hrest : forall e, e ∈ rest ->
                is_Some (delete k shard !! fst e)).
      { intros e He. rewrite lookup_delete_ne.
        { apply Hin. right. exact He. }
        intros Heq. apply Hk. rewrite Heq.
        apply list_elem_of_fmap. exists e. split; [reflexivity | exact He]. }
      pose proof (IH (delete k shard) (count + 1) Hnd Hrest ltac:(lia))
        as Hcount. cbv zeta in Hcount.
      rewrite map_size_delete_Some in Hcount by eauto.
      assert (base.size shard <> 0)%nat
        by (apply map_size_ne_0_lookup_2 with k; eauto).
      lia.
    + apply IH; [exact Hnd | | exact Hle].
      intros e He. apply Hin. right. exact He.
Qed.

Lemma evict_shard_count (ceil_ratio : Z -> Z) (now : Z)
    (shard : gmap string ObjectMetadata) (evicted_count object_count : Z) :
  let res := evict_shard ceil_ratio now shard evicted_count object_count in
  snd res = object_count + Z.of_nat (base.size shard) /\
  snd (fst res) - evicted_count =
    Z.of_nat (base.size shard) - Z.of_nat (base.size (fst (fst res))) /\
  snd (fst res) <= Z.max evicted_count (ceil_ratio (snd res)).
Proof.
  cbv zeta. unfold MasterService.evict_shard.
  set (oc := object_count + Z.of_nat (base.size shard)).
  set (ideal := ceil_ratio oc - evicted_count).
  destruct (decide (ideal <= 0)) as [_ | Hideal]; [simpl; lia |].
  set (candidates := map _ _).
  destruct candidates as [| c0 cs] eqn:Hcs; [simpl; lia |].
  rewrite <- Hcs.
  set (evict_num := Z.min ideal (Z.of_nat (length candidates))).
  set (target := nth _ _ 0).
  assert (Hnum : 0 <= evict_num)
    by (unfold evict_num; rewrite Hcs; simpl; lia).
  pose proof (evict_loop_count target evict_num (map_to_list shard) shard 0
                (NoDup_fst_map_to_list shard)) as Hloop.
  specialize (Hloop ltac:(intros [k md] He;
                          apply elem_of_map_to_list in He; simpl; eauto)
                    Hnum).
  cbv zeta in Hloop.
  destruct (evict_loop target evict_num (map_to_list shard) shard 0)
    as [shard' n]. simpl in *.
  split; [reflexivity |]. split; [lia |].
  unfold evict_num in Hloop. lia.
Qed.

Lemma BatchEvict_loop_count (ceil_ratio : Z -> Z) (now : Z) (start_idx : nat)
    (indices : list nat) :
  (forall n m, n <= m -> ceil_ratio n <= ceil_ratio m) ->
  forall (shards : list (gmap string ObjectMetadata))
         (evicted_count object_count : Z),
  NoDup ((fun i => (start_idx + i) mod length shards)%nat <$> indices) ->
  (0 < length shards)%nat ->
  evicted_count <= ceil_ratio object_count ->
  let res := BatchEvict_loop ceil_ratio now start_idx indices shards
               evicted_count object_count in
  snd res =
    object_count +
    Z.of_nat (sum_list_with
                (fun i => base.size
                            (default ∅ (shards !!
                               ((start_idx + i) mod length shards)%nat)))
                indices) /\
  snd (fst res) <= ceil_ratio (snd res) /\
  snd (fst res) - evicted_count =
    Z.of_nat (sum_list_with base.size shards) -
    Z.of_nat (sum_list_with base.size (fst (fst res))).
Proof.
  intros Hmono. induction indices as [| i rest IH];
    intros shards ec oc Hnd Hlen Hle; cbv zeta.
  - simpl. lia.
  - cbn [MasterService.BatchEvict_loop].
    rewrite fmap_cons in Hnd. apply NoDup_cons in Hnd as [Hi Hnd].
    set (idx := ((start_idx + i) mod length shards)%nat) in *.
    assert (Hidx : (idx < length shards)%nat)
      by (apply Nat.mod_upper_bound; lia).
    destruct (lookup_lt_is_Some_2 _ _ Hidx) as [shard Hshard].
    rewrite Hshard. simpl.
    pose proof (evict_shard_count ceil_ratio now shard ec oc) as Hstep.
    cbv zeta in Hstep.
    destruct (evict_shard ceil_ratio now shard ec oc)
      as [[shard' ec1] oc1]. simpl in Hstep.
    destruct Hstep as (Hoc & Hec & Hmax).
    assert (Hle1 : ec1 <= ceil_ratio oc1).
    { pose proof (Hmono oc oc1 ltac:(lia)). lia. }
    specialize (IH (<[idx := shard']> shards) ec1 oc1).
    rewrite length_insert in IH.
    specialize (IH Hnd Hlen Hle1). cbv zeta in IH.
    destruct (BatchEvict_loop ceil_ratio now start_idx rest
                (<[idx := shard']> shards) ec1 oc1) as [[shards' ec2] oc2].
    simpl in *. destruct IH as (Hoc2 & Hle2 & Hec2).
    assert (Hsame : sum_list_with
                      (fun i0 => base.size
                         (default ∅ (<[idx := shard']> shards !!
                            ((start_idx + i0) mod length shards)%nat))) rest =
                    sum_list_with
                      (fun i0 => base.size
                         (default ∅ (shards !!
                            ((start_idx + i0) mod length shards)%nat))) rest).
    { clear -Hi. induction rest as [| j rest IHr]; simpl; [reflexivity |].
      rewrite fmap_cons in Hi. apply not_elem_of_cons in Hi as [Hne Hi].
      rewrite list_lookup_insert_ne by (fold idx; congruence).
      rewrite (IHr Hi). reflexivity. }
    pose proof (sum_list_with_insert base.size shards idx shard' shard
                  Hshard) as Hins.
    split; [rewrite Hoc2, Hsame, Hoc; fold idx; rewrite Hshard; simpl; lia |].
    split; [exact Hle2 |]. lia.
Qed.

Lemma NoDup_rotation (start_idx n : nat) :
  NoDup ((fun i => (start_idx + i) mod n)%nat <$> seq 0 n).
Proof.
  apply NoDup_fmap_2_strong; [| apply NoDup_seq].
  intros i j Hi Hj Heq.
  apply elem_of_seq in Hi. apply elem_of_seq in Hj.
  assert (Hn : n <> 0%nat) by lia.
  pose proof (Nat.div_mod_eq (start_idx + i) n) as Hdi.
  pose proof (Nat.div_mod_eq (start_idx + j) n) as Hdj.
  rewrite Heq in Hdi.
  destruct (Nat.lt_total ((start_idx + i) / n) ((start_idx + j) / n))
    as [Hlt | [Heq' | Hgt]]; [nia | nia | nia].
Qed.

(** X18: [BatchEvict] takes no more than its share.  With [N] objects in
    the shards, it erases at most [std::ceil(N * eviction_ratio_)] of
    them, whatever the shard it starts from; [ceil_ratio n] stands for
    [std::ceil(n * eviction_ratio_)], which does not decrease with [n] and
    is not negative at 0. *)
Theorem MasterService_BatchEvict_bound (ceil_ratio : Z -> Z) (st : State)
    (now : Z) (rand_value : nat) :
  (forall n m, n <= m -> ceil_ratio n <= ceil_ratio m) ->
  0 <= ceil_ratio 0 ->
  let st' := BatchEvict ceil_ratio st now rand_value in
  0 <= Z.of_nat (length (GetAllKeys st)) - Z.of_nat (length (GetAllKeys st'))
    <= ceil_ratio (Z.of_nat (length (GetAllKeys st))).
Proof.
  intros Hmono Hzero. cbv zeta.
  assert (Hkeys : forall shards b q,
            length (GetAllKeys (mkState shards b q)) =
            sum_list_with base.size shards)
    by (intros; apply length_GetAllKeys).
  rewrite (length_GetAllKeys st).
  unfold MasterService.BatchEvict.
  destruct (metadata_shards_ st) as [| shard0 shards0] eqn:Hshards.
  { simpl. destruct (decide (0 > 0)); [lia |].
    destruct (decide (0 = 0)); unfold GetAllKeys; simpl;
      change (Z.of_nat 0) with 0; lia. }
  rewrite <- Hshards.
  assert (Hlen : (0 < length (metadata_shards_ st))%nat)
    by (rewrite Hshards; simpl; lia).
  set (start_idx := (rand_value mod length (metadata_shards_ st))%nat).
  pose proof (BatchEvict_loop_count ceil_ratio now start_idx
                (seq 0 (length (metadata_shards_ st))) Hmono
                (metadata_shards_ st) 0 0
                (NoDup_rotation start_idx _) Hlen Hzero) as Hloop.
  cbv zeta in Hloop.
  pose proof (sum_list_with_lookups (metadata_shards_ st)
                ((fun i => (start_idx + i) mod length (metadata_shards_ st))%nat
                   <$> seq 0 (length (metadata_shards_ st)))
                (NoDup_rotation start_idx _)) as Hsum.
  specialize (Hsum ltac:(apply Forall_forall; intros j Hj;
                         apply list_elem_of_fmap in Hj as (i & -> & _);
                         apply Nat.mod_upper_bound; lia)).
  assert (Hfmap : forall (f : nat -> nat) (g : nat -> nat) (l : list nat),
            sum_list_with f (g <$> l) = sum_list_with (fun i => f (g i)) l).
  { intros f g l. induction l as [| x l IHl]; [reflexivity |].
    rewrite fmap_cons. change (sum_list_with f (g x :: (g <$> l)))
      with (f (g x) + sum_list_with f (g <$> l))%nat.
    rewrite IHl. reflexivity. }
  rewrite Hfmap in Hsum. cbv beta in Hsum.
  pose proof (BatchEvict_loop_spec ceil_ratio now start_idx
                (seq 0 (length (metadata_shards_ st)))
                (metadata_shards_ st) 0 0) as Hspec.
  cbv zeta in Hspec.
  destruct (BatchEvict_loop _ _ _ _ _ _ _) as [[shards ec] oc].
  cbn [fst snd] in Hloop, Hspec. destruct Hloop as (Hoc & Hle & Hec).
  destruct Hspec as (_ & _ & Hpos & _).
  assert (Hbound : 0 <= Z.of_nat (sum_list_with base.size
                                    (metadata_shards_ st)) -
                        Z.of_nat (sum_list_with base.size shards)
                   <= ceil_ratio (Z.of_nat (sum_list_with base.size
                                              (metadata_shards_ st)))).
  { split; [lia |].
    assert (Hoc' : oc <= Z.of_nat (sum_list_with base.size
                                     (metadata_shards_ st))).
    { rewrite Hoc, Z.add_0_l. apply Nat2Z.inj_le. exact Hsum. }
    pose proof (Hmono _ _ Hoc'). lia. }
  destruct (decide (ec > 0)); [rewrite Hkeys; exact Hbound |].
  destruct (decide (oc = 0)); rewrite Hkeys; exact Hbound.
Qed.

End MasterServiceProperties.

(** ** The master service on the sample master *)

(** A first [PutStart] of "k", six bytes in slices of four and two, one
    replica. *)
Lemma MasterService_PutStart_new_key_witness :
  exists st1,
    MasterService.PutStart sample_invalid 4 sample_getShardIndex
      sample_master "k" 6 [4; 2] (mkConfig 1) sample_Allocate
    = (MasterService.Value [MasterService.mkReplica [0; 1] PROCESSING], st1)
    /\
    MasterService.find_key sample_getShardIndex st1 "k" =
    Some (MasterService.mkObjectMetadata
            [MasterService.mkReplica [0; 1] PROCESSING] 6 (mkLease 0)).
Proof.
  pose proof (MasterService_PutStart_new_key sample_invalid 4
                sample_getShardIndex sample_master "k" 6 [4; 2] (mkConfig 1)
                sample_Allocate) as H.
  specialize (H ltac:(discriminate) ltac:(lia) ltac:(discriminate)
                ltac:(repeat constructor; lia) ltac:(reflexivity)
                ltac:(vm_compute; lia) ltac:(reflexivity)).
  cbv zeta in H.
  destruct (MasterService.PutStart sample_invalid 4 sample_getShardIndex
              sample_master "k" 6 [4; 2] (mkConfig 1) sample_Allocate)
    as [res st1] eqn:Hput.
  assert (Hres : res = MasterService.Value
                         [MasterService.mkReplica [0; 1] PROCESSING])
    by (apply (f_equal fst) in Hput; vm_compute in Hput; congruence).
  subst res. simpl in H. exists st1. split; [reflexivity |].
  destruct H as (_ & _ & Hfind & _). exact Hfind.
Defined.

(** A [PutStart] over the stale "k" answers with a replica and leaves the
    entry without one. *)
Lemma MasterService_PutStart_existing_key_witness :
  let res := MasterService.PutStart sample_invalid 4 sample_getShardIndex
               stale_master "k" 6 [4; 2] (mkConfig 1) sample_Allocate in
  fst res = MasterService.Value [MasterService.mkReplica [0; 1] PROCESSING] /\
  MasterService.find_key sample_getShardIndex (snd res) "k" =
  Some (MasterService.mkObjectMetadata [] 6 (mkLease 10)).
Proof.
  pose proof (MasterService_PutStart_existing_key sample_invalid 4
                sample_getShardIndex stale_master "k" 6 [4; 2] (mkConfig 1)
                sample_Allocate
                (MasterService.mkObjectMetadata
                   [MasterService.mkReplica [-1] COMPLETE] 6 (mkLease 10)))
    as H.
  specialize (H ltac:(discriminate) ltac:(lia) ltac:(discriminate)
                ltac:(repeat constructor; lia) ltac:(reflexivity)
                ltac:(reflexivity)).
  cbv zeta in *. destruct H as (_ & _ & _ & Hvalue).
  assert (Hres : fst (MasterService.PutStart sample_invalid 4
                        sample_getShardIndex stale_master "k" 6 [4; 2]
                        (mkConfig 1) sample_Allocate) =
                 MasterService.Value
                   [MasterService.mkReplica [0; 1] PROCESSING])
    by (vm_compute; reflexivity).
  split; [exact Hres |]. exact (proj2 (Hvalue _ Hres)).
Defined.

(** The life of "k" on the sample master. *)
Lemma MasterService_put_lifecycle_witness :
  exists st1 st2,
    MasterService.PutStart sample_invalid 4 sample_getShardIndex
      sample_master "k" 6 [4; 2] (mkConfig 1) sample_Allocate
    = (MasterService.Value [MasterService.mkReplica [0; 1] PROCESSING], st1)
    /\
    MasterService.PutEnd (fun h => h) sample_getShardIndex st1 7 "k"
    = (MasterService.Value tt, st2) /\
    fst (MasterService.GetReplicaList sample_getShardIndex false 5 8
           st2 9 "k")
    = MasterService.Value [MasterService.mkReplica [0; 1] COMPLETE].
Proof.
  pose (st1 := snd (MasterService.PutStart sample_invalid 4
                      sample_getShardIndex sample_master "k" 6 [4; 2]
                      (mkConfig 1) sample_Allocate)).
  assert (Hput : MasterService.PutStart sample_invalid 4
                   sample_getShardIndex sample_master "k" 6 [4; 2]
                   (mkConfig 1) sample_Allocate
                 = (MasterService.Value
                      [MasterService.mkReplica [0; 1] PROCESSING], st1))
    by (vm_compute; reflexivity).
  destruct (MasterService_put_lifecycle sample_invalid (fun h => h) 4
              sample_getShardIndex false 5 8 sample_master st1 "k" 6 [4; 2]
              (mkConfig 1) sample_Allocate _ 3 7 9
              ltac:(vm_compute; lia) ltac:(simpl; lia) ltac:(reflexivity)
              Hput)
    as (_ & _ & _ & st2 & Hend & Hget & _).
  exists st1, st2. split; [exact Hput |]. split; [exact Hend |].
  exact Hget.
Defined.

(** Revoking the [PutStart] of "k" gives the sample master back. *)
Lemma MasterService_PutRevoke_undoes_PutStart_witness :
  exists st1,
    MasterService.PutStart sample_invalid 4 sample_getShardIndex
      sample_master "k" 6 [4; 2] (mkConfig 1) sample_Allocate
    = (MasterService.Value [MasterService.mkReplica [0; 1] PROCESSING], st1)
    /\
    MasterService.PutRevoke sample_getShardIndex st1 "k"
    = (MasterService.Value tt, sample_master).
Proof.
  pose (st1 := snd (MasterService.PutStart sample_invalid 4
                      sample_getShardIndex sample_master "k" 6 [4; 2]
                      (mkConfig 1) sample_Allocate)).
  assert (Hput : MasterService.PutStart sample_invalid 4
                   sample_getShardIndex sample_master "k" 6 [4; 2]
                   (mkConfig 1) sample_Allocate
                 = (MasterService.Value
                      [MasterService.mkReplica [0; 1] PROCESSING], st1))
    by (vm_compute; reflexivity).
  exists st1. split; [exact Hput |].
  exact (MasterService_PutRevoke_undoes_PutStart sample_invalid 4
           sample_getShardIndex sample_master st1 "k" 6 [4; 2] (mkConfig 1)
           sample_Allocate _ ltac:(vm_compute; lia) ltac:(reflexivity) Hput).
Defined.

(** "k" is read at time 20 with a lease of 5: until 25 it stays. *)
Lemma MasterService_lease_protects_witness :
  exists (st1 : @MasterService.State Z) metadata,
    MasterService.find_key sample_getShardIndex st1 "k" = Some metadata /\
    MasterService.Remove sample_getShardIndex st1 24 "k"
    = (MasterService.Unexpected OBJECT_HAS_LEASE, st1) /\
    MasterService.find_key sample_getShardIndex
      (snd (MasterService.RemoveAll st1 24)) "k" = Some metadata /\
    MasterService.find_key sample_getShardIndex
      (MasterService.BatchEvict (fun n => n) st1 24 1) "k" = Some metadata.
Proof.
  pose (st1 := snd (MasterService.ExistKey sample_getShardIndex 5
                      complete_master 20 "k")).
  assert (Hex : MasterService.ExistKey sample_getShardIndex 5
                  complete_master 20 "k" = (MasterService.Value true, st1))
    by (vm_compute; reflexivity).
  destruct (MasterService_lease_protects sample_getShardIndex 5 8
              (fun n => n) complete_master st1 20 24 "k" 1
              ltac:(lia) (or_introl Hex)) as (metadata & H).
  exists st1, metadata. exact H.
Defined.

(** With a ratio of one half, of the two objects of the full master at
    most one goes. *)
Lemma MasterService_BatchEvict_bound_witness :
  0 <= Z.of_nat (length (MasterService.GetAllKeys full_master)) -
       Z.of_nat (length (MasterService.GetAllKeys
                           (MasterService.BatchEvict (fun n => (n + 1) / 2)
                              full_master 20 0)))
    <= 1.
Proof.
  apply (MasterService_BatchEvict_bound (fun n => (n + 1) / 2) full_master
           20 0).
  - intros n m Hle. apply Z.div_le_mono; lia.
  - apply Z.div_pos; lia.
Defined.

(** ** The client *)

Section ClientProperties.

Import Client.

Local Set Default Proof Using "Type".

Context {Env : Type}.
Variable stub_GetReplicaList :
  Env -> string -> option (ErrorCode * list ReplicaInfo) * Env.
Variable stub_PutStart :
  Env -> string -> Z -> list Z -> Z ->
  option (ErrorCode * list ReplicaInfo) * Env.
Variable stub_PutEnd : Env -> string -> option ErrorCode * Env.
Variable stub_PutRevoke : Env -> string -> option ErrorCode * Env.
Variable openSegment : Env -> string -> Z * Env.
Variable ERR_INVALID_ARGUMENT : Z.
Variable allocateBatchID : Env -> Z -> Z * Env.
Variable INVALID_BATCH_ID : Z.
Variable submitTransfer : Env -> Z -> list TransferRequest -> Z * Env.
Variable getTransferStatus :
  Env -> Z -> nat -> Z * TransferStatusEnum * Env.
Variable freeBatchID : Env -> Z -> Env.
Variable getCurrentTimeInNano : Env -> Z * Env.
Variable sleep_for : Env -> Z -> Env.

Local Abbreviation World := (@Client.World Env).
Local Abbreviation transfer_tasks :=
  (Client.transfer_tasks openSegment ERR_INVALID_ARGUMENT).
Local Abbreviation status_round :=
  (Client.status_round getTransferStatus freeBatchID).
Local Abbreviation polling :=
  (Client.polling getTransferStatus freeBatchID getCurrentTimeInNano
     sleep_for).
Local Abbreviation TransferData :=
  (Client.TransferData openSegment ERR_INVALID_ARGUMENT allocateBatchID
     INVALID_BATCH_ID submitTransfer getTransferStatus freeBatchID
     getCurrentTimeInNano sleep_for).
Local Abbreviation TransferWrite :=
  (Client.TransferWrite openSegment ERR_INVALID_ARGUMENT allocateBatchID
     INVALID_BATCH_ID submitTransfer getTransferStatus freeBatchID
     getCurrentTimeInNano sleep_for).
Local Abbreviation TransferRead :=
  (Client.TransferRead openSegment ERR_INVALID_ARGUMENT allocateBatchID
     INVALID_BATCH_ID submitTransfer getTransferStatus freeBatchID
     getCurrentTimeInNano sleep_for).
Local Abbreviation Query := (Client.Query stub_GetReplicaList).
Local Abbreviation Get_object_info :=
  (Client.Get_object_info openSegment ERR_INVALID_ARGUMENT allocateBatchID
     INVALID_BATCH_ID submitTransfer getTransferStatus freeBatchID
     getCurrentTimeInNano sleep_for).
Local Abbreviation Get :=
  (Client.Get stub_GetReplicaList openSegment ERR_INVALID_ARGUMENT
     allocateBatchID INVALID_BATCH_ID submitTransfer getTransferStatus
     freeBatchID getCurrentTimeInNano sleep_for).
Local Abbreviation Put_transfers :=
  (Client.Put_transfers stub_PutRevoke openSegment ERR_INVALID_ARGUMENT
     allocateBatchID INVALID_BATCH_ID submitTransfer getTransferStatus
     freeBatchID getCurrentTimeInNano sleep_for).
Local Abbreviation Put :=
  (Client.Put stub_PutStart stub_PutEnd stub_PutRevoke openSegment
     ERR_INVALID_ARGUMENT allocateBatchID INVALID_BATCH_ID submitTransfer
     getTransferStatus freeBatchID getCurrentTimeInNano sleep_for).

(** What a request has from its handle, and from its slice. *)
Lemma transfer_tasks_spec (op_code : OpCode) (handles : list BufHandle) :
  forall (slices : list Slice) (w : World),
  let res := transfer_tasks w handles slices op_code in
  exists k : nat,
    calls (snd res) =
      calls w ++ map CallOpenSegment
                     (map segment_name (take k handles)) /\
    forall tasks, fst res = Some tasks ->
      k = length handles /\
      Forall2 (fun task handle =>
                 opcode task = op_code /\
                 target_offset task = buffer handle /\
                 length_ task = buf_size handle) tasks handles /\
      Forall2 (fun task slice => source task = ptr slice) tasks
              (take (length handles) slices) /\
      Forall2 (fun handle slice => buf_size handle <= size slice) handles
              (take (length handles) slices).
Proof.
  induction handles as [| handle handles IH]; intros slices w; cbv zeta.
  - exists 0%nat. simpl. rewrite app_nil_r. split; [reflexivity |].
    intros tasks Heq. injection Heq as <-.
    split; [reflexivity |]. repeat split; constructor.
  - destruct slices as [| slice slices]; cbn [Client.transfer_tasks].
    { exists 0%nat. simpl. rewrite app_nil_r. split; [reflexivity |].
      discriminate. }
    destruct (decide (buf_size handle > size slice)) as [Hgt | Hle].
    { exists 0%nat. simpl. rewrite app_nil_r. split; [reflexivity |].
      discriminate. }
    unfold logged. cbn [fst snd].
    set (w1 := mkWorld _ _).
    destruct (decide (_ = ERR_INVALID_ARGUMENT)) as [Hinv | Hseg].
    { exists 1%nat. simpl. split; [reflexivity | discriminate]. }
    destruct (IH slices w1) as (k & Hcalls & Htasks). cbv zeta in *.
    destruct (transfer_tasks w1 handles slices op_code) as [[tasks |] w2];
      cbn [fst snd] in *.
    + exists (S k). split.
      { rewrite Hcalls. unfold w1. simpl. rewrite <- app_assoc. reflexivity. }
      intros tasks' Heq. injection Heq as <-.
      destruct (Htasks tasks eq_refl) as (Hk & Hth & Hts & Hhs).
      split; [simpl; congruence |]. simpl.
      split; [constructor; [repeat split | exact Hth] |].
      split; [constructor; [reflexivity | exact Hts] |].
      constructor; [lia | exact Hhs].
    + exists (S k). split; [| discriminate].
      rewrite Hcalls. unfold w1. simpl. rewrite <- app_assoc. reflexivity.
Qed.

(** A polling round asks for the status of each task; when a status
    cannot be read it ends by freeing the batch. *)
Lemma status_round_spec (batch_id : Z) (count : nat) :
  forall (w : World) (i : nat) (has_err all_ready : bool),
  let res := status_round w batch_id i count has_err all_ready in
  exists polls,
    Forall (fun c => exists j, c = CallGetTransferStatus batch_id j) polls /\
    calls (snd res) =
      calls w ++ polls ++
      match fst res with
      | Some _ => []
      | None => [CallFreeBatchID batch_id]
      end.
Proof.
  induction count as [| count IH]; intros w i has_err all_ready; cbv zeta.
  - exists []. simpl. rewrite app_nil_r. split; [constructor | reflexivity].
  - cbn [Client.status_round]. unfold logged. cbn [fst snd].
    destruct (getTransferStatus (env w) batch_id i) as [[error_code status] e]
      eqn:Hstatus. cbn [fst snd].
    destruct (decide (error_code <> 0)) as [Herr | Hok].
    + exists [CallGetTransferStatus batch_id i]. cbn [fst snd calls].
      split; [repeat constructor; eauto |].
      rewrite <- app_assoc. reflexivity.
    + set (w1 := mkWorld _ _).
      destruct (IH w1 (S i) (has_err || bool_decide (status = TRANSFER_FAILED))
                  (all_ready && bool_decide (status = COMPLETED)))
        as (polls & Hpolls & Hcalls). cbv zeta in Hcalls.
      exists (CallGetTransferStatus batch_id i :: polls).
      split; [constructor; eauto |].
      rewrite Hcalls. unfold w1. simpl. rewrite <- app_assoc. reflexivity.
Qed.

Lemma polling_spec (batch_id : Z) (batch_size : nat) (start_ts : Z)
    (fuel : nat) :
  forall (w w' : World) (try_num : Z) (exit : option bool),
  polling fuel w batch_id batch_size start_ts try_num = Some (exit, w') ->
  exists polls,
    Forall (fun c => exists j, c = CallGetTransferStatus batch_id j \/
                               c = CallFreeBatchID batch_id) polls /\
    calls w' = calls w ++ polls /\
    (exit <> None ->
     Forall (fun c => exists j, c = CallGetTransferStatus batch_id j) polls).
Proof.
  induction fuel as [| fuel IH]; intros w w' try_num exit Hpoll;
    cbn [Client.polling] in Hpoll; [discriminate |].
  destruct (decide (try_num < 3)) as [Htry | Hdone].
  2:{ injection Hpoll as <- <-. exists []. rewrite app_nil_r.
      repeat split; constructor. }
  set (w0 := mkWorld _ _) in Hpoll.
  destruct (decide (_ > 60 * kOneSecondInNano)) as [Hlate | Hintime].
  { injection Hpoll as <- <-. exists []. simpl. rewrite app_nil_r.
    repeat split; constructor. }
  destruct (status_round_spec batch_id batch_size w0 0 false true)
    as (polls & Hpolls & Hcalls). cbv zeta in Hcalls.
  destruct (status_round w0 batch_id 0 batch_size false true)
    as [[[has_err all_ready] |] w1]; cbn [fst snd] in Hcalls.
  - rewrite app_nil_r in Hcalls.
    set (w2 := if has_err then _ else w1) in Hpoll.
    assert (Hw2 : calls w2 = calls w ++ polls)
      by (unfold w2; destruct has_err; exact Hcalls).
    destruct all_ready.
    + injection Hpoll as <- <-. exists polls.
      split; [| split; [exact Hw2 | intros _; exact Hpolls]].
      eapply Forall_impl; [exact Hpolls |]. intros c [j Hc]. eauto.
    + destruct (IH _ _ _ _ Hpoll) as (polls' & Hpolls' & Hcalls' & Hexit).
      exists (polls ++ polls'). split; [| split].
      * apply Forall_app. split; [| exact Hpolls'].
        eapply Forall_impl; [exact Hpolls |]. intros c [j Hc]. eauto.
      * rewrite Hcalls', Hw2, <- app_assoc. reflexivity.
      * intros Hex. apply Forall_app. split; [exact Hpolls | auto].
  - injection Hpoll as <- <-.
    exists (polls ++ [CallFreeBatchID batch_id]). split; [| split].
    + apply Forall_app. split.
      * eapply Forall_impl; [exact Hpolls |]. intros c [j Hc]. eauto.
      * repeat constructor. exists 0%nat. right. reflexivity.
    + exact Hcalls.
    + congruence.
Qed.

Lemma engine_call_polls (batch_id : Z) (polls : list Call) :
  Forall (fun c => exists j : nat, c = CallGetTransferStatus batch_id j \/
                                   c = CallFreeBatchID batch_id) polls ->
  Forall (fun c => engine_call c = true) polls /\
  omap submitted polls = [].
Proof.
  induction 1 as [| c polls [j [-> | ->]] _ [IH1 IH2]]; simpl.
  - split; constructor.
  - split; [constructor; [reflexivity | exact IH1] | exact IH2].
  - split; [constructor; [reflexivity | exact IH1] | exact IH2].
Qed.

Lemma engine_call_opens (names : list string) :
  Forall (fun c => engine_call c = true) (map CallOpenSegment names) /\
  omap submitted (map CallOpenSegment names) = [].
Proof.
  induction names as [| name names [IH1 IH2]]; simpl.
  - split; constructor.
  - split; [constructor; [reflexivity | exact IH1] | exact IH2].
Qed.

(** What [TransferData] asks of the engine. *)
Lemma TransferData_calls (fuel : nat) (w w' : World)
    (handles : list BufHandle) (slices : list Slice) (op_code : OpCode)
    (err : ErrorCode) :
  TransferData fuel w handles slices op_code = Some (err, w') ->
  (err = OK \/ err = TRANSFER_FAIL) /\
  exists transfers,
    calls w' = calls w ++ transfers /\
    Forall (fun c => engine_call c = true) transfers /\
    (err <> OK -> (length (omap submitted transfers) <= 1)%nat) /\
    (err = OK ->
     exists batch_id tasks polls,
       transfers =
         map CallOpenSegment (map segment_name handles) ++
         [CallAllocateBatchID (Z.of_nat (length handles));
          CallSubmitTransfer batch_id tasks] ++
         polls ++ [CallFreeBatchID batch_id] /\
       Forall (fun c => exists j, c = CallGetTransferStatus batch_id j)
              polls /\
       Forall2 (fun task handle =>
                  opcode task = op_code /\
                  target_offset task = buffer handle /\
                  length_ task = buf_size handle) tasks handles /\
       Forall2 (fun task slice => source task = ptr slice) tasks
               (take (length handles) slices) /\
       Forall2 (fun handle slice => buf_size handle <= size slice) handles
               (take (length handles) slices)).
Proof.
  unfold Client.TransferData.
  destruct (decide (length slices < length handles)%nat) as [Hmore | Hfit].
  { intros Heq. injection Heq as <- <-. split; [auto |]. exists [].
    rewrite app_nil_r. split; [reflexivity |]. split; [constructor |].
    split; [simpl; lia | discriminate]. }
  destruct (transfer_tasks_spec op_code handles slices w)
    as (k & Hopen & Htasks). cbv zeta in Hopen, Htasks.
  destruct (transfer_tasks w handles slices op_code) as [[tasks |] w1];
    cbn [fst snd] in Hopen, Htasks.
  2:{ intros Heq. injection Heq as <- <-. split; [auto |].
      eexists. split; [exact Hopen |].
      destruct (engine_call_opens (map segment_name (take k handles)))
        as [H1 H2].
      split; [exact H1 |]. rewrite H2. split; [simpl; lia | discriminate]. }
  destruct (Htasks tasks eq_refl) as (-> & Hth & Hts & Hhs).
  rewrite firstn_all in Hopen.
  assert (Hlen : length tasks = length handles)
    by (eapply Forall2_length; exact Hth).
  destruct (engine_call_opens (map segment_name handles)) as [Ho1 Ho2].
  unfold logged. cbn [fst snd].
  destruct (allocateBatchID (env w1) (Z.of_nat (length tasks)))
    as [batch_id e2]. cbn [fst snd].
  destruct (decide (batch_id = INVALID_BATCH_ID)) as [Hbad | Hbatch].
  { intros Heq. injection Heq as <- <-. split; [auto |].
    eexists. split; [simpl; rewrite Hopen, <- app_assoc; reflexivity |].
    split; [apply Forall_app; split; [exact Ho1 | repeat constructor] |].
    split; [| discriminate].
    rewrite omap_app, Ho2. simpl. lia. }
  cbn [env calls].
  destruct (submitTransfer e2 batch_id tasks) as [error_code e3].
  cbn [fst snd env calls].
  assert (Hw3 : (calls w1 ++ [CallAllocateBatchID (Z.of_nat (length tasks))])
                ++ [CallSubmitTransfer batch_id tasks] =
                calls w ++ map CallOpenSegment (map segment_name handles) ++
                [CallAllocateBatchID (Z.of_nat (length handles));
                 CallSubmitTransfer batch_id tasks]).
  { rewrite Hopen, Hlen, <- !app_assoc. reflexivity. }
  rewrite Hw3.
  destruct (decide (error_code <> 0)) as [Hsubmit | Hsubmitted].
  { intros Heq. injection Heq as <- <-. split; [auto |].
    eexists. split; [simpl; rewrite <- app_assoc; reflexivity |].
    split.
    { apply Forall_app. split; [| repeat constructor].
      apply Forall_app. split; [exact Ho1 | repeat constructor]. }
    split; [| discriminate].
    rewrite !omap_app, Ho2. simpl. lia. }
  destruct (getCurrentTimeInNano e3) as [start_ts e4]. cbn [fst snd].
  destruct (polling fuel _ batch_id (length tasks) start_ts 0)
    as [[exit w5] |] eqn:Hpoll; [| discriminate].
  destruct (polling_spec _ _ _ _ _ _ _ _ Hpoll)
    as (polls & Hpolls & Hw5 & Hexit).
  cbn [calls] in Hw5.
  destruct (engine_call_polls _ _ Hpolls) as [Hp1 Hp2].
  assert (Hfail : forall w6 : World, calls w6 = calls w5 ->
            exists transfers,
              calls w6 = calls w ++ transfers /\
              Forall (fun c => engine_call c = true) transfers /\
              (TRANSFER_FAIL <> OK ->
               (length (omap submitted transfers) <= 1)%nat) /\
              (TRANSFER_FAIL = OK -> False)).
  { intros w6 Hw6. eexists. split.
    { rewrite Hw6, Hw5, <- app_assoc. reflexivity. }
    split.
    { apply Forall_app. split; [| exact Hp1].
      apply Forall_app. split; [exact Ho1 | repeat constructor]. }
    split; [| discriminate]. intros _.
    rewrite !omap_app, Ho2, Hp2. simpl. lia. }
  destruct exit as [[|] |].
  - intros Heq. injection Heq as <- <-. split; [auto |].
    eexists. split.
    { simpl. rewrite Hw5, <- !app_assoc. reflexivity. }
    split.
    { apply Forall_app. split; [exact Ho1 |].
      apply Forall_app. split; [repeat constructor |].
      apply Forall_app. split; [exact Hp1 | repeat constructor]. }
    split; [congruence |]. intros _.
    exists batch_id, tasks, polls. split; [reflexivity |].
    split; [apply Hexit; discriminate |]. repeat split; assumption.
  - intros Heq. injection Heq as <- <-. split; [auto |].
    destruct (Hfail w5 eq_refl) as (tr & H1 & H2 & H3 & H4).
    exists tr. repeat split; try assumption. intros Habs. discriminate.
  - intros Heq. injection Heq as <- <-. split; [auto |].
    destruct (Hfail w5 eq_refl) as (tr & H1 & H2 & H3 & H4).
    exists tr. repeat split; try assumption. intros Habs. discriminate.
Qed.

(** X12: [TransferData] returns [TRANSFER_FAIL] without any call when
    there are more handles than slices.  When it returns [OK], no handle
    is longer than the slice of its index, and the engine has been asked,
    in this order: to open the segment of each handle, for a batch, to
    transfer one request per handle (the bytes of the handle, [size] of
    them, to or from the start of the slice of the same index), for the
    statuses, and to free the batch.  Slices past the handles, and bytes
    of a slice past the size of its handle, are not transferred. *)
Theorem Client_TransferData_spec (fuel : nat) (w : World)
    (handles : list BufHandle) (slices : list Slice) (op_code : OpCode) :
  ((length slices < length handles)%nat ->
   TransferData fuel w handles slices op_code = Some (TRANSFER_FAIL, w)) /\
  (forall w',
     TransferData fuel w handles slices op_code = Some (OK, w') ->
     exists batch_id tasks polls,
       calls w' =
         calls w ++ map CallOpenSegment (map segment_name handles) ++
         [CallAllocateBatchID (Z.of_nat (length handles));
          CallSubmitTransfer batch_id tasks] ++
         polls ++ [CallFreeBatchID batch_id] /\
       Forall (fun c => exists j, c = CallGetTransferStatus batch_id j)
              polls /\
       Forall2 (fun task handle =>
                  opcode task = op_code /\
                  target_offset task = buffer handle /\
                  length_ task = buf_size handle) tasks handles /\
       Forall2 (fun task slice => source task = ptr slice) tasks
               (take (length handles) slices) /\
       Forall2 (fun handle slice => buf_size handle <= size slice) handles
               (take (length handles) slices)).
Proof.
  split.
  - intros Hmore. unfold Client.TransferData.
    rewrite decide_True by exact Hmore. reflexivity.
  - intros w' Hok.
    destruct (TransferData_calls _ _ _ _ _ _ _ Hok)
      as (_ & transfers & Hcalls & _ & _ & Hshape).
    destruct (Hshape eq_refl) as (batch_id & tasks & polls & -> & H).
    exists batch_id, tasks, polls. split; [exact Hcalls | exact H].
Qed.

Lemma omap_submitted_polls (batch_id : Z) (polls : list Call) :
  Forall (fun c => exists j : nat, c = CallGetTransferStatus batch_id j)
         polls ->
  omap submitted polls = [].
Proof.
  intros Hpolls. apply (engine_call_polls batch_id).
  eapply Forall_impl; [exact Hpolls |]. intros c [j Hc]. eauto.
Qed.

(** The transfers of [Put]: one write per replica, or a [PutRevoke] after
    the first write that fails. *)
Lemma Put_transfers_spec (fuel : nat) (key : string) (slices : list Slice)
    (replica_list : list ReplicaInfo) :
  forall (w w' : World) (err : ErrorCode),
  Put_transfers fuel w key replica_list slices = Some (err, w') ->
  exists transfers,
    Forall (fun c => engine_call c = true) transfers /\
    ((err = OK /\
      calls w' = calls w ++ transfers /\
      Forall2 (fun tasks replica =>
                 Forall2 (fun task handle =>
                            opcode task = WRITE /\
                            target_offset task = buffer handle /\
                            length_ task = buf_size handle)
                         tasks (replica_handles replica))
              (omap submitted transfers) replica_list) \/
     (err <> OK /\ calls w' = calls w ++ transfers ++ [CallPutRevoke key])).
Proof.
  induction replica_list as [| replica rest IH]; intros w w' err Hput;
    cbn [Client.Put_transfers] in Hput.
  - injection Hput as <- <-. exists []. split; [constructor |]. left.
    rewrite app_nil_r. repeat split. constructor.
  - destruct (TransferWrite fuel w (replica_handles replica) slices)
      as [[transfer_err w1] |] eqn:Hwrite; [| discriminate].
    destruct (TransferData_calls _ _ _ _ _ _ _ Hwrite)
      as (_ & tr & Hcalls & Hengine & _ & Hshape).
    destruct (decide (transfer_err <> OK)) as [Hfail | Hok].
    + unfold logged in Hput. cbn [fst snd] in Hput.
      exists tr. split; [exact Hengine |]. right.
      assert (Hw' : calls w' = calls w1 ++ [CallPutRevoke key] /\ err <> OK).
      { destruct (fst (stub_PutRevoke (env w1) key)) as [code |];
          cbn [option_map RPC_CALL_OR_RETURN fst] in Hput.
        - destruct (decide (code <> OK)); injection Hput as <- <-;
            split; (reflexivity || assumption).
        - destruct (decide (RPC_FAIL <> OK)) as [_ | Habs];
            [| exfalso; apply Habs; discriminate].
          injection Hput as <- <-. split; [reflexivity | discriminate]. }
      destruct Hw' as [Hw' Herr]. split; [exact Herr |].
      rewrite Hw', Hcalls, <- app_assoc. reflexivity.
    + apply dec_stable in Hok. subst transfer_err.
      destruct (Hshape eq_refl)
        as (batch_id & tasks & polls & Htr & Hpolls & Hth & _).
      assert (Hsub : omap submitted tr = [tasks]).
      { rewrite Htr, !omap_app, (proj2 (engine_call_opens _)),
          (omap_submitted_polls _ _ Hpolls). reflexivity. }
      destruct (IH _ _ _ Hput)
        as (tr' & Hengine' & [(-> & Hcalls' & Hall) | (Herr & Hcalls')]).
      * exists (tr ++ tr').
        split; [apply Forall_app; split; assumption |]. left.
        split; [reflexivity |].
        split; [rewrite Hcalls', Hcalls, <- app_assoc; reflexivity |].
        rewrite omap_app, Hsub. simpl.
        constructor; [exact Hth | exact Hall].
      * exists (tr ++ tr').
        split; [apply Forall_app; split; assumption |]. right.
        split; [exact Herr |].
        rewrite Hcalls', Hcalls, <- !app_assoc. reflexivity.
Qed.

(** X13: the calls of [Put].  It first sends one [PutStart] with the
    lengths of the slices and their [size_t] sum.  When the reply is not
    [OK] it makes no other call and returns the code of the reply, except
    that [OBJECT_ALREADY_EXISTS] becomes [OK]: a [Put] over an existing
    key returns [OK] without transferring a byte.  When the reply is [OK]
    it either writes every replica, one request per handle with the size
    of the handle, and then ends with [PutEnd]; or it stops at the first
    write that fails, ends with [PutRevoke] and returns an error.
    [PutEnd] and [PutRevoke] are never both sent. *)
Theorem Client_Put_protocol (fuel : nat) (w w' : World) (key : string)
    (slices : list Slice) (config : ReplicateConfig) (err : ErrorCode) :
  Put fuel w key slices config = Some (err, w') ->
  let value_length := CalculateSliceSize slices in
  let slice_lengths := map size slices in
  exists rest,
    calls w' =
      calls w ++
      CallPutStart key value_length slice_lengths (replica_num config)
      :: rest /\
    match fst (stub_PutStart (env w) key value_length slice_lengths
                             (replica_num config)) with
    | None => err = RPC_FAIL /\ rest = []
    | Some (OK, replica_list) =>
        exists transfers,
          Forall (fun c => engine_call c = true) transfers /\
          ((rest = transfers ++ [CallPutEnd key] /\
            Forall2 (fun tasks replica =>
                       Forall2 (fun task handle =>
                                  opcode task = WRITE /\
                                  target_offset task = buffer handle /\
                                  length_ task = buf_size handle)
                               tasks (replica_handles replica))
                    (omap submitted transfers) replica_list) \/
           (rest = transfers ++ [CallPutRevoke key] /\ err <> OK))
    | Some (code, _) =>
        err = (if decide (code = OBJECT_ALREADY_EXISTS) then OK else code) /\
        rest = []
    end.
Proof.
  unfold Client.Put, CalculateSliceSize, logged. cbv zeta. cbn [fst snd].
  set (value_length := fold_left _ slices 0).
  destruct (stub_PutStart (env w) key value_length (map size slices)
              (replica_num config)) as [reply e1]. cbn [fst snd].
  set (w1 := mkWorld _ _).
  assert (Hstop : forall code : ErrorCode, code <> OK ->
            Some (if decide (code = OBJECT_ALREADY_EXISTS) then OK else code,
                  w1) = Some (err, w') ->
            exists rest,
              calls w' = calls w ++ CallPutStart key value_length
                           (map size slices) (replica_num config) :: rest /\
              err = (if decide (code = OBJECT_ALREADY_EXISTS) then OK
                     else code) /\ rest = []).
  { intros code _ Heq. injection Heq as <- <-. exists [].
    repeat split. }
  destruct reply as [[code replica_list] |]; cbn [RPC_CALL_OR_RETURN].
  2:{ rewrite decide_True by discriminate. intros Heq.
      destruct (Hstop RPC_FAIL ltac:(discriminate) Heq)
        as (rest & H1 & H2 & H3).
      exists rest. split; [exact H1 |]. split; assumption. }
  destruct (decide (code <> OK)) as [Hcode | Hok].
  { intros Heq. destruct (Hstop code Hcode Heq) as (rest & H1 & H2 & H3).
    exists rest. split; [exact H1 |].
    destruct code; try (split; assumption). contradiction. }
  apply dec_stable in Hok. subst code.
  destruct (Put_transfers fuel w1 key replica_list slices)
    as [[err1 w2] |] eqn:Htransfers; [| discriminate].
  destruct (Put_transfers_spec _ _ _ _ _ _ _ Htransfers)
    as (transfers & Hengine & [(-> & Hcalls & Hall) | (Herr & Hcalls)]).
  - rewrite decide_False by (intros H; apply H; reflexivity).
    intros Heq. injection Heq as <- <-.
    exists (transfers ++ [CallPutEnd key]). split.
    { simpl. rewrite Hcalls. unfold w1. simpl.
      rewrite <- !app_assoc. reflexivity. }
    exists transfers. split; [exact Hengine |]. left.
    split; [reflexivity | exact Hall].
  - rewrite decide_True by exact Herr.
    intros Heq. injection Heq as <- <-.
    exists (transfers ++ [CallPutRevoke key]). split.
    { rewrite Hcalls. unfold w1. simpl. rewrite <- !app_assoc. reflexivity. }
    exists transfers. split; [exact Hengine |]. right.
    split; [reflexivity | exact Herr].
Qed.

Lemma find_first (A : Type) (f : A -> bool) (pre post : list A) (x : A) :
  Forall (fun y => f y = false) pre -> f x = true ->
  List.find f (pre ++ x :: post) = Some x.
Proof.
  induction 1 as [| y pre Hy _ IH]; intros Hx; simpl.
  - rewrite Hx. reflexivity.
  - rewrite Hy. exact (IH Hx).
Qed.

Lemma find_none (A : Type) (f : A -> bool) (l : list A) :
  Forall (fun y => f y = false) l -> List.find f l = None.
Proof.
  induction 1 as [| y l Hy _ IH]; simpl; [reflexivity |].
  rewrite Hy. exact IH.
Qed.

(** X14: [Get] reads from the first [COMPLETE] replica of the list and
    from no other.  Whatever the replicas before it (none [COMPLETE]) and
    after it, the result is that of the list holding this replica alone:
    [INVALID_PARAMS], with no call to the engine, as soon as one of its
    handles is not complete, even when a later replica is sound.  A list
    without [COMPLETE] replica gives [INVALID_REPLICA], likewise without
    a call.  A read that returns [OK] has asked the engine for one [READ]
    request per handle, into slices that hold at least the bytes of the
    handles. *)
Theorem Client_Get_first_complete_replica (fuel : nat) (w : World)
    (pre post : list ReplicaInfo) (replica : ReplicaInfo)
    (slices : list Slice) :
  Forall (fun r => replica_status r <> COMPLETE) pre ->
  replica_status replica = COMPLETE ->
  Get_object_info fuel w (pre ++ replica :: post) slices =
    Get_object_info fuel w [replica] slices /\
  (Exists (fun handle => buf_status handle <> BUF_COMPLETE)
          (replica_handles replica) ->
   Get_object_info fuel w (pre ++ replica :: post) slices =
     Some (INVALID_PARAMS, w)) /\
  Get_object_info fuel w pre slices = Some (INVALID_REPLICA, w) /\
  (forall w',
     Get_object_info fuel w (pre ++ replica :: post) slices = Some (OK, w') ->
     Forall (fun handle => buf_status handle = BUF_COMPLETE)
            (replica_handles replica) /\
     sum_lengths (map buf_size (replica_handles replica)) mod u64_modulus <=
       CalculateSliceSize slices /\
     exists transfers tasks,
       calls w' = calls w ++ transfers /\
       Forall (fun c => engine_call c = true) transfers /\
       omap submitted transfers = [tasks] /\
       Forall2 (fun task handle =>
                  opcode task = READ /\
                  target_offset task = buffer handle /\
                  length_ task = buf_size handle)
               tasks (replica_handles replica)).
Proof.
  intros Hpre Hreplica.
  assert (Hpre' : Forall (fun r => bool_decide (replica_status r = COMPLETE)
                                   = false) pre).
  { eapply Forall_impl; [exact Hpre |]. intros r Hr.
    apply bool_decide_eq_false_2. exact Hr. }
  assert (Hfind : List.find (fun r => bool_decide
                               (replica_status r = COMPLETE))
                            (pre ++ replica :: post) = Some replica).
  { apply find_first; [exact Hpre' |].
    apply bool_decide_eq_true_2. exact Hreplica. }
  unfold Client.Get_object_info. rewrite Hfind, (find_none _ _ _ Hpre').
  simpl. rewrite bool_decide_eq_true_2 by exact Hreplica.
  split; [reflexivity |]. split; [| split; [reflexivity |]].
  - intros Hex.
    destruct (forallb _ (replica_handles replica)) eqn:Hall; [| reflexivity].
    exfalso. rewrite forallb_forall in Hall.
    apply Exists_exists in Hex as (handle & Hin & Hbad).
    apply list_elem_of_In in Hin. specialize (Hall handle Hin).
    apply bool_decide_eq_true in Hall. contradiction.
  - intros w' Hok.
    destruct (forallb _ (replica_handles replica)) eqn:Hall;
      [| discriminate].
    split.
    { apply Forall_forall. intros handle Hin.
      rewrite forallb_forall in Hall. apply list_elem_of_In in Hin.
      specialize (Hall handle Hin). apply bool_decide_eq_true in Hall.
      exact Hall. }
    unfold Client.TransferRead in Hok.
    destruct (decide (CalculateSliceSize slices < _)) as [? | Hfit];
      [discriminate |].
    split.
    { assert (Hsum : forall (hs : list BufHandle) (acc : Z),
                fold_left (fun total_size handle =>
                             u64 (total_size + buf_size handle)) hs (u64 acc) =
                u64 (acc + sum_lengths (map buf_size hs))).
      { induction hs as [| h hs IH]; intros acc; simpl.
        - rewrite Z.add_0_r. reflexivity.
        - rewrite IH. unfold u64.
          rewrite <- Z.add_assoc, Zplus_mod_idemp_l. reflexivity. }
      specialize (Hsum (replica_handles replica) 0).
      change (u64 0) with 0 in Hsum. rewrite Hsum in Hfit.
      unfold u64 in Hfit. rewrite Z.add_0_l in Hfit. lia. }
    destruct (TransferData_calls _ _ _ _ _ _ _ Hok)
      as (_ & transfers & Hcalls & Hengine & _ & Hshape).
    destruct (Hshape eq_refl)
      as (batch_id & tasks & polls & Htr & Hpolls & Hth & _).
    exists transfers, tasks. split; [exact Hcalls |].
    split; [exact Hengine |]. split; [| exact Hth].
    rewrite Htr, !omap_app, (proj2 (engine_call_opens _)),
      (omap_submitted_polls _ _ Hpolls). reflexivity.
Qed.

(** *** A transfer that fails *)

Lemma transfer_tasks_Some (op_code : OpCode) (handles : list BufHandle) :
  (forall e name, fst (openSegment e name) <> ERR_INVALID_ARGUMENT) ->
  forall (slices : list Slice) (w : World),
  Forall2 (fun handle slice => buf_size handle <= size slice) handles
          (take (length handles) slices) ->
  exists tasks,
    fst (transfer_tasks w handles slices op_code) = Some tasks /\
    length tasks = length handles.
Proof.
  intros Hopen. induction handles as [| handle handles IH];
    intros slices w Hfit.
  - exists []. split; reflexivity.
  - destruct slices as [| slice slices]; simpl in Hfit;
      [inversion Hfit |].
    apply Forall2_cons in Hfit as [Hle Hfit].
    cbn [Client.transfer_tasks].
    rewrite decide_False by lia. unfold logged. cbn [fst snd].
    rewrite decide_False by apply Hopen.
    destruct (IH slices (mkWorld (snd (openSegment (env w)
                                         (segment_name handle)))
                           (calls w ++ [CallOpenSegment
                                          (segment_name handle)])) Hfit)
      as (tasks & Htasks & Hlen).
    destruct (transfer_tasks _ handles slices op_code) as [[tasks' |] w2];
      cbn [fst] in Htasks; [| discriminate].
    injection Htasks as ->. eexists. split; [reflexivity |].
    simpl. congruence.
Qed.

Lemma status_round_all_failed (batch_id : Z) (count : nat) :
  (forall e b i, fst (getTransferStatus e b i) = (0, TRANSFER_FAILED)) ->
  forall (w : World) (i : nat) (has_err all_ready : bool),
  let res := status_round w batch_id i count has_err all_ready in
  exists polls,
    fst res = Some (if decide (count = 0%nat) then (has_err, all_ready)
                    else (true, false)) /\
    calls (snd res) = calls w ++ polls /\
    length polls = count /\
    Forall (fun c => exists j, c = CallGetTransferStatus batch_id j) polls.
Proof.
  intros Hfailed. induction count as [| count IH];
    intros w i has_err all_ready; cbv zeta.
  - exists []. simpl. rewrite app_nil_r. repeat split. constructor.
  - cbn [Client.status_round]. unfold logged. cbn [fst snd].
    pose proof (Hfailed (env w) batch_id i) as Hst.
    destruct (getTransferStatus (env w) batch_id i) as [[code st] e].
    cbn [fst] in Hst. injection Hst as -> ->. cbn [fst snd].
    rewrite decide_False by (intros H; apply H; reflexivity).
    destruct (IH (mkWorld e (calls w ++ [CallGetTransferStatus batch_id i]))
                (S i) (has_err || bool_decide (TRANSFER_FAILED =
                                               TRANSFER_FAILED))
                (all_ready && bool_decide (TRANSFER_FAILED = COMPLETED)))
      as (polls & Hres & Hcalls & Hlen & Hpolls). cbv zeta in *.
    exists (CallGetTransferStatus batch_id i :: polls).
    split; [| split; [| split]].
    + rewrite Hres. destruct (decide (count = 0%nat)); [| reflexivity].
      rewrite orb_true_r, andb_false_r. reflexivity.
    + rewrite Hcalls. simpl. rewrite <- app_assoc. reflexivity.
    + simpl. congruence.
    + constructor; [eauto | exact Hpolls].
Qed.

Lemma polling_all_failed (batch_id : Z) (batch_size : nat) (start_ts : Z) :
  (forall e b i, fst (getTransferStatus e b i) = (0, TRANSFER_FAILED)) ->
  (forall e, fst (getCurrentTimeInNano e) - start_ts
             <= 60 * kOneSecondInNano) ->
  (0 < batch_size)%nat ->
  forall (rounds : nat) (fuel : nat) (w : World) (try_num : Z),
  try_num = 3 - Z.of_nat rounds ->
  (rounds < fuel)%nat ->
  exists w' polls,
    polling fuel w batch_id batch_size start_ts try_num
      = Some (Some false, w') /\
    calls w' = calls w ++ polls /\
    length polls = (rounds * batch_size)%nat /\
    Forall (fun c => exists j, c = CallGetTransferStatus batch_id j) polls.
Proof.
  intros Hfailed Hclock Hsize.
  induction rounds as [| rounds IH]; intros fuel w try_num Htry Hfuel.
  - destruct fuel as [| fuel]; [lia |]. cbn [Client.polling].
    rewrite decide_False by lia. exists w, [].
    rewrite app_nil_r. repeat split. constructor.
  - destruct fuel as [| fuel]; [lia |]. cbn [Client.polling].
    rewrite decide_True by lia.
    rewrite decide_False by (specialize (Hclock (env w)); lia).
    set (w0 := mkWorld _ _).
    destruct (status_round_all_failed batch_id batch_size Hfailed w0 0
                false true) as (polls & Hres & Hcalls & Hlen & Hpolls).
    cbv zeta in *. rewrite decide_False in Hres by lia.
    destruct (status_round w0 batch_id 0 batch_size false true)
      as [res w1]. cbn [fst snd] in *. subst res.
    destruct (IH fuel (mkWorld (sleep_for (env w1) 10) (calls w1))
                (try_num + 1) ltac:(lia) ltac:(lia))
      as (w' & polls' & Hpoll & Hcalls' & Hlen' & Hpolls').
    exists w', (polls ++ polls'). split; [exact Hpoll |].
    split; [rewrite Hcalls'; simpl; rewrite Hcalls, <- app_assoc;
            reflexivity |].
    split; [rewrite length_app; lia |].
    apply Forall_app. split; assumption.
Qed.

(** X15: a transfer whose tasks all report [FAILED].  With handles that
    fit their slices, segments that open, a batch that is granted and
    submitted, and a clock within the 60 seconds, [TransferData] asks for
    the statuses of all tasks three times and returns [TRANSFER_FAIL];
    after the [submitTransfer] it makes no other call: the batch is not
    freed. *)
Theorem Client_TransferData_gives_up_unfreed (fuel : nat) (w : World)
    (handles : list BufHandle) (slices : list Slice) (op_code : OpCode) :
  handles <> [] ->
  Forall2 (fun handle slice => buf_size handle <= size slice) handles
          (take (length handles) slices) ->
  (forall e name, fst (openSegment e name) <> ERR_INVALID_ARGUMENT) ->
  (forall e n, fst (allocateBatchID e n) <> INVALID_BATCH_ID) ->
  (forall e b tasks, fst (submitTransfer e b tasks) = 0) ->
  (forall e b i, fst (getTransferStatus e b i) = (0, TRANSFER_FAILED)) ->
  (forall e e', fst (getCurrentTimeInNano e') - fst (getCurrentTimeInNano e)
                <= 60 * kOneSecondInNano) ->
  (3 < fuel)%nat ->
  exists w' batch_id tasks polls,
    TransferData fuel w handles slices op_code = Some (TRANSFER_FAIL, w') /\
    calls w' =
      calls w ++ map CallOpenSegment (map segment_name handles) ++
      [CallAllocateBatchID (Z.of_nat (length handles));
       CallSubmitTransfer batch_id tasks] ++ polls /\
    length polls = (3 * length handles)%nat /\
    Forall (fun c => exists j, c = CallGetTransferStatus batch_id j) polls.
Proof.
  intros Hne Hfit Hopen Halloc Hsubmit Hfailed Hclock Hfuel.
  assert (Hlen : (length handles <= length slices)%nat).
  { apply Forall2_length in Hfit. rewrite length_take in Hfit. lia. }
  unfold Client.TransferData. rewrite decide_False by lia.
  destruct (transfer_tasks_Some op_code handles Hopen slices w Hfit)
    as (tasks & Htasks & Hlen').
  destruct (transfer_tasks_spec op_code handles slices w)
    as (k & Hcalls & Hk). cbv zeta in Hcalls, Hk.
  destruct (transfer_tasks w handles slices op_code) as [res w1].
  cbn [fst snd] in *. subst res.
  destruct (Hk tasks eq_refl) as (-> & _). rewrite firstn_all in Hcalls.
  unfold logged. cbn [fst snd].
  pose proof (Halloc (env w1) (Z.of_nat (length tasks))) as Hbatch.
  destruct (allocateBatchID (env w1) (Z.of_nat (length tasks)))
    as [batch_id e2]. cbn [fst snd] in *.
  rewrite decide_False by exact Hbatch. cbn [env calls].
  pose proof (Hsubmit e2 batch_id tasks) as Hsub.
  destruct (submitTransfer e2 batch_id tasks) as [error_code e3].
  cbn [fst snd env calls] in *. subst error_code.
  rewrite decide_False by (intros H; apply H; reflexivity).
  pose proof (Hclock e3) as Hts.
  destruct (getCurrentTimeInNano e3) as [start_ts e4]. cbn [fst snd] in *.
  assert (Hsize : (0 < length tasks)%nat)
    by (rewrite Hlen'; destruct handles; [congruence | simpl; lia]).
  destruct (polling_all_failed batch_id (length tasks) start_ts Hfailed
              Hts Hsize 3 fuel
              (mkWorld e4 ((calls w1 ++ [CallAllocateBatchID
                                           (Z.of_nat (length tasks))])
                           ++ [CallSubmitTransfer batch_id tasks]))
              0 ltac:(lia) Hfuel)
    as (w' & polls & Hpoll & Hcalls' & Hpl & Hpolls).
  rewrite Hpoll. exists w', batch_id, tasks, polls.
  split; [reflexivity |]. split; [| split; [| exact Hpolls]].
  - rewrite Hcalls'. simpl. rewrite Hcalls, Hlen', <- !app_assoc.
    reflexivity.
  - rewrite Hpl, Hlen'. reflexivity.
Qed.

End ClientProperties.

(** ** The client on the sample environment *)

(** Six bytes in two slices against two handles of four and two bytes. *)
Lemma Client_TransferData_spec_witness :
  exists w' batch_id tasks polls,
    Client.TransferData sample_openSegment (-1) sample_allocateBatchID (-1)
      sample_submitTransfer sample_getTransferStatus sample_freeBatchID
      sample_getCurrentTimeInNano sample_sleep_for 5 sample_client
      [Client.mkBufHandle "segment" 0 4 Client.BUF_COMPLETE;
       Client.mkBufHandle "segment" 4 2 Client.BUF_COMPLETE]
      sample_slices Client.WRITE = Some (Client.OK, w') /\
    Client.calls w' =
      [Client.CallOpenSegment "segment"; Client.CallOpenSegment "segment";
       Client.CallAllocateBatchID 2;
       Client.CallSubmitTransfer batch_id tasks] ++
      polls ++ [Client.CallFreeBatchID batch_id].
Proof.
  pose (res := Client.TransferData sample_openSegment (-1)
                 sample_allocateBatchID (-1) sample_submitTransfer
                 sample_getTransferStatus sample_freeBatchID
                 sample_getCurrentTimeInNano sample_sleep_for 5 sample_client
                 [Client.mkBufHandle "segment" 0 4 Client.BUF_COMPLETE;
                  Client.mkBufHandle "segment" 4 2 Client.BUF_COMPLETE]
                 sample_slices Client.WRITE).
  pose (w' := match res with Some (_, w) => w | None => sample_client end).
  assert (Hres : res = Some (Client.OK, w')) by (vm_compute; reflexivity).
  destruct (proj2 (Client_TransferData_spec sample_openSegment (-1)
                     sample_allocateBatchID (-1) sample_submitTransfer
                     sample_getTransferStatus sample_freeBatchID
                     sample_getCurrentTimeInNano sample_sleep_for 5
                     sample_client _ sample_slices Client.WRITE) w' Hres)
    as (batch_id & tasks & polls & Hcalls & _).
  exists w', batch_id, tasks, polls. split; [exact Hres | exact Hcalls].
Defined.

(** [Put] of "k" ends with [PutEnd]; [Put] of "dup" stops after
    [PutStart]. *)
Lemma Client_Put_protocol_witness :
  exists w' rest,
    Client.Put sample_stub_PutStart sample_stub_PutEnd sample_stub_PutEnd
      sample_openSegment (-1) sample_allocateBatchID (-1)
      sample_submitTransfer sample_getTransferStatus sample_freeBatchID
      sample_getCurrentTimeInNano sample_sleep_for 5 sample_client "dup"
      sample_slices (mkConfig 1) = Some (Client.OK, w') /\
    Client.calls w' =
      Client.CallPutStart "dup" 6 [4; 2] 1 :: rest /\
    rest = [].
Proof.
  pose (res := Client.Put sample_stub_PutStart sample_stub_PutEnd
                 sample_stub_PutEnd sample_openSegment (-1)
                 sample_allocateBatchID (-1) sample_submitTransfer
                 sample_getTransferStatus sample_freeBatchID
                 sample_getCurrentTimeInNano sample_sleep_for 5 sample_client
                 "dup" sample_slices (mkConfig 1)).
  pose (w' := match res with Some (_, w) => w | None => sample_client end).
  assert (Hres : res = Some (Client.OK, w')) by (vm_compute; reflexivity).
  destruct (Client_Put_protocol sample_stub_PutStart sample_stub_PutEnd
              sample_stub_PutEnd sample_openSegment (-1)
              sample_allocateBatchID (-1) sample_submitTransfer
              sample_getTransferStatus sample_freeBatchID
              sample_getCurrentTimeInNano sample_sleep_for 5 sample_client w'
              "dup" sample_slices (mkConfig 1) Client.OK Hres)
    as (rest & Hcalls & _ & Hrest).
  exists w', rest. split; [exact Hres |]. split; [exact Hcalls | exact Hrest].
Defined.

(** The failed replica is passed over and the complete one is read. *)
Lemma Client_Get_first_complete_replica_witness :
  Client.Get_object_info sample_openSegment (-1) sample_allocateBatchID (-1)
    sample_submitTransfer sample_getTransferStatus sample_freeBatchID
    sample_getCurrentTimeInNano sample_sleep_for 5 sample_client
    ([Client.mkReplicaInfo [] FAILED] ++
     Client.mkReplicaInfo
       [Client.mkBufHandle "segment" 0 4 Client.BUF_COMPLETE;
        Client.mkBufHandle "segment" 4 2 Client.BUF_COMPLETE] COMPLETE
     :: []) sample_slices =
  Client.Get_object_info sample_openSegment (-1) sample_allocateBatchID (-1)
    sample_submitTransfer sample_getTransferStatus sample_freeBatchID
    sample_getCurrentTimeInNano sample_sleep_for 5 sample_client
    [Client.mkReplicaInfo
       [Client.mkBufHandle "segment" 0 4 Client.BUF_COMPLETE;
        Client.mkBufHandle "segment" 4 2 Client.BUF_COMPLETE] COMPLETE]
    sample_slices.
Proof.
  apply (Client_Get_first_complete_replica sample_openSegment (-1)
           sample_allocateBatchID (-1) sample_submitTransfer
           sample_getTransferStatus sample_freeBatchID
           sample_getCurrentTimeInNano sample_sleep_for 5 sample_client
           [Client.mkReplicaInfo [] FAILED] []).
  - repeat constructor. discriminate.
  - reflexivity.
Defined.

(** With the failing engine the two tasks are asked for three times. *)
Lemma Client_TransferData_gives_up_unfreed_witness :
  exists w' batch_id tasks polls,
    Client.TransferData sample_openSegment (-1) sample_allocateBatchID (-1)
      sample_submitTransfer failing_getTransferStatus sample_freeBatchID
      sample_getCurrentTimeInNano sample_sleep_for 5 sample_client
      [Client.mkBufHandle "segment" 0 4 Client.BUF_COMPLETE;
       Client.mkBufHandle "segment" 4 2 Client.BUF_COMPLETE]
      sample_slices Client.WRITE = Some (Client.TRANSFER_FAIL, w') /\
    Client.calls w' =
      Client.calls sample_client ++
      map Client.CallOpenSegment ["segment"; "segment"] ++
      [Client.CallAllocateBatchID 2;
       Client.CallSubmitTransfer batch_id tasks] ++ polls /\
    length polls = 6%nat.
Proof.
  destruct (Client_TransferData_gives_up_unfreed sample_openSegment (-1)
              sample_allocateBatchID (-1) sample_submitTransfer
              failing_getTransferStatus sample_freeBatchID
              sample_getCurrentTimeInNano sample_sleep_for 5 sample_client
              [Client.mkBufHandle "segment" 0 4 Client.BUF_COMPLETE;
               Client.mkBufHandle "segment" 4 2 Client.BUF_COMPLETE]
              sample_slices Client.WRITE)
    as (w' & batch_id & tasks & polls & Hres & Hcalls & Hlen & _).
  - discriminate.
  - repeat constructor; simpl; lia.
  - intros e name. simpl. lia.
  - intros e n. simpl. lia.
  - reflexivity.
  - reflexivity.
  - intros e e'. unfold Client.kOneSecondInNano. simpl. lia.
  - lia.
  - exists w', batch_id, tasks, polls. repeat split; assumption.
Defined.

(** ** The client buffers of the engine *)

Section EngineBuffers.

Context {A : Type} `{!BufferAllocator A}.
Variable kMaxSliceSize : Z.

Local Set Default Proof Using "Type".

(** The slices [allocateSlices(slices, object_info, length)] adds stay in
    the vector when an allocation is refused. *)
Lemma allocateSlices_handles_trace (hs : list Handle) :
  forall (w w' : World A) (slices out : list Slice) (len len' ret : Z),
  allocateSlices_handles kMaxSliceSize w slices len hs
    = Returned (ret, out, len', w') ->
  client_ w' = client_ w /\ heap w' = heap w /\
  exists new,
    out = slices ++ new /\
    ((ret = 0 /\ trace w' = trace w ++ map alloc_event new) \/
     (ret = 1 /\
      exists n, trace w' = trace w ++ map alloc_event new ++
                           [EvAllocate n None])).
Proof.
  induction hs as [| handle hs IH];
    intros w w' slices out len len' ret Hal; simpl in Hal.
  - injection Hal as <- <- <- <-. repeat split. exists [].
    rewrite !app_nil_r. split; [reflexivity |].
    left. split; reflexivity.
  - destruct (decide (handle_size handle <= kMaxSliceSize)); [| discriminate].
    destruct (do_allocate w (handle_size handle)) as [[p |] w1] eqn:Hdo;
      destruct (do_allocate_spec _ _ _ _ Hdo) as (_ & Hc & Hh & Ht).
    + destruct (IH _ _ _ _ _ _ _ Hal)
        as (Hc' & Hh' & new & -> & Htrace).
      split; [congruence |]. split; [congruence |].
      exists (mkSlice p (handle_size handle) :: new).
      split; [rewrite <- app_assoc; reflexivity |].
      destruct Htrace as [[-> Htr] | [-> [n Htr]]]; [left | right];
        (split; [reflexivity |]).
      * rewrite Htr, Ht. simpl. rewrite <- app_assoc. reflexivity.
      * exists n. rewrite Htr, Ht. simpl. rewrite <- !app_assoc.
        reflexivity.
    + injection Hal as <- <- <- <-.
      split; [exact Hc |]. split; [exact Hh |]. exists [].
      rewrite app_nil_r. split; [reflexivity |].
      right. split; [reflexivity |]. exists (handle_size handle).
      simpl. exact Ht.
Qed.

(** X16: [put] gives back every client buffer it has taken.  With a
    client, its calls are the allocations of the slices, then either the
    allocation that is refused or the one call of [Client::Put], then the
    release of each slice allocated, in the order of allocation; this
    also when [Client::Put] fails.  Without a client it makes no call. *)
Theorem put_releases_its_slices (w w' : World A) (key : string)
    (value : list byte) (ret : Z) :
  put kMaxSliceSize w key value = Some (ret, w') ->
  (client_ w = None /\ ret = 1 /\ w' = w) \/
  exists allocated,
    (ret = 0 \/ ret = 1) /\
    ((trace w' = trace w ++ map alloc_event allocated ++
                 [EvClientPut key] ++ map dealloc_event allocated) \/
     (ret = 1 /\
      exists n,
        trace w' = trace w ++ map alloc_event allocated ++
                   [EvAllocate n None] ++ map dealloc_event allocated)).
Proof.
  unfold put. destruct (client_ w) as [st |] eqn:Hclient.
  2:{ intros Heq. injection Heq as <- <-. left. auto. }
  destruct (allocateSlices kMaxSliceSize w [] value)
    as [[[ret0 slices] w1] |] eqn:Hal; [| discriminate].
  destruct (allocateSlices_trace _ _ _ _ _ _ Hal)
    as (_ & [(-> & _ & Htr) | (-> & -> & allocated & n & Htr)]).
  - rewrite decide_False by (intros H'; apply H'; reflexivity).
    destruct (Client_Put kMaxSliceSize st (heap w1) key slices (mkConfig 1))
      as [error_code st'].
    set (w2 := mkWorld _ _ _ _).
    destruct (freeSlices_spec slices w2) as (_ & _ & Hfree & _).
    assert (Htrace : trace (freeSlices w2 slices) =
                     trace w ++ map alloc_event slices ++
                     [EvClientPut key] ++ map dealloc_event slices).
    { rewrite Hfree. unfold w2. simpl. rewrite Htr, <- !app_assoc.
      reflexivity. }
    destruct (decide (error_code <> OK)); intros Heq;
      injection Heq as <- <-; right; exists slices;
      (split; [auto | left; exact Htrace]).
  - rewrite decide_True by lia. intros Heq. injection Heq as <- <-.
    right. exists allocated. split; [auto |]. right.
    split; [reflexivity |]. exists n. exact Htr.
Qed.

(** X17: [Get] gives back its client buffers only when every allocation
    has succeeded.  With a client and a string to fill, its calls are
    [Client::Query], then the allocations of the slices, then either
    [Client::Get] and the release of each slice, whether [Client::Get]
    succeeds or not, or, when an allocation is refused, nothing more:
    [Get] returns false and the slices allocated before stay
    allocated. *)
Theorem Get_releases_unless_allocation_fails (w w' : World A) (key : string)
    (old : list byte) (st : gmap string ObjectMetadata) (b : bool)
    (value : option (list byte)) :
  client_ w = Some st ->
  Get kMaxSliceSize w key (Some old) = Returned (b, value, w') ->
  exists allocated,
    trace w' = trace w ++ [EvQuery key] ++ map alloc_event allocated ++
               [EvClientGet key] ++ map dealloc_event allocated \/
    (b = false /\ value = Some old /\
     ((allocated = [] /\ trace w' = trace w ++ [EvQuery key]) \/
      exists n,
        trace w' = trace w ++ [EvQuery key] ++ map alloc_event allocated ++
                   [EvAllocate n None])).
Proof.
  intros Hclient. unfold Get. rewrite Hclient.
  destruct (Client_Query st key) as [error_code object_info].
  set (w0 := mkWorld _ _ _ _).
  destruct (decide (error_code <> OK)) as [Herr | Hok].
  { intros Heq. injection Heq as <- <- <-. exists []. right.
    repeat split. left. split; reflexivity. }
  unfold allocateSlices_object_info.
  destruct (replica_list object_info) as [| replica rest].
  { rewrite decide_True by lia. intros Heq. injection Heq as <- <- <-.
    exists []. right. repeat split. left. split; reflexivity. }
  destruct (allocateSlices_handles kMaxSliceSize w0 [] 0 (handles replica))
    as [[[[ret slices] str_length] w1] |] eqn:Hal; [| discriminate].
  destruct (allocateSlices_handles_trace _ _ _ _ _ _ _ _ Hal)
    as (_ & _ & new & Hout & Htrace). simpl in Hout. subst slices.
  destruct Htrace as [[-> Htr] | [-> [m Htr]]].
  - rewrite decide_False by (intros H'; apply H'; reflexivity).
    destruct (Client_Get (heap w1) object_info new) as [error_code' h'].
    set (w2 := mkWorld _ _ _ _).
    destruct (freeSlices_spec new w2) as (_ & _ & Hfree & _).
    assert (Htrace : trace (freeSlices w2 new) =
                     trace w ++ [EvQuery key] ++ map alloc_event new ++
                     [EvClientGet key] ++ map dealloc_event new).
    { rewrite Hfree. unfold w2. simpl. rewrite Htr. unfold w0. simpl.
      rewrite <- !app_assoc. reflexivity. }
    destruct (decide (error_code' <> OK)); intros Heq;
      injection Heq as <- <- <-; exists new; left; exact Htrace.
  - rewrite decide_True by lia. intros Heq. injection Heq as <- <- <-.
    exists new. right. repeat split. right. exists m.
    rewrite Htr. unfold w0. simpl. rewrite <- !app_assoc. reflexivity.
Qed.

End EngineBuffers.

(** With five bytes of buffer the [Get] of the six-byte "k" takes four
    bytes and is refused the other two: nothing is deallocated. *)
Lemma Get_releases_unless_allocation_fails_witness :
  exists w',
    Get 4 cramped_world "k" (Some []) = Returned (false, Some [], w') /\
    trace w' = [EvQuery "k"; EvAllocate 4 (Some 0); EvAllocate 2 None].
Proof.
  pose (w' := match Get 4 cramped_world "k" (Some []) with
              | Returned (_, _, w) => w
              | AssertionFailed => cramped_world
              end).
  assert (Hget : Get 4 cramped_world "k" (Some [])
                 = Returned (false, Some [], w'))
    by (vm_compute; reflexivity).
  assert (Hclient : exists st, client_ cramped_world = Some st)
    by (vm_compute; eauto).
  destruct Hclient as [st Hclient].
  destruct (Get_releases_unless_allocation_fails 4 cramped_world w' "k" []
              st false (Some []) Hclient Hget) as (allocated & Hcases).
  exists w'. split; [exact Hget |]. vm_compute. reflexivity.
Defined.

(** [put] of the sample value: two allocations, [Client::Put], two
    releases. *)
Lemma put_releases_its_slices_witness :
  exists w',
    put 4 sample_world "k" sample_value = Some (0, w') /\
    trace w' =
      [EvAllocate 4 (Some 4096); EvAllocate 2 (Some 4100); EvClientPut "k";
       EvDeallocate 4096 4; EvDeallocate 4100 2].
Proof.
  pose (w' := match put 4 sample_world "k" sample_value with
              | Some (_, w) => w
              | None => sample_world
              end).
  assert (Hput : put 4 sample_world "k" sample_value = Some (0, w'))
    by (vm_compute; reflexivity).
  destruct (put_releases_its_slices 4 sample_world w' "k" sample_value 0
              Hput) as [(Habs & _) | (allocated & _ & Hcases)].
  - vm_compute in Habs. discriminate Habs.
  - exists w'. split; [exact Hput |]. vm_compute. reflexivity.
Defined.

(** ** The benchmark workers *)

Lemma digit_inj (a b : Z) :
  0 <= a < 10 -> 0 <= b < 10 -> digit a = digit b -> a = b.
Proof.
  intros Ha Hb Heq. unfold digit in Heq.
  apply (f_equal Ascii.nat_of_ascii) in Heq.
  rewrite !Ascii.nat_ascii_embedding in Heq by lia. lia.
Qed.

Lemma setw_setfill_0_inj (width : nat) :
  forall n m : Z,
  setw_setfill_0 width n = setw_setfill_0 width m ->
  n mod 10 ^ Z.of_nat width = m mod 10 ^ Z.of_nat width.
Proof.
  induction width as [| width IH]; intros n m Heq.
  - simpl. rewrite !Z.mod_1_r. reflexivity.
  - cbn [setw_setfill_0] in Heq. apply app_inj_tail in Heq as [Hhigh Hlow].
    apply digit_inj in Hlow; [| apply Z.mod_pos_bound; lia ..].
    apply IH in Hhigh.
    rewrite Nat2Z.inj_succ, Z.pow_succ_r by lia.
    rewrite !Z.rem_mul_r by lia. rewrite Hhigh, Hlow. reflexivity.
Qed.

Lemma string_of_list_ascii_inj (l l' : list Ascii.ascii) :
  String.string_of_list_ascii l = String.string_of_list_ascii l' -> l = l'.
Proof.
  intros Heq. apply (f_equal String.list_ascii_of_string) in Heq.
  rewrite !String.list_ascii_of_string_of_list_ascii in Heq. exact Heq.
Qed.

Lemma append_inj_prefix (prefix s s' : string) :
  String.app prefix s = String.app prefix s' -> s = s'.
Proof.
  induction prefix as [| c prefix IH]; simpl; intros Heq; [exact Heq |].
  injection Heq as Heq. exact (IH Heq).
Qed.

(** Two indices an [int] can hold, none negative, have different keys. *)
Lemma GenerateKey_inj (i j : Z) :
  0 <= i < 10 ^ 10 -> 0 <= j < 10 ^ 10 ->
  GenerateKey i = GenerateKey j -> i = j.
Proof.
  intros Hi Hj Heq. unfold GenerateKey in Heq.
  assert (Hdigits : setw_setfill_0 10 i = setw_setfill_0 10 j).
  { apply string_of_list_ascii_inj.
    exact (append_inj_prefix _ _ _ Heq). }
  apply setw_setfill_0_inj in Hdigits.
  change (10 ^ Z.of_nat 10) with (10 ^ 10) in Hdigits.
  rewrite !Z.mod_small in Hdigits by lia. exact Hdigits.
Qed.

Lemma NoDup_GenerateKey (n : Z) :
  0 <= n <= 10 ^ 10 -> NoDup (map GenerateKey (seqZ 0 n)).
Proof.
  intros Hn. change (map GenerateKey (seqZ 0 n))
    with (GenerateKey <$> seqZ 0 n).
  apply NoDup_fmap_2_strong; [| apply NoDup_seqZ].
  intros i j Hi Hj. apply elem_of_seqZ in Hi. apply elem_of_seqZ in Hj.
  apply GenerateKey_inj; lia.
Qed.

(** The ranges of [Run] follow one another from 0 to [num_operations]. *)
Lemma Run_ranges_concat (num_operations num_threads : Z) :
  1 <= num_threads -> 0 <= num_operations ->
  concat (map (fun r => seqZ (fst r) (snd r - fst r))
              (Run_ranges num_operations num_threads)) =
  seqZ 0 num_operations.
Proof.
  intros Ht Hn. unfold Run_ranges.
  set (q := Z.quot num_operations num_threads).
  assert (Hq : 0 <= q) by (apply Z.quot_pos; lia).
  assert (Hinner : forall k : nat, Z.of_nat k <= num_threads - 1 ->
            concat (map (fun r => seqZ (fst r) (snd r - fst r))
                        (map (thread_range num_operations num_threads)
                             (seqZ 0 (Z.of_nat k)))) =
            seqZ 0 (Z.of_nat k * q)).
  { induction k as [| k IH]; intros Hk; [reflexivity |].
    rewrite Nat2Z.inj_succ, <- Z.add_1_r, seqZ_app by lia.
    rewrite !map_app, concat_app, IH by lia.
    change (seqZ (0 + Z.of_nat k) 1) with [0 + Z.of_nat k].
    cbn [map concat]. rewrite thread_range_inner by lia.
    cbn [fst snd]. rewrite app_nil_r, Z.add_0_l.
    fold q. replace (Z.of_nat k * q + q - Z.of_nat k * q) with q by lia.
    replace ((Z.of_nat k + 1) * q) with (Z.of_nat k * q + q) by lia.
    rewrite (seqZ_app 0 (Z.of_nat k * q) q) by lia. reflexivity. }
  replace num_threads with (Z.of_nat (Z.to_nat (num_threads - 1)) + 1)
    at 2 by lia.
  rewrite seqZ_app by lia. rewrite !map_app, concat_app, Hinner by lia.
  change (seqZ (0 + Z.of_nat (Z.to_nat (num_threads - 1))) 1)
    with [0 + Z.of_nat (Z.to_nat (num_threads - 1))].
  cbn [map concat].
  replace (0 + Z.of_nat (Z.to_nat (num_threads - 1)))
    with (num_threads - 1) by lia.
  rewrite thread_range_last. cbn [fst snd]. rewrite app_nil_r. fold q.
  rewrite Z2Nat.id by lia.
  assert (Hr : 0 <= Z.rem num_operations num_threads)
    by (apply Z.rem_nonneg; lia).
  pose proof (Z.quot_rem' num_operations num_threads) as Hdiv. fold q in Hdiv.
  replace ((num_threads - 1) * q + q + Z.rem num_operations num_threads -
           (num_threads - 1) * q)
    with (q + Z.rem num_operations num_threads) by lia.
  rewrite <- seqZ_app by nia. f_equal. nia.
Qed.

Section BenchmarkProperties.

Import Benchmark.

Local Set Default Proof Using "Type".

Context {E Q : Type}.
Variable engine_Put : E -> string -> bool * E.
Variable PushToQueue : Q -> string -> bool * Q.
Variable asserts : bool.

Local Abbreviation PrefillData_loop :=
  (Benchmark.PrefillData_loop engine_Put PushToQueue asserts).
Local Abbreviation PrefillData :=
  (Benchmark.PrefillData engine_Put PushToQueue asserts).

Lemma PrefillData_loop_spec (n : nat) :
  forall (i : Z) (p p' : Progress E Q),
  PrefillData_loop n i p = Returned p' ->
  exists results : list bool,
    length results = n /\
    engine_calls p' =
      engine_calls p ++
      zip (map GenerateKey (seqZ i (Z.of_nat n))) results /\
    completed p' =
      completed p + Z.of_nat (length (List.filter (fun b => b) results)) /\
    (asserts = true -> Forall (fun b => b = true) results).
Proof.
  induction n as [| n IH]; intros i p p' Hloop;
    cbn [Benchmark.PrefillData_loop] in Hloop.
  - injection Hloop as <-. exists []. simpl. rewrite app_nil_r.
    repeat split; [lia | constructor].
  - destruct (engine_Put (engine p) (GenerateKey i)) as [success e'].
    destruct (asserts && negb success) eqn:Hassert; [discriminate |].
    assert (Hseq : seqZ i (Z.of_nat (S n)) = i :: seqZ (i + 1) (Z.of_nat n)).
    { rewrite Nat2Z.inj_succ, <- Z.add_1_l, seqZ_app by lia.
      reflexivity. }
    destruct success.
    + destruct (PushToQueue (message_queue p) (GenerateKey i)) as [ok q'].
      destruct (IH _ _ _ Hloop) as (results & Hlen & Hcalls & Hdone & Hall).
      exists (true :: results). rewrite Hseq. simpl in *.
      split; [congruence |].
      split; [rewrite Hcalls, <- app_assoc; reflexivity |].
      split; [lia |]. intros Ha. constructor; [reflexivity | auto].
    + destruct (IH _ _ _ Hloop) as (results & Hlen & Hcalls & Hdone & Hall).
      exists (false :: results). rewrite Hseq. simpl in *.
      split; [congruence |].
      split; [rewrite Hcalls, <- app_assoc; reflexivity |].
      split; [lia |]. intros Ha. rewrite Ha in Hassert. discriminate.
Qed.

(** X19: the keys of a prefill run.  A worker of [Run] with the range
    [[start_idx, end_idx)] calls [engine->Put] once for each index of its
    range, in order, with the key [GenerateKey] gives, and adds to
    [completed] the number of calls that succeed, so [end_idx -
    start_idx] only when all do, as they must where [assert] is compiled
    in.  Over the ranges [Run] hands to its workers these keys are those
    of the indices 0 to [num_operations - 1], each once, and no two of
    them are equal. *)
Theorem Benchmark_prefill_keys (num_operations num_threads : Z)
    (start_idx end_idx : Z) (p p' : Progress E Q) :
  1 <= num_threads -> 0 <= num_operations <= INT_MAX ->
  (start_idx, end_idx) ∈ Run_ranges num_operations num_threads ->
  PrefillData start_idx end_idx p = Returned p' ->
  (exists results : list bool,
     engine_calls p' =
       engine_calls p ++
       zip (map GenerateKey (seqZ start_idx (end_idx - start_idx)))
           results /\
     length results = Z.to_nat (end_idx - start_idx) /\
     completed p' =
       completed p +
       Z.of_nat (length (List.filter (fun b => b) results)) /\
     (completed p' = completed p + (end_idx - start_idx) <->
      Forall (fun b => b = true) results) /\
     (asserts = true -> Forall (fun b => b = true) results)) /\
  concat (map (fun r => map GenerateKey (seqZ (fst r) (snd r - fst r)))
              (Run_ranges num_operations num_threads)) =
    map GenerateKey (seqZ 0 num_operations) /\
  NoDup (map GenerateKey (seqZ 0 num_operations)).
Proof.
  intros Ht Hn Hrange Hprefill.
  assert (Hle : start_idx <= end_idx).
  { apply list_elem_of_lookup in Hrange as [k Hk].
    assert (Hklt : (k < Z.to_nat num_threads)%nat).
    { rewrite <- (Run_ranges_length num_operations num_threads).
      eapply lookup_lt_Some. exact Hk. }
    rewrite <- (Nat2Z.id k) in Hk.
    rewrite Run_ranges_lookup in Hk by lia.
    injection Hk as Hs He. unfold thread_range in *.
    assert (0 <= Z.quot num_operations num_threads)
      by (apply Z.quot_pos; lia).
    assert (0 <= Z.rem num_operations num_threads)
      by (apply Z.rem_nonneg; lia).
    simpl in *. destruct (decide _); lia. }
  split; [| split].
  - unfold Benchmark.PrefillData in Hprefill.
    destruct (PrefillData_loop_spec _ _ _ _ Hprefill)
      as (results & Hlen & Hcalls & Hdone & Hall).
    rewrite Z2Nat.id in Hcalls by lia.
    exists results. split; [exact Hcalls |]. split; [exact Hlen |].
    split; [exact Hdone |]. split; [| exact Hall].
    rewrite Hdone.
    assert (Hcount : forall l : list bool,
              (length (List.filter (fun b => b) l) <= length l)%nat /\
              (length (List.filter (fun b => b) l) = length l <->
               Forall (fun b => b = true) l)).
    { induction l as [| [|] l [IH1 IH2]]; simpl.
      - split; [lia |]. split; [constructor | reflexivity].
      - split; [lia |]. split.
        + intros Heq. constructor; [reflexivity |]. apply IH2. lia.
        + intros Hl. apply Forall_cons in Hl as [_ Hl].
          apply IH2 in Hl. lia.
      - split; [lia |]. split; [lia |].
        intros Hl. apply Forall_cons in Hl as [Habs _]. discriminate. }
    destruct (Hcount results) as [_ Hiff]. rewrite <- Hiff. lia.
  - rewrite <- Run_ranges_concat with (num_threads := num_threads) by lia.
    generalize (Run_ranges num_operations num_threads). intros ranges.
    induction ranges as [| r ranges IH]; simpl; [reflexivity |].
    rewrite map_app, IH. reflexivity.
  - apply NoDup_GenerateKey. unfold INT_MAX in Hn. lia.
Qed.

End BenchmarkProperties.

(** The first of three workers for ten operations puts the keys of 0, 1
    and 2. *)
Lemma Benchmark_prefill_keys_witness :
  exists p',
    Benchmark.PrefillData sample_engine_Put sample_PushToQueue true 0 3
      sample_progress = Returned p' /\
    Benchmark.completed p' = 3 /\
    NoDup (map GenerateKey (seqZ 0 10)).
Proof.
  pose (p' := match Benchmark.PrefillData sample_engine_Put
                      sample_PushToQueue true 0 3 sample_progress with
              | Returned p => p
              | AssertionFailed => sample_progress
              end).
  assert (Hrun : Benchmark.PrefillData sample_engine_Put sample_PushToQueue
                   true 0 3 sample_progress = Returned p')
    by (vm_compute; reflexivity).
  assert (Hrange : (0, 3) ∈ Run_ranges 10 3).
  { assert (Heq : Run_ranges 10 3 = [(0, 3); (3, 6); (6, 10)])
      by reflexivity.
    rewrite Heq. left. }
  destruct (Benchmark_prefill_keys sample_engine_Put sample_PushToQueue true
              10 3 0 3 sample_progress p' ltac:(lia)
              ltac:(unfold INT_MAX; lia) Hrange Hrun)
    as ((results & _ & _ & _ & Hiff & Hall) & _ & Hnodup).
  exists p'. split; [exact Hrun |]. split; [| exact Hnodup].
  apply (proj2 Hiff). apply Hall. reflexivity.
Defined.

Section DecodeProperties.

Import Benchmark.

Local Set Default Proof Using "Type".

Context {E Q : Type}.
Variable engine_Get : E -> string -> bool * Z * E.
Variable PopFromQueue : Q -> option string * Q.
Variable value_size_bytes : Z.

Local Abbreviation DecodeData_loop :=
  (Benchmark.DecodeData_loop engine_Get PopFromQueue value_size_bytes).
Local Abbreviation DecodeData :=
  (Benchmark.DecodeData engine_Get PopFromQueue value_size_bytes).

Lemma DecodeData_loop_spec (n : nat) :
  forall p : Progress E Q,
  exists rounds : list (option (string * bool * Z)),
    length rounds = n /\
    engine_calls (DecodeData_loop n p) =
      engine_calls p ++
      omap (option_map (fun r => (fst (fst r), snd (fst r)))) rounds /\
    completed (DecodeData_loop n p) =
      completed p +
      Z.of_nat (length (List.filter
                          (fun round =>
                             match round with
                             | Some (_, success, size_of_value) =>
                                 success &&
                                 bool_decide (size_of_value
                                              = value_size_bytes)
                             | None => false
                             end) rounds)).
Proof.
  induction n as [| n IH]; intros p; cbn [Benchmark.DecodeData_loop].
  - exists []. simpl. rewrite app_nil_r. repeat split. lia.
  - destruct (PopFromQueue (message_queue p)) as [[key |] q'].
    + destruct (engine_Get (engine p) key) as [[success size_of_value] e']
        eqn:Hget.
      set (calls := engine_calls p ++ [(key, success)]).
      assert (Hstep : forall done,
                done = completed p +
                       (if success && bool_decide (size_of_value
                                                   = value_size_bytes)
                        then 1 else 0) ->
                exists rounds : list (option (string * bool * Z)),
                  length rounds = S n /\
                  engine_calls (DecodeData_loop n
                                  (mkProgress e' q' calls done)) =
                    engine_calls p ++
                    omap (option_map (fun r => (fst (fst r), snd (fst r))))
                         rounds /\
                  completed (DecodeData_loop n
                               (mkProgress e' q' calls done)) =
                    completed p +
                    Z.of_nat (length (List.filter
                      (fun round =>
                         match round with
                         | Some (_, success, size_of_value) =>
                             success &&
                             bool_decide (size_of_value = value_size_bytes)
                         | None => false
                         end) rounds))).
      { intros done Hdone.
        destruct (IH (mkProgress e' q' calls done))
          as (rounds & Hlen & Hcalls & Hcompleted).
        exists (Some (key, success, size_of_value) :: rounds).
        split; [simpl; congruence |].
        split; [rewrite Hcalls; unfold calls; simpl;
                rewrite <- app_assoc; reflexivity |].
        rewrite Hcompleted. cbn [List.filter completed].
        rewrite Hdone.
        destruct (success && bool_decide (size_of_value = value_size_bytes));
          simpl; lia. }
      destruct (decide (size_of_value <> value_size_bytes)) as [Hne | Heq].
      * apply Hstep. rewrite bool_decide_eq_false_2 by exact Hne.
        rewrite andb_false_r. lia.
      * apply dec_stable in Heq.
        rewrite bool_decide_eq_true_2 in Hstep by exact Heq.
        rewrite andb_true_r in Hstep.
        destruct success; apply Hstep; lia.
    + destruct (IH (mkProgress (engine p) q' (engine_calls p) (completed p)))
        as (rounds & Hlen & Hcalls & Hcompleted).
      exists (None :: rounds). split; [simpl; congruence |].
      split; [exact Hcalls | exact Hcompleted].
Qed.


End DecodeProperties.


(** ** The batch benchmark *)

Section BatchBenchmarkProperties.

Import BatchBenchmark.
Local Set Default Proof Using "Type".

Context {L : Type}.
Variable to_string : Z -> string.

Lemma concat_mjoin {A : Type} (ls : list (list A)) : concat ls = mjoin ls.
Proof.
  induction ls as [|l ls IH]; [reflexivity|].
  cbn. rewrite IH. reflexivity.
Qed.

Lemma all_keys_lookup (num_batches batch_size batch_idx key_idx : Z) :
  0 <= batch_idx < num_batches -> 0 <= key_idx < batch_size ->
  all_keys to_string num_batches batch_size
    !! Z.to_nat (batch_idx * batch_size + key_idx)
  = Some (key_name to_string batch_idx key_idx).
Proof.
  intros Hb Hk. unfold all_keys.
  replace (Z.to_nat (batch_idx * batch_size + key_idx))
    with (Z.to_nat batch_idx * Z.to_nat batch_size + Z.to_nat key_idx)%nat
    by lia.
  rewrite concat_mjoin.
  apply (join_lookup_Some_same_length' (Z.to_nat batch_size)).
  - apply Forall_forall. intros l Hl.
    apply list_elem_of_fmap in Hl as [b [-> _]].
    rewrite length_fmap, length_seqZ. reflexivity.
  - lia.
  - exists (map (key_name to_string batch_idx) (seqZ 0 batch_size)). split.
    + change (map ?f ?l) with (f <$> l). rewrite list_lookup_fmap.
      rewrite lookup_seqZ_lt by lia. simpl. do 3 f_equal. lia.
    + change (map ?f ?l) with (f <$> l). rewrite list_lookup_fmap.
      rewrite lookup_seqZ_lt by lia. simpl. do 2 f_equal. lia.
Qed.

Lemma length_all_keys (num_batches batch_size : Z) :
  0 <= num_batches -> 0 <= batch_size ->
  Z.of_nat (length (all_keys to_string num_batches batch_size))
  = num_batches * batch_size.
Proof.
  intros HN HB. unfold all_keys.
  rewrite concat_mjoin, length_join.
  change (map ?f ?l) with (f <$> l). rewrite <- list_fmap_compose.
  rewrite (sum_list_fmap_same (Z.to_nat batch_size)).
  - rewrite length_seqZ. lia.
  - apply Forall_forall. intros b _. cbn.
    rewrite length_map, length_seqZ. reflexivity.
Qed.

Lemma u64_succ_add (x y : Z) : u64 (u64 (x + 1) + y) = u64 (x + (1 + y)).
Proof.
  unfold u64. rewrite Zplus_mod_idemp_l. f_equal. lia.
Qed.

Lemma u64_add_add (x y z : Z) : u64 (u64 (x + y) + z) = u64 (x + (y + z)).
Proof.
  unfold u64. rewrite Zplus_mod_idemp_l. f_equal. lia.
Qed.

Lemma u64_u64 (x : Z) : u64 (u64 x) = u64 x.
Proof. unfold u64. apply Zmod_mod. Qed.

Lemma aggregate_fold (results : list (BatchOperationResult L))
    (a : Aggregate L) :
  u64 (total_batches a) = total_batches a ->
  u64 (total_keys_processed a) = total_keys_processed a ->
  u64 (successful_batches a) = successful_batches a ->
  u64 (total_put_batches a) = total_put_batches a ->
  u64 (total_get_batches a) = total_get_batches a ->
  let a' := fold_left aggregate_step results a in
  let ok := List.filter success results in
  let puts := List.filter (fun r => success r && is_put r) results in
  let gets := List.filter (fun r => success r && negb (is_put r)) results in
  total_batches a' = u64 (total_batches a + Z.of_nat (length results)) /\
  total_keys_processed a'
  = u64 (total_keys_processed a + fold_right Z.add 0 (map batch_size results)) /\
  successful_batches a' = u64 (successful_batches a + Z.of_nat (length ok)) /\
  total_put_batches a' = u64 (total_put_batches a + Z.of_nat (length puts)) /\
  total_get_batches a' = u64 (total_get_batches a + Z.of_nat (length gets)) /\
  all_latencies a' = all_latencies a ++ map latency_us ok /\
  put_latencies a' = put_latencies a ++ map latency_us puts /\
  get_latencies a' = get_latencies a ++ map latency_us gets.
Proof.
  revert a. induction results as [|r results IH]; intros a Ht Hk Hs Hp Hg.
  - cbn. rewrite !Z.add_0_r, !app_nil_r. repeat split; congruence.
  - cbn zeta. cbn [fold_left].
    assert (Hstep :
      u64 (total_batches (aggregate_step a r)) = total_batches (aggregate_step a r) /\
      u64 (total_keys_processed (aggregate_step a r))
      = total_keys_processed (aggregate_step a r) /\
      u64 (successful_batches (aggregate_step a r))
      = successful_batches (aggregate_step a r) /\
      u64 (total_put_batches (aggregate_step a r))
      = total_put_batches (aggregate_step a r) /\
      u64 (total_get_batches (aggregate_step a r))
      = total_get_batches (aggregate_step a r)).
    { unfold aggregate_step.
      destruct (success r), (is_put r); cbn; rewrite ?u64_u64; tauto. }
    destruct Hstep as (Ht' & Hk' & Hs' & Hp' & Hg').
    destruct (IH (aggregate_step a r) Ht' Hk' Hs' Hp' Hg')
      as (E1 & E2 & E3 & E4 & E5 & E6 & E7 & E8).
    cbn zeta in E1, E2, E3, E4, E5, E6, E7, E8.
    rewrite E1, E2, E3, E4, E5, E6, E7, E8. clear E1 E2 E3 E4 E5 E6 E7 E8 IH.
    cbn [List.filter map fold_right length].
    unfold aggregate_step.
    destruct (success r), (is_put r);
      cbn [andb negb map length total_batches total_keys_processed
           successful_batches total_put_batches total_get_batches
           all_latencies put_latencies get_latencies];
      rewrite ?u64_succ_add, ?u64_add_add, <- ?app_assoc;
      cbn [app];
      repeat split; try reflexivity; f_equal; lia.
Qed.

Lemma filter_map_results (f : Z -> L * bool) (p : bool) (B : Z) (l : list Z) :
  map latency_us
    (List.filter success
       (map (fun b => mkResult (fst (f b)) p (snd (f b)) B) l))
  = map (fun b => fst (f b)) (List.filter (fun b => snd (f b)) l).
Proof.
  induction l as [|b l IH]; [reflexivity|].
  cbn. destruct (snd (f b)); cbn; rewrite IH; reflexivity.
Qed.

Lemma filter_results_kind (f : Z -> L * bool) (p q : bool) (B : Z)
    (l : list Z) :
  List.filter (fun r => success r && (if q then is_put r else negb (is_put r)))
    (map (fun b => mkResult (fst (f b)) p (snd (f b)) B) l)
  = if Bool.eqb p q
    then List.filter success
           (map (fun b => mkResult (fst (f b)) p (snd (f b)) B) l)
    else [].
Proof.
  induction l as [|b l IH]; [destruct (Bool.eqb p q); reflexivity|].
  cbn. rewrite IH.
  destruct (snd (f b)), p, q; reflexivity.
Qed.

Lemma sum_batch_sizes (f : Z -> L * bool) (p : bool) (B c : Z) (l : list Z) :
  fold_right Z.add c
    (map batch_size (map (fun b => mkResult (fst (f b)) p (snd (f b)) B) l))
  = Z.of_nat (length l) * B + c.
Proof.
  induction l as [|b l IH]; [cbn; lia|].
  cbn [map fold_right length batch_size]. rewrite IH. lia.
Qed.

(** X21 (batch benchmark, [run_batch_benchmark]): with [num_batches]
    batches of [batch_size] keys, where the number of keys fits an [int],
    the keys batch [batch_idx] puts and gets, read from [all_keys] at
    [batch_idx * batch_size + key_idx], are all inside the vector and are
    exactly the [batch_size] names made for that batch, in the order of
    [key_idx]; the vector holds [num_batches * batch_size] keys. *)
Theorem BatchBenchmark_batch_keys (num_batches batch_size batch_idx : Z) :
  0 <= batch_size -> num_batches * batch_size <= INT_MAX ->
  0 <= batch_idx < num_batches ->
  Z.of_nat (length (all_keys to_string num_batches batch_size))
  = num_batches * batch_size /\
  batch_keys (all_keys to_string num_batches batch_size) batch_size batch_idx
  = Some (map (key_name to_string batch_idx) (seqZ 0 batch_size)).
Proof.
  intros HB _ Hb. split; [apply length_all_keys; lia|].
  unfold batch_keys. apply mapM_Some_2.
  change (map ?f ?l) with (f <$> l).
  apply Forall2_fmap_r.
  apply Forall2_same_length_lookup_2; [reflexivity|].
  intros i x y Hx Hy. rewrite Hx in Hy. injection Hy as <-.
  apply lookup_seqZ in Hx as [-> Hi]. cbn.
  apply all_keys_lookup; lia.
Qed.

(** X22 (batch benchmark, [run_batch_benchmark] and [print_results]): for
    [num_batches] and [batch_size] in the range of a non-negative [int],
    the statistics gathered from the results of a run count two batches per
    batch index and [batch_size] keys for every batch, failed ones
    included; the put and get latencies are those of the successful
    batches in the order of the batch index, all latencies are the put
    latencies followed by the get latencies, and the three success counters
    are their lengths. *)
Theorem BatchBenchmark_accounting (put get : Z -> L * bool)
    (num_batches batch_size : Z) :
  0 <= num_batches <= INT_MAX -> 0 <= batch_size <= INT_MAX ->
  let a := aggregate (run_batch_benchmark put get num_batches batch_size) in
  let good f :=
    map (fun b => fst (f b))
        (List.filter (fun b => snd (f b)) (seqZ 0 num_batches)) in
  total_batches a = 2 * num_batches /\
  total_keys_processed a = 2 * num_batches * batch_size /\
  put_latencies a = good put /\
  get_latencies a = good get /\
  all_latencies a = good put ++ good get /\
  total_put_batches a = Z.of_nat (length (good put)) /\
  total_get_batches a = Z.of_nat (length (good get)) /\
  successful_batches a = total_put_batches a + total_get_batches a.
Proof.
  intros HN HB a good. subst a.
  unfold aggregate.
  destruct (aggregate_fold
              (run_batch_benchmark put get num_batches batch_size)
              (mkAggregate 0 0 0 0 0 [] [] []))
    as (E1 & E2 & E3 & E4 & E5 & E6 & E7 & E8); try reflexivity.
  cbn zeta in E1, E2, E3, E4, E5, E6, E7, E8.
  rewrite E1, E2, E3, E4, E5, E6, E7, E8. clear E1 E2 E3 E4 E5 E6 E7 E8.
  cbn [total_batches total_keys_processed successful_batches
       total_put_batches total_get_batches all_latencies put_latencies
       get_latencies app].
  unfold run_batch_benchmark.
  rewrite !List.filter_app, !List.map_app, !List.length_app, !List.length_map.
  rewrite fold_right_app.
  rewrite (filter_results_kind put true true),
          (filter_results_kind get false true),
          (filter_results_kind put true false),
          (filter_results_kind get false false).
  cbn [Bool.eqb app].
  rewrite !filter_map_results, !app_nil_r.
  fold (good put). fold (good get).
  assert (Hlen : forall f, Z.of_nat (length (good f)) <= num_batches).
  { intros f. unfold good. rewrite length_map.
    pose proof (List.filter_length_le (fun b => snd (f b)) (seqZ 0 num_batches)) as Hf.
    rewrite length_seqZ in Hf. lia. }
  pose proof (Hlen put) as Hp. pose proof (Hlen get) as Hg.
  rewrite <- !(length_map latency_us), !filter_map_results.
  fold (good put). fold (good get).
  rewrite !sum_batch_sizes, !length_seqZ.
  cbn [map length app]. rewrite !Nat.add_0_r, !Z.add_0_l.
  assert (Hkeys : 0 <= num_batches * batch_size
                  <= (2 ^ 31 - 1) * (2 ^ 31 - 1))
    by (unfold INT_MAX in HN, HB; nia).
  unfold INT_MAX in HN, HB. unfold u64, u64_modulus.
  rewrite !Z.mod_small by lia.
  repeat split; try reflexivity; lia.
Qed.

End BatchBenchmarkProperties.

(** With two batches of three keys, the second batch works on the keys
    numbered 3, 4 and 5 of the six. *)
Lemma BatchBenchmark_batch_keys_witness :
  Z.of_nat (length (BatchBenchmark.all_keys sample_to_string 2 3)) = 6 /\
  BatchBenchmark.batch_keys (BatchBenchmark.all_keys sample_to_string 2 3) 3 1
  = Some ["batch_1_key_0"; "batch_1_key_1"; "batch_1_key_2"].
Proof.
  exact (BatchBenchmark_batch_keys sample_to_string 2 3 1 ltac:(lia)
           ltac:(unfold INT_MAX; lia) ltac:(lia)).
Defined.

(** Two batches of three keys where the second get fails: four batches and
    twelve keys are counted, three batches are successful. *)
Lemma BatchBenchmark_accounting_witness :
  let a :=
    BatchBenchmark.aggregate
      (BatchBenchmark.run_batch_benchmark
         (fun b => (b, true)) (fun b => (b + 10, b =? 0)) 2 3) in
  BatchBenchmark.total_batches a = 4 /\
  BatchBenchmark.total_keys_processed a = 12 /\
  BatchBenchmark.all_latencies a = [0; 1; 10] /\
  BatchBenchmark.successful_batches a = 3.
Proof.
  destruct (BatchBenchmark_accounting
              (fun b => (b, true)) (fun b => (b + 10, b =? 0)) 2 3
              ltac:(unfold INT_MAX; lia) ltac:(unfold INT_MAX; lia))
    as (Ht & Hk & _ & _ & Hall & Hp & Hg & Hs).
  cbv zeta. split; [exact Ht |]. split; [exact Hk |]. split; [exact Hall |].
  rewrite Hs, Hp, Hg. reflexivity.
Defined.
